(** * data_cleaning.py: a sales-table cleaning pipeline over pandas

    The program is five short functions that call pandas on a DataFrame.
    This development embeds

    - the text operations the program asks of Python ([str.strip],
      [str.lower], [re.sub] with the pattern [[^\w]+], the [in] test on
      strings),
    - the part of pandas the program touches (typed columns, [copy],
      column selection and assignment, [astype(str)], [.str.strip()],
      [to_numeric(errors="coerce")], [dropna(subset=...)], comparison with
      [0] and boolean row selection),
    - a store of DataFrame objects, so that [df.copy()], the in-place
      assignments [df_clean[col] = ...] and the rebinding
      [df_clean = df_clean.dropna(...)] are what they are in Python,

    and then the four stages and the main block, statement by statement.

    Scope of the model.
    - A character is a code point below 256 (Rocq's [ascii]); the tables
      for whitespace, lower-casing and [\w] are Python's for that range.
    - Cells are what [read_csv] produces: text, integers, floats (with
      NaN, the missing-value marker) and booleans.  pandas 2 semantics:
      text lives in object-dtype columns.
    - A float is an IEEE 754 binary64 number and every operation on
      floats rounds to nearest, ties to even (the Standard Library's
      [SpecFloat]); [to_numeric] reads text as pandas' [precise_xstrtod]
      does, digit by digit in a double, and [str] writes the shortest
      numeral that is read back as the same double.  Integer columns
      are int64 or uint64, and [to_numeric] picks the dtype from the
      ranges of the integers it sees.
    - The reader is followed as it is compiled for x86-64: no fused
      multiply-add, and an [int] that overflows (an exponent of ten
      digits or more) wraps around.  A Python integer too large for a
      float (above [2^1024]) in an object column is not followed.
    - When a label is repeated, [df[col]] is a frame and not a Series.
      The text trimmer and the sanitizer then raise.  The range filter
      compares the frame with [0] and hands the boolean frame to
      [df.where]: cells are masked when every column of the table
      carries the label, and [ValueError] is raised otherwise.
    - Reading and writing the files are at the boundary: [header_only]
      is the frame read from a file that has only a header row, and
      [to_csv] gives the records that are written. *)

From Stdlib Require Import ZArith NArith Ascii String List Bool Lia DecimalString.
From Stdlib Require DecimalPos SpecFloat.
From stdpp Require Import base tactics option list.
Import ListNotations.

Local Open Scope string_scope.
Local Open Scope list_scope.

(** ** Python text *)

Module Text.

Definition code (c : ascii) : N := N_of_ascii c.

Definition between (lo hi n : N) : bool := ((lo <=? n) && (n <=? hi))%N.

(** [str.isspace] on one character, for code points below 256: TAB..CR,
    FS..US, space, NEL and NBSP. *)
Definition isspace (c : ascii) : bool :=
  let n := code c in
  between 9 13 n || between 28 32 n || (n =? 133)%N || (n =? 160)%N.

(** [str.lower] on one character: A..Z and the Latin-1 capitals
    U+00C0..U+00DE (the multiplication sign U+00D7 is not a letter). *)
Definition lower_char (c : ascii) : ascii :=
  let n := code c in
  if between 65 90 n || (between 192 222 n && negb (n =? 215)%N)
  then ascii_of_N (n + 32) else c.

(** [\w] of a [str] pattern: [str.isalnum] or the underscore. *)
Definition isword (c : ascii) : bool :=
  let n := code c in
  between 48 57 n || between 65 90 n || (n =? 95)%N || between 97 122 n
  || (n =? 170)%N || between 178 179 n || (n =? 181)%N || between 185 186 n
  || between 188 190 n || between 192 214 n || between 216 246 n
  || between 248 255 n.

Definition is_empty (s : string) : bool :=
  match s with EmptyString => true | String _ _ => false end.

Fixpoint lstrip (s : string) : string :=
  match s with
  | EmptyString => EmptyString
  | String c s' => if isspace c then lstrip s' else s
  end.

Fixpoint rstrip (s : string) : string :=
  match s with
  | EmptyString => EmptyString
  | String c s' =>
      let r := rstrip s' in
      if isspace c && is_empty r then EmptyString else String c r
  end.

(** [s.strip()] *)
Definition strip (s : string) : string := rstrip (lstrip s).

(** [s.lower()] *)
Fixpoint lower (s : string) : string :=
  match s with
  | EmptyString => EmptyString
  | String c s' => String (lower_char c) (lower s')
  end.

(** [re.sub(r"[^\w]+", "_", s)]: the scanner is inside a run of
    non-word characters when [in_run] is set; a run is replaced once, at
    its first character. *)
Fixpoint sub_nonword (in_run : bool) (s : string) : string :=
  match s with
  | EmptyString => EmptyString
  | String c s' =>
      if isword c then String c (sub_nonword false s')
      else if in_run then sub_nonword true s'
      else String "_" (sub_nonword true s')
  end.

Definition replace_nonword (s : string) : string := sub_nonword false s.

(** The non-word characters at the head of [s], and what follows
    them. *)
Fixpoint run_of (s : string) : string :=
  match s with
  | EmptyString => EmptyString
  | String c s' => if isword c then EmptyString else String c (run_of s')
  end.

Fixpoint skip_run (s : string) : string :=
  match s with
  | EmptyString => EmptyString
  | String c s' => if isword c then s else skip_run s'
  end.

(** [needle in hay] *)
Fixpoint contains (needle hay : string) : bool :=
  String.prefix needle hay ||
  match hay with
  | EmptyString => false
  | String _ hay' => contains needle hay'
  end.

Fixpoint all_chars (p : ascii -> bool) (s : string) : bool :=
  match s with
  | EmptyString => true
  | String c s' => p c && all_chars p s'
  end.

Definition first_char (s : string) : option ascii :=
  match s with EmptyString => None | String c _ => Some c end.

Fixpoint last_char (s : string) : option ascii :=
  match s with
  | EmptyString => None
  | String c EmptyString => Some c
  | String _ s' => last_char s'
  end.

End Text.

(** ** Cell values *)

(** A Python float is an IEEE 754 binary64 number, here a [spec_float]
    of the Standard Library: a signed zero, a signed infinity, NaN, or
    [Finite s m e], the number [(-1)^s * m * 2^e]. *)
Definition pyfloat : Type := SpecFloat.spec_float.
Abbreviation NaN := SpecFloat.S754_nan.
Abbreviation Inf := SpecFloat.S754_infinity.
Abbreviation Zero := SpecFloat.S754_zero.
Abbreviation Finite := SpecFloat.S754_finite.

(** The arithmetic of C's [double] and of numpy's [float64]: every
    operation rounds to nearest, ties to even. *)
Module B64.

Definition prec : Z := 53.
Definition emax : Z := 1024.

Definition add : pyfloat -> pyfloat -> pyfloat := SpecFloat.SFadd prec emax.
Definition mul : pyfloat -> pyfloat -> pyfloat := SpecFloat.SFmul prec emax.
Definition div : pyfloat -> pyfloat -> pyfloat := SpecFloat.SFdiv prec emax.
Definition opp : pyfloat -> pyfloat := SpecFloat.SFopp.
Definition leb : pyfloat -> pyfloat -> bool := SpecFloat.SFleb.

(** The double nearest to the integer [z]. *)
Definition of_Z (z : Z) : pyfloat := SpecFloat.binary_normalize prec emax z 0 false.

Definition is_inf (f : pyfloat) : bool :=
  match f with Inf _ => true | _ => false end.

End B64.

Inductive value : Type :=
  | VStr (s : string)
  | VInt (z : Z)
  | VFloat (f : pyfloat)
  | VBool (b : bool).

(** [pd.isna] on one cell: NaN is the missing-value marker. *)
Definition isna (v : value) : bool :=
  match v with VFloat NaN => true | _ => false end.

Definition notna (v : value) : bool := negb (isna v).

Definition is_text (v : value) : bool :=
  match v with VStr _ => true | _ => false end.

(** A valid, non-missing number.  Booleans count: Python's [bool] is an
    integer type and pandas classifies the bool dtype as numeric. *)
Definition is_number (v : value) : bool :=
  match v with
  | VStr _ => false
  | VFloat NaN => false
  | _ => true
  end.

(** ** Numerals: reading ([to_numeric]) and writing ([str]) *)

Module Numeral.
Import Text.

Definition isspace_ascii (c : ascii) : bool :=
  let n := code c in between 9 13 n || (n =? 32)%N.

Definition isdigit_ascii (c : ascii) : bool := between 48 57 (code c).

Definition digit_val (c : ascii) : N := (code c - 48)%N.

Definition tolower_ascii (c : ascii) : ascii :=
  let n := code c in if between 65 90 n then ascii_of_N (n + 32) else c.

Fixpoint skip_ws (s : string) : string :=
  match s with
  | String c s' => if isspace_ascii c then skip_ws s' else s
  | EmptyString => s
  end.

(** Reads a run of digits: the accumulated value, how many digits were
    read, and the rest of the text. *)
Fixpoint digits (acc : N) (count : nat) (s : string) : N * nat * string :=
  match s with
  | String c s' =>
      if isdigit_ascii c then digits (acc * 10 + digit_val c)%N (S count) s'
      else (acc, count, s)
  | EmptyString => (acc, count, s)
  end.

Definition sign (s : string) : bool * string :=
  match s with
  | String "-" s' => (true, s')
  | String "+" s' => (false, s')
  | _ => (false, s)
  end.

(** *** The numeral reader of [to_numeric]

    pandas' [precise_xstrtod], as [floatify] calls it: decimal point
    ['.'], exponent mark ['E'], no thousands separator, trailing blanks
    skipped.  The number is accumulated in a double. *)

Definition max_digits : nat := 17.

(** [number * 10. + ( *p - '0')] *)
Definition push (number : pyfloat) (c : ascii) : pyfloat :=
  B64.add (B64.mul number (B64.of_Z 10)) (B64.of_Z (Z.of_N (digit_val c))).

(** The table [e[]] of the powers of ten [1., 1e1, ..., 1e308], each
    the double nearest to the power. *)
Definition e10 (k : Z) : pyfloat := B64.of_Z (10 ^ k).

(** The digits before the point: the first seventeen are accumulated,
    each further one counts as a power of ten. *)
Fixpoint int_part (number : pyfloat) (num_digits : nat) (exponent : Z) (p : string)
    : pyfloat * nat * Z * string :=
  match p with
  | String c p' =>
      if isdigit_ascii c then
        if (num_digits <? max_digits)%nat
        then int_part (push number c) (S num_digits) exponent p'
        else int_part number num_digits (exponent + 1) p'
      else (number, num_digits, exponent, p)
  | EmptyString => (number, num_digits, exponent, p)
  end.

(** The digits after the point, while fewer than seventeen digits have
    been accumulated. *)
Fixpoint frac_part (number : pyfloat) (num_digits num_decimals : nat) (p : string)
    : pyfloat * nat * nat * string :=
  match p with
  | String c p' =>
      if (num_digits <? max_digits)%nat && isdigit_ascii c
      then frac_part (push number c) (S num_digits) (S num_decimals) p'
      else (number, num_digits, num_decimals, p)
  | EmptyString => (number, num_digits, num_decimals, p)
  end.

Fixpoint skip_digits (p : string) : string :=
  match p with
  | String c p' => if isdigit_ascii c then skip_digits p' else p
  | EmptyString => p
  end.

(** A C [int]: 32 bits, two's complement; arithmetic that overflows
    wraps around. *)
Definition wrap32 (z : Z) : Z := ((z + 2 ^ 31) mod 2 ^ 32 - 2 ^ 31)%Z.

(** The digits of the exponent, seventeen at most, accumulated in an
    [int]. *)
Fixpoint exp_digits (n : Z) (num_digits : nat) (p : string) : Z * nat * string :=
  match p with
  | String c p' =>
      if (num_digits <? max_digits)%nat && isdigit_ascii c
      then exp_digits (wrap32 (n * 10 + Z.of_N (digit_val c))) (S num_digits) p'
      else (n, num_digits, p)
  | EmptyString => (n, num_digits, p)
  end.

(** The double that is read and whether the text could be an integer
    (no point, no exponent); [None] when the reader reports an error
    or stops before the end of the text. *)
Definition precise_xstrtod (s : string) : option (pyfloat * bool) :=
  let '(negative, p) := sign (skip_ws s) in
  let '(number, num_digits, exponent, p) := int_part (Zero false) 0 0 p in
  let '(number, num_digits, exponent, maybe_int, p) :=
    match p with
    | String "." p' =>
        let '(number, num_digits, num_decimals, p'') := frac_part number num_digits 0 p' in
        (number, num_digits, (exponent - Z.of_nat num_decimals)%Z, false,
         if (max_digits <=? num_digits)%nat then skip_digits p'' else p'')
    | _ => (number, num_digits, exponent, true, p)
    end in
  match num_digits with
  | O => None
  | S _ =>
      let number := if negative then B64.opp number else number in
      let '(exponent, maybe_int, p) :=
        match p with
        | String c p' =>
            if Ascii.eqb (tolower_ascii c) "e" then
              let '(eneg, q) := sign p' in
              let '(n, k, q') := exp_digits 0 0 q in
              (wrap32 (if eneg then exponent - n else exponent + n), false,
               match k with O => p | S _ => q' end)
            else (exponent, maybe_int, p)
        | EmptyString => (exponent, maybe_int, p)
        end in
      if (308 <? exponent)%Z then None
      else
        let number :=
          if (0 <? exponent)%Z then B64.mul number (e10 exponent)
          else if (exponent <? -308)%Z then
            if (exponent <? -616)%Z then Zero false
            else B64.div (B64.div number (e10 (-308 - exponent))) (e10 308)
          else B64.div number (e10 (- exponent)) in
        if B64.is_inf number then None
        else if is_empty (skip_ws p) then Some (number, maybe_int) else None
  end.

Fixpoint tolower (s : string) : string :=
  match s with
  | EmptyString => EmptyString
  | String c s' => String (tolower_ascii c) (tolower s')
  end.

(** The spellings of infinity that [floatify] accepts once the reader
    has failed. *)
Definition inf_word (s : string) : option bool :=
  let w := tolower s in
  if (w =? "inf") || (w =? "+inf") || (w =? "infinity") || (w =? "+infinity")
  then Some false
  else if (w =? "-inf") || (w =? "-infinity") then Some true
  else None.

(** The text as C reads it: up to the first NUL character. *)
Fixpoint c_string (s : string) : string :=
  match s with
  | String c s' => if (code c =? 0)%N then EmptyString else String c (c_string s')
  | EmptyString => EmptyString
  end.

Definition floatify (s : string) : option (pyfloat * bool) :=
  let data := c_string s in
  match precise_xstrtod data with
  | Some r => Some r
  | None =>
      match inf_word data with
      | Some neg => Some (Inf neg, false)
      | None => None
      end
  end.

(** [int(s)] on a text: Python's whitespace around, a sign, digits.
    (The underscores that [int] accepts between digits are not
    followed: [int] is called on texts the reader has accepted, and it
    accepts none with an underscore.) *)
Definition py_int (s : string) : option Z :=
  let '(neg, p) := sign (strip s) in
  match digits 0 0 p with
  | (m, S _, EmptyString) => Some (if neg then (- Z.of_N m)%Z else Z.of_N m)
  | _ => None
  end.

(** What one cell of an object column is to
    [maybe_convert_numeric(..., coerce_numeric=True)]: an integer (with
    the double kept beside it in the array of floats), a float, or a
    boolean.  A cell that cannot be read is the float NaN. *)
Inductive num : Type :=
  | NInt (z : Z) (f : pyfloat)
  | NFloat (f : pyfloat)
  | NBool (b : bool).

Definition str_to_num (s : string) : num :=
  if is_empty s then NFloat NaN
  else match floatify s with
       | Some (fval, maybe_int) =>
           if maybe_int then
             match py_int s with
             | Some as_int => NInt as_int fval
             | None => NFloat NaN
             end
           else NFloat fval
       | None => NFloat NaN
       end.

Definition cell_to_num (v : value) : num :=
  match v with
  | VStr s => str_to_num s
  | VInt z => NInt z (B64.of_Z z)
  | VFloat f => NFloat f
  | VBool b => NBool b
  end.

Definition is_float (n : num) : bool := match n with NFloat _ => true | _ => false end.
Definition is_int (n : num) : bool := match n with NInt _ _ => true | _ => false end.
Definition is_bool (n : num) : bool := match n with NBool _ => true | _ => false end.

Definition int64_min : Z := -9223372036854775808.
Definition int64_max : Z := 9223372036854775807.
Definition uint64_max : Z := 18446744073709551615.

Definition in_int64 (z : Z) : bool := (int64_min <=? z)%Z && (z <=? int64_max)%Z.

(** The flags [sint_] and [uint_] of [Seen.saw_int], and an integer
    that fits neither int64 nor uint64. *)
Definition is_sint (n : num) : bool :=
  match n with NInt z _ => (int64_min <=? z)%Z && (z <? 0)%Z | _ => false end.
Definition is_uint (n : num) : bool :=
  match n with NInt z _ => (int64_max <? z)%Z && (z <=? uint64_max)%Z | _ => false end.
Definition out_of_range (n : num) : bool :=
  match n with NInt z _ => (z <? int64_min)%Z || (uint64_max <? z)%Z | _ => false end.

(** The flag [float_] once every cell has been seen. *)
Definition seen_float (ns : list num) : bool :=
  existsb is_float ns || existsb out_of_range ns
  || (existsb is_uint ns && existsb is_sint ns).

Definition int_of_bool (b : bool) : Z := if b then 1 else 0.

Definition to_float (n : num) : pyfloat :=
  match n with
  | NInt _ f => f
  | NFloat f => f
  | NBool b => B64.of_Z (int_of_bool b)
  end.

Definition to_int (n : num) : Z :=
  match n with
  | NInt z _ => z
  | NBool b => int_of_bool b
  | NFloat _ => 0
  end.

Definition to_bool (n : num) : bool :=
  match n with NBool b => b | _ => false end.

(** The integer a float is equal to, when it is equal to one. *)
Definition float_to_int (f : pyfloat) : option Z :=
  match f with
  | Zero _ => Some 0%Z
  | Finite neg m e =>
      let z :=
        if (0 <=? e)%Z then Some (Z.pos m * 2 ^ e)%Z
        else if (Z.pos m mod 2 ^ (- e) =? 0)%Z then Some (Z.pos m / 2 ^ (- e))%Z
             else None in
      match z with
      | Some z => Some (if neg then (- z)%Z else z)
      | None => None
      end
  | _ => None
  end.

(** One cell of [values.astype("i8")], when the cast goes through and
    gives an integer equal to the cell. *)
Definition as_int64 (v : value) : option Z :=
  match v with
  | VInt z => if in_int64 z then Some z else None
  | VBool b => Some (int_of_bool b)
  | VFloat f =>
      match float_to_int f with
      | Some z => if in_int64 z then Some z else None
      | None => None
      end
  | VStr _ => None
  end.

Fixpoint all_some {A : Type} (l : list (option A)) : option (list A) :=
  match l with
  | [] => Some []
  | Some x :: l' =>
      match all_some l' with
      | Some xs => Some (x :: xs)
      | None => None
      end
  | None :: _ => None
  end.

(** The shortcut of [maybe_convert_numeric] for a column whose first
    cell is an integer: the column cast to int64, when the cast is
    equal to the column. *)
Definition int_fastpath (l : list value) : option (list Z) :=
  match l with
  | VInt _ :: _ => all_some (map as_int64 l)
  | _ => None
  end.

(** *** Writing *)

(** [str(z)] *)
Definition int_str (z : Z) : string := NilZero.string_of_int (Z.to_int z).

Fixpoint zeros (n : nat) : string :=
  match n with O => EmptyString | S n' => String "0" (zeros n') end.

(** Drops the zeros at the end of a digit string. *)
Fixpoint rstrip_zeros (s : string) : string :=
  match s with
  | EmptyString => EmptyString
  | String c s' =>
      let r := rstrip_zeros s' in
      if Ascii.eqb c "0" && is_empty r then EmptyString else String c r
  end.

Definition pad2 (s : string) : string :=
  match s with
  | String c EmptyString => String "0" s
  | _ => s
  end.

(** The decimal numeral [q * 10^k] against the fraction [num / den]. *)
Definition cmp_dec (q k num den : Z) : comparison :=
  if (0 <=? k)%Z then (q * 10 ^ k * den ?= num)%Z
  else (q * den ?= num * 10 ^ (- k))%Z.

(** The greatest [E' <= E] with [10^E' <= xn / den]. *)
Fixpoint find_exp (fuel : nat) (E xn den : Z) : Z :=
  match fuel with
  | O => E
  | S fuel' =>
      match cmp_dec 1 E xn den with
      | Gt => find_exp fuel' (E - 1)%Z xn den
      | _ => E
      end
  end.

Definition floor_scaled (k xn den : Z) : Z :=
  if (0 <=? k)%Z then (xn / (den * 10 ^ k))%Z else ((xn * 10 ^ (- k)) / den)%Z.

(** [q * 10^k] is read back as the double whose rounding interval is
    [lown / den .. highn / den]; the ends belong to the interval when
    the mantissa of the double is even. *)
Definition inside (closed : bool) (q k lown highn den : Z) : bool :=
  match cmp_dec q k lown den, cmp_dec q k highn den with
  | Gt, Lt => true
  | Eq, Lt | Gt, Eq => closed
  | _, _ => false
  end.

(** The numerals of [n], [n + 1], ... digits next to the double, until
    one is read back as the double; of two that are, the nearer. *)
Fixpoint shortest_from (fuel : nat) (n E : Z) (closed : bool) (xn lown highn den : Z)
    : Z * Z :=
  match fuel with
  | O => (0, 0)%Z
  | S fuel' =>
      let k := (E - n + 1)%Z in
      let q := floor_scaled k xn den in
      let a := inside closed q k lown highn den in
      let b := inside closed (q + 1) k lown highn den in
      if a && b then
        match cmp_dec (2 * q + 1) k (2 * xn) den with
        | Lt => ((q + 1)%Z, k)
        | Gt => (q, k)
        | Eq => if Z.even q then (q, k) else ((q + 1)%Z, k)
        end
      else if a then (q, k)
      else if b then ((q + 1)%Z, k)
      else shortest_from fuel' (n + 1)%Z E closed xn lown highn den
  end.

(** The shortest decimal numeral [q * 10^k] that is read back as the
    double [m * 2^e] (what Python's [repr] prints).  The double and the
    ends of its rounding interval are counted in quarters of the unit
    in the last place. *)
Definition shortest (m : positive) (e : Z) : Z * Z :=
  let unit := (2 ^ Z.max (e - 2) 0)%Z in
  let den := (2 ^ Z.max (2 - e) 0)%Z in
  let xn := (4 * Z.pos m * unit)%Z in
  let highn := ((4 * Z.pos m + 2) * unit)%Z in
  let lown :=
    if Pos.eqb m 4503599627370496 && (-1074 <? e)%Z
    then ((4 * Z.pos m - 1) * unit)%Z else ((4 * Z.pos m - 2) * unit)%Z in
  let E := find_exp 8 (((Z.log2 (Z.pos m) + e) * 30103) / 100000 + 2)%Z xn den in
  shortest_from 17 1 E (Z.even (Z.pos m)) xn lown highn den.

(** The numeral [m * 10^e] in Python's [repr] format: positional
    notation when the decimal point falls within [-4 < decpt <= 16],
    exponent notation otherwise. *)
Definition decimal_str (neg : bool) (m : N) (e : Z) : string :=
  let sgn := if neg then "-" else "" in
  let all := NilZero.string_of_uint (N.to_uint m) in
  let ds := rstrip_zeros all in
  let n := String.length ds in
  let decpt := (Z.of_nat (String.length all) + e)%Z in
  if ((-4 <? decpt) && (decpt <=? 16))%Z then
    if (decpt <=? 0)%Z then sgn ++ "0." ++ zeros (Z.to_nat (- decpt)) ++ ds
    else if (Z.of_nat n <=? decpt)%Z
         then sgn ++ ds ++ zeros (Z.to_nat decpt - n) ++ ".0"
         else sgn ++ substring 0 (Z.to_nat decpt) ds ++ "."
                  ++ substring (Z.to_nat decpt) (n - Z.to_nat decpt) ds
  else
    let x := (decpt - 1)%Z in
    sgn ++ substring 0 1 ds
        ++ (if (1 <? n)%nat then "." ++ substring 1 (n - 1) ds else "")
        ++ "e" ++ (if (x <? 0)%Z then "-" else "+")
        ++ pad2 (int_str (Z.abs x)).

(** [str(f)] *)
Definition float_str (f : pyfloat) : string :=
  match f with
  | NaN => "nan"
  | Inf false => "inf"
  | Inf true => "-inf"
  | Zero false => "0.0"
  | Zero true => "-0.0"
  | Finite neg m e => let '(q, k) := shortest m e in decimal_str neg (Z.to_N q) k
  end.

End Numeral.

(** [str(v)], as [astype(str)] applies it to each cell. *)
Definition py_str (v : value) : string :=
  match v with
  | VStr s => s
  | VInt z => Numeral.int_str z
  | VFloat f => Numeral.float_str f
  | VBool true => "True"
  | VBool false => "False"
  end.

(** ** Series and frames *)

(** A column with its dtype: object, int64, uint64, float64 or bool. *)
Inductive Series : Type :=
  | SObject (l : list value)
  | SInt64 (l : list Z)
  | SUInt64 (l : list Z)
  | SFloat64 (l : list pyfloat)
  | SBool (l : list bool).

Definition cells (s : Series) : list value :=
  match s with
  | SObject l => l
  | SInt64 l => map VInt l
  | SUInt64 l => map VInt l
  | SFloat64 l => map VFloat l
  | SBool l => map VBool l
  end.

Definition is_object (s : Series) : bool :=
  match s with SObject _ => true | _ => false end.

(** A frame: the row labels and the labelled columns, in order.  Labels
    may repeat (pandas allows it, and renaming can make them collide). *)
Record DataFrame : Type := mkFrame {
  index : list Z;
  data : list (string * Series)
}.

(** [df.columns] *)
Definition columns (df : DataFrame) : list string := map fst (data df).

(** The invariant pandas keeps: every column is as long as the index. *)
Definition wf (df : DataFrame) : Prop :=
  Forall (fun cs => length (cells (snd cs)) = length (index df)) (data df).

Definition occurrences (c : string) (l : list string) : nat :=
  length (List.filter (String.eqb c) l).

Definition mem (c : string) (l : list string) : bool := existsb (String.eqb c) l.

(** What stops a call short of returning a table. *)
Inductive exn : Type :=
  | KeyError
  | TypeError
  | AttributeError
  | ValueError
  | BadRef
      (** a location that holds no object; no program below produces one *).

Inductive result (A : Type) : Type :=
  | Ok (a : A)
  | Raised (e : exn).
Arguments Ok {A} a.
Arguments Raised {A} e.

Module Pandas.

(** Boolean indexing: the positions where the mask holds, in order. *)
Fixpoint take_rows {A : Type} (mask : list bool) (l : list A) : list A :=
  match mask, l with
  | b :: mask', x :: l' => if b then x :: take_rows mask' l' else take_rows mask' l'
  | _, _ => []
  end.

Definition series_take (mask : list bool) (s : Series) : Series :=
  match s with
  | SObject l => SObject (take_rows mask l)
  | SInt64 l => SInt64 (take_rows mask l)
  | SUInt64 l => SUInt64 (take_rows mask l)
  | SFloat64 l => SFloat64 (take_rows mask l)
  | SBool l => SBool (take_rows mask l)
  end.

(** [df[mask]] for a boolean Series over the frame's own index. *)
Definition frame_take (mask : list bool) (df : DataFrame) : DataFrame :=
  {| index := take_rows mask (index df);
     data := map (fun cs => (fst cs, series_take mask (snd cs))) (data df) |}.

(** [df[col]]: a Series when the label occurs once, a sub-frame (over
    the same index, every column carrying the label) when it is
    repeated, [KeyError] when it is absent. *)
Inductive selection : Type :=
  | IsSeries (s : Series)
  | IsFrame (cols : list (string * Series)).

Definition select (df : DataFrame) (col : string) : list Series :=
  map snd (List.filter (fun cs => String.eqb col (fst cs)) (data df)).

Definition getitem (df : DataFrame) (col : string) : result selection :=
  match select df col with
  | [] => Raised KeyError
  | [s] => Ok (IsSeries s)
  | cols => Ok (IsFrame (map (pair col) cols))
  end.

(** [df[col] = s]: every column carrying the label is overwritten; a new
    label is appended. *)
Definition setitem (df : DataFrame) (col : string) (s : Series) : DataFrame :=
  {| index := index df;
     data := if mem col (columns df)
             then map (fun cs => if String.eqb col (fst cs) then (fst cs, s) else cs) (data df)
             else data df ++ [(col, s)] |}.

(** [df.columns = labels] *)
Definition set_columns (df : DataFrame) (labels : list string) : result DataFrame :=
  if Nat.eqb (length labels) (length (data df))
  then Ok {| index := index df; data := combine labels (map snd (data df)) |}
  else Raised ValueError.

(** [df.select_dtypes(include="object").columns.tolist()] *)
Definition select_dtypes_object (df : DataFrame) : list string :=
  map fst (List.filter (fun cs => is_object (snd cs)) (data df)).

(** [.astype(str)] *)
Definition series_astype_str (s : Series) : Series :=
  SObject (map (fun v => VStr (py_str v)) (cells s)).

Definition astype_str (sel : selection) : selection :=
  match sel with
  | IsSeries s => IsSeries (series_astype_str s)
  | IsFrame cols => IsFrame (map (fun cs => (fst cs, series_astype_str (snd cs))) cols)
  end.

(** [.str.strip()]: a frame has no [.str]; on a Series of objects the
    text cells are stripped and any other cell becomes NaN.  (The
    accessor's refusal of object columns that hold no text at all is
    not modelled: the program calls it after [astype(str)] only.) *)
Definition strip_cell (v : value) : value :=
  match v with
  | VStr s => VStr (Text.strip s)
  | _ => VFloat NaN
  end.

Definition str_strip (sel : selection) : result Series :=
  match sel with
  | IsSeries (SObject l) => Ok (SObject (map strip_cell l))
  | _ => Raised AttributeError
  end.

(** [pd.to_numeric(s, errors="coerce")]: a numeric dtype is returned as
    it is; an object column is converted by [maybe_convert_numeric],
    which takes the shortcut when it can and otherwise reads the cells
    one by one and returns the array of the widest kind seen (float;
    else uint64 when an integer above the int64 range was seen; else
    int64; else bool; int64 when the column is empty). *)
Definition series_to_numeric (s : Series) : Series :=
  match s with
  | SObject l =>
      match Numeral.int_fastpath l with
      | Some ints => SInt64 ints
      | None =>
          let ns := map Numeral.cell_to_num l in
          if Numeral.seen_float ns then SFloat64 (map Numeral.to_float ns)
          else if existsb Numeral.is_int ns then
            if existsb Numeral.is_uint ns then SUInt64 (map Numeral.to_int ns)
            else SInt64 (map Numeral.to_int ns)
          else if existsb Numeral.is_bool ns then SBool (map Numeral.to_bool ns)
          else SInt64 []
      end
  | _ => s
  end.

Definition to_numeric (sel : selection) : result Series :=
  match sel with
  | IsSeries s => Ok (series_to_numeric s)
  | IsFrame _ => Raised TypeError
  end.

(** [x >= 0] on a float: false on NaN, true on [-0.0]. *)
Definition float_ge0 (f : pyfloat) : bool := B64.leb (Zero false) f.

(** [v >= 0] on one cell of an object column: false on a missing
    value, [TypeError] on text. *)
Definition cell_ge0 (v : value) : result bool :=
  match v with
  | VStr _ => Raised TypeError
  | VInt z => Ok (0 <=? z)%Z
  | VFloat f => Ok (float_ge0 f)
  | VBool _ => Ok true
  end.

Fixpoint all_ok {A B : Type} (f : A -> result B) (l : list A) : result (list B) :=
  match l with
  | [] => Ok []
  | x :: l' =>
      match f x with
      | Raised e => Raised e
      | Ok y => match all_ok f l' with
                | Raised e => Raised e
                | Ok ys => Ok (y :: ys)
                end
      end
  end.

Definition series_ge0 (s : Series) : result (list bool) :=
  all_ok cell_ge0 (cells s).

(** The result of [df[col] >= 0]: a boolean Series, or a boolean
    frame with the labels of the sub-frame. *)
Inductive mask : Type :=
  | RowMask (m : list bool)
  | CellMask (cond : list (string * list bool)).

Definition ge0 (sel : selection) : result mask :=
  match sel with
  | IsSeries s =>
      match series_ge0 s with
      | Ok m => Ok (RowMask m)
      | Raised e => Raised e
      end
  | IsFrame cols =>
      match all_ok (fun cs => series_ge0 (snd cs)) cols with
      | Ok ms => Ok (CellMask (combine (map fst cols) ms))
      | Raised e => Raised e
      end
  end.

(** [l] with [other] where [cond] does not hold. *)
Fixpoint where_list {A : Type} (cond : list bool) (l : list A) (other : A) : list A :=
  match cond, l with
  | b :: cond', x :: l' => (if b then x else other) :: where_list cond' l' other
  | _, _ => []
  end.

(** One column of [df.where(cond)]: NaN where the condition does not
    hold.  A float64 or object column keeps its dtype; an int64,
    uint64 or bool column cannot hold NaN: it is returned as it is when
    the condition holds everywhere and becomes float64 (object for
    bool) otherwise. *)
Definition series_where (cond : list bool) (s : Series) : Series :=
  match s with
  | SObject l => SObject (where_list cond l (VFloat NaN))
  | SFloat64 l => SFloat64 (where_list cond l NaN)
  | SInt64 l | SUInt64 l =>
      if forallb id cond then s
      else SFloat64 (where_list cond (map B64.of_Z l) NaN)
  | SBool l =>
      if forallb id cond then s
      else SObject (where_list cond (map VBool l) (VFloat NaN))
  end.

Fixpoint frame_where_data (cond : list (string * list bool)) (d : list (string * Series))
    : list (string * Series) :=
  match cond, d with
  | c :: cond', cs :: d' => (fst cs, series_where (snd c) (snd cs)) :: frame_where_data cond' d'
  | _, _ => []
  end.

(** [df.where(cond)] for a condition with the columns of [df]. *)
Definition frame_where (cond : list (string * list bool)) (df : DataFrame) : DataFrame :=
  {| index := index df; data := frame_where_data cond (data df) |}.

Fixpoint same_labels (l1 l2 : list string) : bool :=
  match l1, l2 with
  | [], [] => true
  | a :: l1', b :: l2' => String.eqb a b && same_labels l1' l2'
  | _, _ => false
  end.

(** [df[m]] for the result of a comparison.  A boolean Series selects
    rows.  A boolean frame is handed to [df.where]: when its labels are
    the labels of [df] (every column of [df] carries the repeated
    label) the cells are masked; otherwise the condition is aligned
    with [df] on the labels, the repeated label is matched many to
    many, and reindexing the result raises [ValueError] ("cannot
    reindex on an axis with duplicate labels"). *)
Definition getitem_mask (df : DataFrame) (m : mask) : result DataFrame :=
  match m with
  | RowMask m => Ok (frame_take m df)
  | CellMask cond =>
      if same_labels (map fst cond) (columns df) then Ok (frame_where cond df)
      else Raised ValueError
  end.

Fixpoint and_mask (m1 m2 : list bool) : list bool :=
  match m1, m2 with
  | b1 :: m1', b2 :: m2' => (b1 && b2) :: and_mask m1' m2'
  | _, _ => []
  end.

(** The rows that have no missing value in any column whose label is in
    [subset]. *)
Definition notna_rows (subset : list string) (df : DataFrame) : list bool :=
  fold_right
    (fun cs m => if mem (fst cs) subset then and_mask (map notna (cells (snd cs))) m else m)
    (repeat true (length (index df))) (data df).

(** [df.dropna(subset=subset)]: [KeyError] when a label of [subset] is
    not a column. *)
Definition dropna (df : DataFrame) (subset : list string) : result DataFrame :=
  if forallb (fun c => mem c (columns df)) subset
  then Ok (frame_take (notna_rows subset df) df)
  else Raised KeyError.

End Pandas.

(** ** The store of DataFrame objects *)

(** A Python variable of type DataFrame holds a reference.  The store is
    the list of the objects allocated so far, and a reference is a
    position in it.  A computation threads the store and either returns
    or raises; the store is kept in both cases. *)
Abbreviation loc := nat.
Abbreviation store := (list DataFrame).
Definition M (A : Type) : Type := store -> store * result A.

Definition ret {A : Type} (a : A) : M A := fun h => (h, Ok a).

Definition bind {A B : Type} (m : M A) (k : A -> M B) : M B :=
  fun h =>
    match m h with
    | (h', Ok a) => k a h'
    | (h', Raised e) => (h', Raised e)
    end.

Notation "'do' x <- m ; k" := (bind m (fun x => k))
  (at level 10, x name, m at level 100, k at level 200).
Notation "'exec' m ; k" := (bind m (fun _ => k))
  (at level 10, m at level 100, k at level 200).

Definition lift {A : Type} (r : result A) : M A := fun h => (h, r).

Definition deref (l : loc) : M DataFrame :=
  fun h => match h !! l with
           | Some v => (h, Ok v)
           | None => (h, Raised BadRef)
           end.

Definition alloc (v : DataFrame) : M loc := fun h => (h ++ [v], Ok (length h)).

Definition assign (l : loc) (v : DataFrame) : M unit := fun h => (<[l := v]> h, Ok tt).

(** [for x in l: body(x)] *)
Fixpoint for_each {A : Type} (l : list A) (body : A -> M unit) : M unit :=
  match l with
  | [] => ret tt
  | x :: l' => exec body x ; for_each l' body
  end.

(** [for x in l: v = body(v, x)], a loop that rebinds one variable. *)
Fixpoint for_rebind {A V : Type} (l : list A) (v : V) (body : V -> A -> M V) : M V :=
  match l with
  | [] => ret v
  | x :: l' => do v' <- body v x ; for_rebind l' v' body
  end.

(** The DataFrame methods the program calls, on references. *)
Module Py.

(** [df.copy()]: a new object with the same content. *)
Definition copy (df : loc) : M loc := do v <- deref df ; alloc v.

(** [df.columns] *)
Definition get_columns (df : loc) : M (list string) :=
  do v <- deref df ; ret (columns v).

(** [df.columns = labels], in place. *)
Definition set_columns (df : loc) (labels : list string) : M unit :=
  do v <- deref df ;
  do v' <- lift (Pandas.set_columns v labels) ;
  assign df v'.

(** [df.select_dtypes(include="object").columns.tolist()] *)
Definition select_dtypes_object (df : loc) : M (list string) :=
  do v <- deref df ; ret (Pandas.select_dtypes_object v).

(** [df[col]] *)
Definition getitem (df : loc) (col : string) : M Pandas.selection :=
  do v <- deref df ; lift (Pandas.getitem v col).

(** [df[col] = s], in place. *)
Definition setitem (df : loc) (col : string) (s : Series) : M unit :=
  do v <- deref df ; assign df (Pandas.setitem v col s).

(** [df.dropna(subset=subset)]: a new object. *)
Definition dropna (df : loc) (subset : list string) : M loc :=
  do v <- deref df ;
  do v' <- lift (Pandas.dropna v subset) ;
  alloc v'.

(** [df[m]]: a new object. *)
Definition getitem_mask (df : loc) (m : Pandas.mask) : M loc :=
  do v <- deref df ;
  do v' <- lift (Pandas.getitem_mask v m) ;
  alloc v'.

End Py.

(** ** The program *)

Definition is_price (c : string) : bool := Text.contains "price" c.

Definition is_qty (c : string) : bool :=
  Text.contains "qty" c || Text.contains "quantity" c.

Definition is_matched (c : string) : bool := is_price c || is_qty c.

(** The three steps applied to each label by [clean_column_names]. *)
Definition clean_name (c : string) : string :=
  Text.replace_nonword (Text.lower (Text.strip c)).

Definition clean_column_names (df : loc) : M loc :=
  do df_clean <- Py.copy df ;
  do cols <- Py.get_columns df_clean ;
  exec Py.set_columns df_clean
    (map Text.replace_nonword (map Text.lower (map Text.strip cols))) ;
  ret df_clean.

Definition strip_text_columns (df : loc) (text_columns : option (list string)) : M loc :=
  do df_clean <- Py.copy df ;
  do text_columns <- match text_columns with
                     | None => Py.select_dtypes_object df_clean
                     | Some cols => ret cols
                     end ;
  exec for_each text_columns (fun col =>
    do sel <- Py.getitem df_clean col ;
    do s <- lift (Pandas.str_strip (Pandas.astype_str sel)) ;
    Py.setitem df_clean col s) ;
  ret df_clean.

Section Program.

(** [list(set(l))]: the order in which a Python set is iterated is not
    specified (for strings it changes from one process to the next), so
    the listing is a parameter.  What is known of it is that it has the
    elements of [l]. *)
Variable list_of_set : list string -> list string.

Definition lists_the_set : Prop :=
  forall l c, In c (list_of_set l) <-> In c l.

Definition handle_missing_values (df : loc) : M loc :=
  do df_clean <- Py.copy df ;
  do cols <- Py.get_columns df_clean ;
  let price_cols := List.filter is_price cols in
  let qty_cols := List.filter is_qty cols in
  exec for_each (price_cols ++ qty_cols) (fun col =>
    do sel <- Py.getitem df_clean col ;
    do s <- lift (Pandas.to_numeric sel) ;
    Py.setitem df_clean col s) ;
  let required_numeric_cols := list_of_set (price_cols ++ qty_cols) in
  match required_numeric_cols with
  | _ :: _ => Py.dropna df_clean required_numeric_cols
  | [] => ret df_clean
  end.

Definition remove_invalid_rows (df : loc) : M loc :=
  do df_clean <- Py.copy df ;
  do cols <- Py.get_columns df_clean ;
  let price_cols := List.filter is_price cols in
  let qty_cols := List.filter is_qty cols in
  do df_clean <- for_rebind price_cols df_clean (fun df_clean col =>
    do sel <- Py.getitem df_clean col ;
    do m <- lift (Pandas.ge0 sel) ;
    Py.getitem_mask df_clean m) ;
  do df_clean <- for_rebind qty_cols df_clean (fun df_clean col =>
    do sel <- Py.getitem df_clean col ;
    do m <- lift (Pandas.ge0 sel) ;
    Py.getitem_mask df_clean m) ;
  ret df_clean.

(** The main block from the loaded frame [df_raw] to the frame that is
    written: stages 2 to 5 in order.  (The directory creation and the
    two prints around them touch no table.) *)
Definition main (df_raw : loc) : M loc :=
  do df_clean <- clean_column_names df_raw ;
  do df_clean <- strip_text_columns df_clean None ;
  do df_clean <- handle_missing_values df_clean ;
  do df_clean <- remove_invalid_rows df_clean ;
  ret df_clean.

End Program.

(** Calling [f] on a table: the store holds the argument only, and the
    result is the object that the returned reference points to. *)
Definition eval (f : loc -> M loc) (df : DataFrame) : result DataFrame :=
  match f 0%nat [df] with
  | (h, Ok l) => match h !! l with
                 | Some v => Ok v
                 | None => Raised BadRef
                 end
  | (_, Raised e) => Raised e
  end.

Definition dedup : list string -> list string := List.nodup string_dec.


(** ** The program on table values

    The same functions with the store taken out: each one maps the
    content of its argument to the content of its result.  [Val.runs_*]
    below prove that the programs above compute them; the properties of
    the stages are then read off these. *)

Definition result_bind {A B : Type} (r : result A) (k : A -> result B) : result B :=
  match r with
  | Ok a => k a
  | Raised e => Raised e
  end.

Module Val.

(** One pass of [df_clean[col] = f(df_clean[col])]. *)
Definition update_col (f : Pandas.selection -> result Series)
    (v : DataFrame) (col : string) : result DataFrame :=
  result_bind (Pandas.getitem v col) (fun sel =>
  result_bind (f sel) (fun s => Ok (Pandas.setitem v col s))).

(** The loop over [cols]: the content of [df_clean] when the loop
    stops, and how it stopped. *)
Fixpoint update_cols (f : Pandas.selection -> result Series)
    (cols : list string) (v : DataFrame) : DataFrame * result unit :=
  match cols with
  | [] => (v, Ok tt)
  | c :: cols' =>
      match update_col f v c with
      | Ok v' => update_cols f cols' v'
      | Raised e => (v, Raised e)
      end
  end.

Definition outcome (st : DataFrame * result unit) : result DataFrame :=
  match snd st with
  | Ok _ => Ok (fst st)
  | Raised e => Raised e
  end.

(** One pass of [df_clean = df_clean[df_clean[col] >= 0]]. *)
Definition filter_col (v : DataFrame) (col : string) : result DataFrame :=
  result_bind (Pandas.getitem v col) (fun sel =>
  result_bind (Pandas.ge0 sel) (fun m => Pandas.getitem_mask v m)).

(** The loop over [cols]: the frames it allocates, in order, and the
    frame [df_clean] is bound to at the end. *)
Fixpoint filter_cols (cols : list string) (v : DataFrame)
    : list DataFrame * result DataFrame :=
  match cols with
  | [] => ([], Ok v)
  | c :: cols' =>
      match filter_col v c with
      | Ok v' => let '(ext, r) := filter_cols cols' v' in (v' :: ext, r)
      | Raised e => ([], Raised e)
      end
  end.

Definition price_cols (df : DataFrame) : list string := List.filter is_price (columns df).
Definition qty_cols (df : DataFrame) : list string := List.filter is_qty (columns df).

Definition clean_column_names (df : DataFrame) : result DataFrame :=
  Pandas.set_columns df
    (map Text.replace_nonword (map Text.lower (map Text.strip (columns df)))).

Definition selected (text_columns : option (list string)) (df : DataFrame) : list string :=
  match text_columns with
  | None => Pandas.select_dtypes_object df
  | Some cols => cols
  end.

Definition strip_text_columns (text_columns : option (list string)) (df : DataFrame)
    : result DataFrame :=
  outcome (update_cols (fun sel => Pandas.str_strip (Pandas.astype_str sel))
             (selected text_columns df) df).

Definition handle_missing_values (list_of_set : list string -> list string)
    (df : DataFrame) : result DataFrame :=
  result_bind
    (outcome (update_cols Pandas.to_numeric (price_cols df ++ qty_cols df) df))
    (fun v =>
       match list_of_set (price_cols df ++ qty_cols df) with
       | [] => Ok v
       | (_ :: _) as required => Pandas.dropna v required
       end).

Definition remove_invalid_rows (df : DataFrame) : result DataFrame :=
  result_bind (snd (filter_cols (price_cols df) df)) (fun v =>
  snd (filter_cols (qty_cols df) v)).

Definition main (list_of_set : list string -> list string) (df : DataFrame)
    : result DataFrame :=
  result_bind (clean_column_names df) (fun df1 =>
  result_bind (strip_text_columns None df1) (fun df2 =>
  result_bind (handle_missing_values list_of_set df2) (fun df3 =>
  remove_invalid_rows df3))).

End Val.

(** [m], started on store [h], extends the store without touching what
    was there, and returns a reference to a new object with content [v]
    (or raises, as [r] says). *)
Definition computes (m : M loc) (h : store) (r : result DataFrame) : Prop :=
  exists ext : store,
    fst (m h) = h ++ ext /\
    match snd (m h), r with
    | Ok l, Ok v => length h <= l /\ (h ++ ext) !! l = Some v
    | Raised e, Raised e' => e = e'
    | _, _ => False
    end.

(** ** Notions used to state what the stages do *)

(** [t] is [s] without the whitespace around it. *)
Definition Trimmed (s t : string) : Prop :=
  exists pre post : string,
    s = (pre ++ t ++ post)%string /\
    Text.all_chars Text.isspace pre = true /\
    Text.all_chars Text.isspace post = true /\
    (forall c, Text.first_char t = Some c -> Text.isspace c = false) /\
    (forall c, Text.last_char t = Some c -> Text.isspace c = false).

Definition nonword (c : ascii) : bool := negb (Text.isword c).

(** [t] is [s] with every maximal run of non-word characters replaced by
    one underscore: a run ends at the end of the text or just before a
    word character. *)
Inductive RunsReplaced : string -> string -> Prop :=
  | RR_end : RunsReplaced "" ""
  | RR_word c s t :
      Text.isword c = true ->
      RunsReplaced s t ->
      RunsReplaced (String c s) (String c t)
  | RR_run c r s t :
      Text.all_chars nonword (String c r) = true ->
      (forall c', Text.first_char s = Some c' -> Text.isword c' = true) ->
      RunsReplaced s t ->
      RunsReplaced (String c r ++ s)%string (String "_" t).

(** The label [r] is the normal form of the label [c]: trimmed,
    lower-cased, runs of non-word characters replaced. *)
Definition Normalized (c r : string) : Prop :=
  exists core : string, Trimmed c core /\ RunsReplaced (Text.lower core) r.

(** The label [c] names exactly one column of [df]. *)
Definition names_one (df : DataFrame) (c : string) : Prop :=
  occurrences c (columns df) = 1%nat.


(** [v >= 0] holds (and is defined). *)
Definition nonneg (v : value) : bool :=
  match Pandas.cell_ge0 v with
  | Ok b => b
  | Raised _ => false
  end.

Definition holds_at (p : value -> bool) (s : Series) (i : nat) : bool :=
  match cells s !! i with
  | Some v => p v
  | None => false
  end.

(** Row [i] satisfies [p] in every price column and every quantity
    column. *)
Definition row_ok (p : value -> bool) (df : DataFrame) (i : nat) : bool :=
  forallb (fun cs => implb (is_matched (fst cs)) (holds_at p (snd cs) i)) (data df).

Definition rows_ok (p : value -> bool) (df : DataFrame) : list bool :=
  map (row_ok p df) (seq 0 (length (index df))).

(** The frame with its price and quantity columns converted to numbers. *)
Definition numeric_column (cs : string * Series) : string * Series :=
  if is_matched (fst cs) then (fst cs, Pandas.series_to_numeric (snd cs)) else cs.

Definition with_numeric_columns (df : DataFrame) : DataFrame :=
  {| index := index df; data := map numeric_column (data df) |}.

(** What [astype(str).str.strip()] makes of a column. *)
Definition trimmed_text (s : Series) : Series :=
  SObject (map (fun v => VStr (Text.strip (py_str v))) (cells s)).

(** The rows of a frame, top to bottom: the row label and the cell of
    each column ([None] where a column is too short, which [wf] rules
    out). *)
Fixpoint rows_of (idx : list Z) (cols : list (list value)) : list (Z * list (option value)) :=
  match idx with
  | [] => []
  | i :: idx' => (i, map (@head value) cols) :: rows_of idx' (map (@tail value) cols)
  end.

Definition rows (df : DataFrame) : list (Z * list (option value)) :=
  rows_of (index df) (map (fun cs => cells (snd cs)) (data df)).

(** Every price or quantity label names one column, and these columns
    hold no text: what [handle_missing_values] hands over. *)
Definition numeric_input (df : DataFrame) : Prop :=
  forall c s, In (c, s) (data df) -> is_matched c = true ->
    names_one df c /\ forallb (fun v => negb (is_text v)) (cells s) = true.

(** The frame [read_csv] builds from a file that has a header row and no
    other row: no row label, one empty object column per header field. *)
Definition header_only (header : list string) : DataFrame :=
  {| index := []; data := map (fun c => (c, SObject [])) header |}.

(** The records [to_csv(path, index=False)] writes: the header, then one
    record per row; a missing value is written as the empty field. *)
Definition csv_field (v : option value) : string :=
  match v with
  | Some v => if isna v then "" else py_str v
  | None => ""
  end.

Definition to_csv (df : DataFrame) : list (list string) :=
  columns df :: map (fun r => map csv_field (snd r)) (rows df).

(** The effect of a stage on the store: what was there is still there,
    unchanged, and a returned reference points to an object that did not
    exist before the call. *)
Definition fresh_result (m : M loc) (h : store) : Prop :=
  exists ext : store,
    fst (m h) = h ++ ext /\
    (forall k v, h !! k = Some v -> fst (m h) !! k = Some v) /\
    (forall l', snd (m h) = Ok l' -> length h <= l' < length (h ++ ext)).

(** [g] applied to the columns whose label is in [cols]. *)
Definition on_labels (g : Series -> Series) (cols : list string)
    (cs : string * Series) : string * Series :=
  if mem (fst cs) cols then (fst cs, g (snd cs)) else cs.

Definition update_frame (g : Series -> Series) (cols : list string) (df : DataFrame)
    : DataFrame :=
  {| index := index df; data := map (on_labels g cols) (data df) |}.

(** Row [i] satisfies [p] in the columns labelled [c]. *)
Definition label_ok (p : value -> bool) (df : DataFrame) (i : nat) (c : string) : bool :=
  forallb (fun s => holds_at p s i) (Pandas.select df c).

(** The mask [df[c] >= 0] when [c] names one column. *)
Definition col_bits (df : DataFrame) (c : string) : list bool :=
  match Pandas.select df c with
  | [s] => map nonneg (cells s)
  | _ => []
  end.

(** [df >= 0] cell by cell: the condition handed to [df.where] when
    every column of [df] carries the one label. *)
Definition nonneg_cells (df : DataFrame) : list (string * list bool) :=
  map (fun cs => (fst cs, map nonneg (cells (snd cs)))) (data df).

(** The frame with NaN in every cell that is not [>= 0], and all its
    rows. *)
Definition masked (df : DataFrame) : DataFrame :=
  Pandas.frame_where (nonneg_cells df) df.

(** Two columns or more, all under the same label. *)
Definition uniform (df : DataFrame) : bool :=
  match columns df with
  | c :: c' :: l => forallb (String.eqb c) (c' :: l)
  | _ => false
  end.

(** No cell of the frame is text. *)
Definition no_text (df : DataFrame) : Prop :=
  Forall (fun cs => Forall (fun v => is_text v = false) (cells (snd cs))) (data df).

(** The frame the pipeline makes of a header-only input: no row, the
    price and quantity columns converted (to an empty int64 column). *)
Definition empty_sanitized (header : list string) : DataFrame :=
  {| index := [];
     data := map (fun c => (c, if is_matched c then SInt64 [] else SObject [])) header |}.

(** ** Tables used in the examples *)

(** The double nearest to [a / b], for integers that are doubles
    themselves: [ratio 5 2] is [2.5], [ratio 999 100] is the double that
    Python writes [9.99]. *)
Definition ratio (a b : Z) : pyfloat := B64.div (B64.of_Z a) (B64.of_Z b).

Definition sales : DataFrame :=
  {| index := [0; 1; 2]%Z;
     data := [("name", SObject [VStr "a"; VStr "b"; VStr "c"]);
              ("price", SObject [VStr "N/A"; VStr "2.5"; VStr "4"]);
              ("qty", SObject [VStr "1"; VStr "2"; VStr ""])] |}.

Definition three_rows : DataFrame :=
  {| index := [0; 1; 2]%Z;
     data := [("price", SInt64 [-5; 10; 10]%Z); ("qty", SInt64 [3; -1; 3]%Z)] |}.

Definition fruit : DataFrame :=
  {| index := [0; 1; 2]%Z;
     data := [("fruit", SObject [VStr " Apple "; VStr "Banana"; VStr " pear"])] |}.

Definition notes : DataFrame :=
  {| index := [0; 1; 2]%Z;
     data := [("note", SObject [VStr " ok "; VFloat NaN; VStr "nan"]);
              ("qty", SInt64 [1; 2; 3]%Z)] |}.

Definition raw_header : list string := ["Product Name"; " Unit-Price "; "QTY!"].

Definition colliding_header : list string := ["Price"; "price"].

(** A price column of floats, with a missing value, the two zeros and
    the two infinities. *)
Definition float_rows : DataFrame :=
  {| index := [0; 1; 2; 3; 4; 5]%Z;
     data := [("price", SFloat64 [ratio (-1) 2; NaN; Zero true; Inf false; ratio 5 2; Inf true]);
              ("note", SObject [VStr "a"; VStr "b"; VStr "c"; VStr "d"; VStr "e"; VStr "f"])] |}.


(** A table in which every column carries the label "price". *)
Definition masked_prices : DataFrame :=
  {| index := [0; 1]%Z;
     data := [("price", SInt64 [1; 3]%Z); ("price", SInt64 [-2; 4]%Z)] |}.


(** A table whose row labels are not in increasing order. *)
Definition shuffled : DataFrame :=
  {| index := [5; 3; 9; 1]%Z;
     data := [("price", SObject [VStr "1"; VStr "-1"; VStr "2"; VStr "x"])] |}.

(** ** Notions used for the pipeline as a whole *)

(** A text cell with no whitespace around it. *)
Definition stripped_text (v : value) : Prop :=
  exists t : string, v = VStr t /\ Text.strip t = t.

(** The normalized name of every text column and of every column that
    is a price or quantity column under its normalized name is the
    normalized name of no other column. *)
Definition no_clash (df : DataFrame) : Prop :=
  forall c s, In (c, s) (data df) ->
    is_object s = true \/ is_matched (clean_name c) = true ->
    occurrences (clean_name c) (map clean_name (columns df)) = 1%nat.

(** A finite float below [2^K] in magnitude: a zero, or a mantissa of
    53 bits at most with an exponent of [K - 53] at most. *)
Definition finite_below (K : Z) (f : pyfloat) : Prop :=
  match f with
  | Zero _ => True
  | Finite _ m e => (Z.pos m < 2 ^ 53 /\ e + 53 <= K)%Z
  | _ => False
  end.

(** Every integer of the list fits int64, as the integers of an int64
    column do. *)
Definition all_int64 (l : list Z) : Prop :=
  Forall (fun z => Numeral.in_int64 z = true) l.




(** ** More tables for the examples *)

Definition raw_sales : DataFrame :=
  {| index := [0; 1; 2; 3]%Z;
     data := [("Product Name", SObject [VStr " Widget "; VStr "Gadget"; VStr "Gizmo "; VStr "Thing"]);
              (" Unit-Price ", SObject [VStr "9.99"; VStr "free"; VStr "-5"; VStr "3"]);
              ("QTY!", SInt64 [1; 2; 3; 4]%Z)] |}.



(** Integer columns that reach the ends of the int64 range. *)
Definition wide_rows : DataFrame :=
  {| index := [0; 1; 2]%Z;
     data := [("price", SInt64 [-5; 9223372036854775807; 10]%Z);
              ("qty", SInt64 [3; -9223372036854775808; 0]%Z)] |}.

(** ** Proof steps *)

(** A fact about one character, checked on the 256 of them. *)
Ltac by_cases c := destruct c as [[] [] [] [] [] [] [] []]; vm_compute; congruence.

(** ** Running the definitions *)

Example strip_ex : Text.strip " Unit-Price " = "Unit-Price".
Proof. reflexivity. Qed.

Example replace_ex : Text.replace_nonword (Text.lower (Text.strip "  A b--c! ")) = "a_b_c_".
Proof. reflexivity. Qed.

Example str_to_num_ex :
  map Numeral.str_to_num ["12"; " -3.50 "; "1e3"; "N/A"; ""; "-inf"; "4."; "."; "1e"; "+7";
                          "1e400"; "-1e-400"; "-0"]
  = [Numeral.NInt 12 (B64.of_Z 12); Numeral.NFloat (ratio (-7) 2);
     Numeral.NFloat (B64.of_Z 1000); Numeral.NFloat NaN; Numeral.NFloat NaN;
     Numeral.NFloat (Inf true); Numeral.NFloat (B64.of_Z 4); Numeral.NFloat NaN;
     Numeral.NFloat NaN; Numeral.NInt 7 (B64.of_Z 7);
     Numeral.NFloat NaN; Numeral.NFloat (Zero true); Numeral.NInt 0 (Zero true)].
Proof. vm_compute. reflexivity. Qed.

(** The reader keeps seventeen digits and rounds at every step: it is
    not always the double nearest to the numeral. *)
Example precise_xstrtod_ex :
  map (fun s => py_str (VFloat (Numeral.to_float (Numeral.str_to_num s))))
    ["0.1"; "9.99"; "0.30000000000000004"; "9007199254740993"; "1.7976931348623157e308";
     "1.8e308"; "5e-324"; "1e22"; "1e23"]
  = ["0.1"; "9.99"; "0.3"; "9007199254740992.0"; "1.7976931348623157e+308";
     "nan"; "5e-324"; "1e+22"; "1e+23"].
Proof. vm_compute. reflexivity. Qed.

Example py_str_ex :
  map py_str [VStr " a "; VInt (-42); VFloat NaN; VFloat (ratio (-7) 2);
              VFloat (B64.of_Z (10 ^ 16)); VFloat (ratio 15 1000000); VFloat (B64.of_Z 120);
              VBool true; VFloat (Zero true); VFloat (ratio 1 3);
              VFloat (B64.add (ratio 1 10) (ratio 2 10)); VFloat (Inf true)]
  = [" a "; "-42"; "nan"; "-3.5"; "1e+16"; "1.5e-05"; "120.0"; "True"; "-0.0";
     "0.3333333333333333"; "0.30000000000000004"; "-inf"].
Proof. vm_compute. reflexivity. Qed.

(** The dtype [to_numeric] gives an object column. *)
Example series_to_numeric_ex :
  map Pandas.series_to_numeric
    [SObject [VStr "3"; VStr "-4"]; SObject [VStr "3"; VStr "2.5"];
     SObject [VStr "1"; VStr "18446744073709551615"];
     SObject [VStr "-1"; VStr "18446744073709551615"];
     SObject [VStr "100000000000000000000"; VStr "x"];
     SObject [VInt 1; VFloat (B64.of_Z 2)]; SObject [VBool true; VBool false]; SObject []]
  = [SInt64 [3; -4]%Z; SFloat64 [B64.of_Z 3; ratio 5 2];
     SUInt64 [1; 18446744073709551615]%Z;
     SFloat64 [B64.of_Z (-1); B64.of_Z (2 ^ 64)];
     SFloat64 [B64.of_Z (10 ^ 20); NaN];
     SInt64 [1; 2]%Z; SBool [true; false]; SInt64 []].
Proof. vm_compute. reflexivity. Qed.

Example clean_column_names_ex :
  eval clean_column_names
    {| index := [0; 1]%Z;
       data := [("Product Name", SObject [VStr "a"; VStr "b"]);
                (" Unit-Price ", SInt64 [1; 2]%Z); ("QTY!", SInt64 [3; 4]%Z)] |}
  = Ok {| index := [0; 1]%Z;
          data := [("product_name", SObject [VStr "a"; VStr "b"]);
                   ("unit_price", SInt64 [1; 2]%Z); ("qty_", SInt64 [3; 4]%Z)] |}.
Proof. reflexivity. Qed.

Example strip_text_columns_ex :
  eval (fun df => strip_text_columns df None)
    {| index := [0; 1; 2]%Z;
       data := [("name", SObject [VStr " Apple "; VStr "Banana"; VFloat NaN]);
                ("qty", SInt64 [1; 2; 3]%Z)] |}
  = Ok {| index := [0; 1; 2]%Z;
          data := [("name", SObject [VStr "Apple"; VStr "Banana"; VStr "nan"]);
                   ("qty", SInt64 [1; 2; 3]%Z)] |}.
Proof. reflexivity. Qed.

Example handle_missing_values_ex :
  eval (handle_missing_values dedup)
    {| index := [0; 1; 2]%Z;
       data := [("name", SObject [VStr "a"; VStr "b"; VStr "c"]);
                ("price", SObject [VStr "N/A"; VStr "2.5"; VStr "4"]);
                ("qty", SObject [VStr "1"; VStr "2"; VStr ""])] |}
  = Ok {| index := [1]%Z;
          data := [("name", SObject [VStr "b"]);
                   ("price", SFloat64 [ratio 5 2]);
                   ("qty", SFloat64 [B64.of_Z 2])] |}.
Proof. vm_compute. reflexivity. Qed.

Example remove_invalid_rows_ex :
  eval remove_invalid_rows
    {| index := [0; 1; 2]%Z;
       data := [("price", SInt64 [-5; 10; 10]%Z); ("qty", SInt64 [3; -1; 3]%Z)] |}
  = Ok {| index := [2]%Z;
          data := [("price", SInt64 [10]%Z); ("qty", SInt64 [3]%Z)] |}.
Proof. reflexivity. Qed.

(** With a repeated price label the comparison is a boolean frame:
    [df.where] masks cells when all columns carry the label, and raises
    when another column stands beside them. *)
Example masked_cells_ex :
  eval remove_invalid_rows masked_prices
  = Ok {| index := [0; 1]%Z;
          data := [("price", SInt64 [1; 3]%Z);
                   ("price", SFloat64 [NaN; B64.of_Z 4])] |}
  /\ eval remove_invalid_rows
       {| index := [0]%Z;
          data := [("name", SObject [VStr "a"]);
                   ("price", SInt64 [1]%Z); ("price", SInt64 [-2]%Z)] |}
     = Raised ValueError.
Proof. split; vm_compute; reflexivity. Qed.

Example repeated_label_ex :
  eval (handle_missing_values dedup)
    {| index := [0]%Z; data := [("price", SInt64 [1]%Z); ("price", SInt64 [2]%Z)] |}
  = Raised TypeError.
Proof. reflexivity. Qed.

(** An assignment through a reference changes the object it points to:
    without the copy, a stage would change its argument. *)
Example setitem_in_place :
  fst (Py.setitem 0%nat "qty" (SInt64 [7]%Z) [three_rows])
  = [{| index := [0; 1; 2]%Z;
        data := [("price", SInt64 [-5; 10; 10]%Z); ("qty", SInt64 [7]%Z)] |}]
  /\ ~ fresh_result (exec Py.setitem 0%nat "qty" (SInt64 [7]%Z) ; ret 0%nat) [three_rows].
Proof.
  split; [reflexivity|]. intros (ext & _ & Hkeep & _).
  specialize (Hkeep 0%nat three_rows eq_refl). discriminate Hkeep.
Qed.

(** ** The programs compute the functions on values *)

Section StoreSteps.

Lemma bind_ok {A B : Type} (m : M A) (k : A -> M B) h h' a :
  m h = (h', Ok a) -> bind m k h = k a h'.
Proof. intros E. unfold bind. now rewrite E. Qed.

Lemma bind_raised {A B : Type} (m : M A) (k : A -> M B) h h' e :
  m h = (h', Raised e) -> bind m k h = (h', Raised e).
Proof. intros E. unfold bind. now rewrite E. Qed.

Lemma deref_top h v : deref (length h) (h ++ [v]) = (h ++ [v], Ok v).
Proof. unfold deref. now rewrite list_lookup_middle. Qed.

Lemma assign_top h v v' : assign (length h) v' (h ++ [v]) = (h ++ [v'], Ok tt).
Proof.
  unfold assign. f_equal.
  rewrite <- (Nat.add_0_r (length h)). now rewrite insert_app_r.
Qed.

Lemma copy_run h l df : h !! l = Some df -> Py.copy l h = (h ++ [df], Ok (length h)).
Proof. intros E. unfold Py.copy, bind, deref. now rewrite E. Qed.

Lemma copy_bad h l : h !! l = None -> Py.copy l h = (h, Raised BadRef).
Proof. intros E. unfold Py.copy, bind, deref. now rewrite E. Qed.

Lemma get_columns_top h v :
  Py.get_columns (length h) (h ++ [v]) = (h ++ [v], Ok (columns v)).
Proof. unfold Py.get_columns. now rewrite (bind_ok _ _ _ _ _ (deref_top h v)). Qed.

Lemma select_dtypes_object_top h v :
  Py.select_dtypes_object (length h) (h ++ [v])
  = (h ++ [v], Ok (Pandas.select_dtypes_object v)).
Proof. unfold Py.select_dtypes_object. now rewrite (bind_ok _ _ _ _ _ (deref_top h v)). Qed.

Lemma set_columns_top h v labels :
  Py.set_columns (length h) labels (h ++ [v])
  = match Pandas.set_columns v labels with
    | Ok v' => (h ++ [v'], Ok tt)
    | Raised e => (h ++ [v], Raised e)
    end.
Proof.
  unfold Py.set_columns. rewrite (bind_ok _ _ _ _ _ (deref_top h v)).
  unfold bind, lift. destruct (Pandas.set_columns v labels); [apply assign_top | reflexivity].
Qed.

Lemma getitem_top h v col :
  Py.getitem (length h) col (h ++ [v]) = (h ++ [v], Pandas.getitem v col).
Proof. unfold Py.getitem. now rewrite (bind_ok _ _ _ _ _ (deref_top h v)). Qed.

Lemma setitem_top h v col s :
  Py.setitem (length h) col s (h ++ [v]) = (h ++ [Pandas.setitem v col s], Ok tt).
Proof.
  unfold Py.setitem. rewrite (bind_ok _ _ _ _ _ (deref_top h v)). apply assign_top.
Qed.

Lemma dropna_top h v subset :
  Py.dropna (length h) subset (h ++ [v])
  = match Pandas.dropna v subset with
    | Ok v' => ((h ++ [v]) ++ [v'], Ok (length (h ++ [v])))
    | Raised e => (h ++ [v], Raised e)
    end.
Proof.
  unfold Py.dropna. rewrite (bind_ok _ _ _ _ _ (deref_top h v)).
  unfold bind, lift, alloc. now destruct (Pandas.dropna v subset).
Qed.

Lemma getitem_mask_top h v m :
  Py.getitem_mask (length h) m (h ++ [v])
  = match Pandas.getitem_mask v m with
    | Ok v' => ((h ++ [v]) ++ [v'], Ok (length (h ++ [v])))
    | Raised e => (h ++ [v], Raised e)
    end.
Proof.
  unfold Py.getitem_mask. rewrite (bind_ok _ _ _ _ _ (deref_top h v)).
  unfold bind, lift, alloc. now destruct (Pandas.getitem_mask v m).
Qed.

(** The in-place loop of [strip_text_columns] and
    [handle_missing_values]. *)
Lemma for_each_update f cols : forall h v,
  for_each cols (fun col =>
    do sel <- Py.getitem (length h) col;
    do s <- lift (f sel);
    Py.setitem (length h) col s) (h ++ [v])
  = (h ++ [fst (Val.update_cols f cols v)], snd (Val.update_cols f cols v)).
Proof.
  induction cols as [|c cols IH]; intros h v; [reflexivity|].
  cbn [for_each Val.update_cols]. unfold Val.update_col, result_bind.
  unfold bind at 1. unfold bind at 1. rewrite getitem_top.
  destruct (Pandas.getitem v c) as [sel|e]; [|reflexivity].
  unfold bind at 1. unfold lift at 1.
  destruct (f sel) as [s|e]; [|reflexivity].
  rewrite setitem_top. apply IH.
Qed.

(** The rebinding loop of [remove_invalid_rows]. *)
Lemma for_rebind_filter cols : forall h v,
  for_rebind cols (length h) (fun df_clean col =>
    do sel <- Py.getitem df_clean col;
    do m <- lift (Pandas.ge0 sel);
    Py.getitem_mask df_clean m) (h ++ [v])
  = ((h ++ [v]) ++ fst (Val.filter_cols cols v),
     match snd (Val.filter_cols cols v) with
     | Ok _ => Ok (length h + length (fst (Val.filter_cols cols v)))%nat
     | Raised e => Raised e
     end).
Proof.
  induction cols as [|c cols IH]; intros h v.
  - cbn. now rewrite app_nil_r, Nat.add_0_r.
  - cbn [for_rebind Val.filter_cols]. unfold Val.filter_col, result_bind.
    unfold bind at 1. unfold bind at 1. rewrite getitem_top.
    destruct (Pandas.getitem v c) as [sel|e]; [|cbn; now rewrite app_nil_r].
    unfold bind at 1. unfold lift at 1.
    destruct (Pandas.ge0 sel) as [m|e]; [|cbn; now rewrite app_nil_r].
    rewrite getitem_mask_top.
    destruct (Pandas.getitem_mask v m) as [v'|e]; [|cbn; now rewrite app_nil_r].
    rewrite IH. destruct (Val.filter_cols cols v') as [ext r]. cbn [fst snd].
    rewrite <- app_assoc. cbn [app]. f_equal.
    destruct r; [|reflexivity]. f_equal. rewrite length_app. cbn. lia.
Qed.

Lemma filter_cols_last cols : forall v v',
  snd (Val.filter_cols cols v) = Ok v' ->
  last (v :: fst (Val.filter_cols cols v)) = Some v'.
Proof.
  induction cols as [|c cols IH]; intros v v'; cbn [Val.filter_cols].
  - cbn. congruence.
  - destruct (Val.filter_col v c) as [v1|e]; [|discriminate].
    specialize (IH v1 v').
    destruct (Val.filter_cols cols v1) as [ext r]. cbn [fst snd] in *.
    intros E. rewrite last_cons. now rewrite (IH E).
Qed.

End StoreSteps.

Section Runs.

Variable list_of_set : list string -> list string.

Lemma clean_column_names_run h l df :
  h !! l = Some df ->
  clean_column_names l h
  = match Val.clean_column_names df with
    | Ok v' => (h ++ [v'], Ok (length h))
    | Raised e => (h ++ [df], Raised e)
    end.
Proof.
  intros Hl. unfold clean_column_names, Val.clean_column_names.
  rewrite (bind_ok _ _ _ _ _ (copy_run h l df Hl)).
  rewrite (bind_ok _ _ _ _ _ (get_columns_top h df)).
  unfold bind at 1. rewrite set_columns_top.
  now destruct (Pandas.set_columns df _).
Qed.

Lemma strip_text_columns_run h l df text_columns :
  h !! l = Some df ->
  strip_text_columns l text_columns h
  = let st := Val.update_cols (fun sel => Pandas.str_strip (Pandas.astype_str sel))
                (Val.selected text_columns df) df in
    (h ++ [fst st], match snd st with Ok _ => Ok (length h) | Raised e => Raised e end).
Proof.
  intros Hl. unfold strip_text_columns.
  rewrite (bind_ok _ _ _ _ _ (copy_run h l df Hl)).
  assert (Hsel : (match text_columns with
                  | None => Py.select_dtypes_object (length h)
                  | Some cols => ret cols
                  end) (h ++ [df]) = (h ++ [df], Ok (Val.selected text_columns df))).
  { destruct text_columns; [reflexivity | apply select_dtypes_object_top]. }
  rewrite (bind_ok _ _ _ _ _ Hsel).
  unfold bind at 1. rewrite for_each_update. cbn zeta.
  now destruct (Val.update_cols _ _ df) as [v [[]|e]].
Qed.

Lemma handle_missing_values_run h l df :
  h !! l = Some df ->
  handle_missing_values list_of_set l h
  = let st := Val.update_cols Pandas.to_numeric (Val.price_cols df ++ Val.qty_cols df) df in
    match snd st with
    | Raised e => (h ++ [fst st], Raised e)
    | Ok _ =>
        match list_of_set (Val.price_cols df ++ Val.qty_cols df) with
        | [] => (h ++ [fst st], Ok (length h))
        | (_ :: _) as required =>
            match Pandas.dropna (fst st) required with
            | Ok v' => (h ++ [fst st; v'], Ok (S (length h)))
            | Raised e => (h ++ [fst st], Raised e)
            end
        end
    end.
Proof.
  intros Hl. unfold handle_missing_values.
  rewrite (bind_ok _ _ _ _ _ (copy_run h l df Hl)).
  rewrite (bind_ok _ _ _ _ _ (get_columns_top h df)).
  unfold bind at 1. rewrite for_each_update.
  fold (Val.price_cols df) (Val.qty_cols df). cbn zeta.
  destruct (Val.update_cols _ _ df) as [v [[]|e]]; cbn [fst snd]; [|reflexivity].
  destruct (list_of_set _) as [|c req]; [reflexivity|].
  rewrite dropna_top. destruct (Pandas.dropna v (c :: req)); [|reflexivity].
  rewrite <- app_assoc, length_app. cbn. do 2 f_equal. lia.
Qed.

Lemma remove_invalid_rows_run h l df :
  h !! l = Some df ->
  remove_invalid_rows l h
  = let p := Val.filter_cols (Val.price_cols df) df in
    match snd p with
    | Raised e => (h ++ df :: fst p, Raised e)
    | Ok v1 =>
        let q := Val.filter_cols (Val.qty_cols df) v1 in
        (h ++ df :: fst p ++ fst q,
         match snd q with
         | Ok _ => Ok (length h + length (fst p) + length (fst q))%nat
         | Raised e => Raised e
         end)
    end.
Proof.
  intros Hl. unfold remove_invalid_rows.
  rewrite (bind_ok _ _ _ _ _ (copy_run h l df Hl)).
  rewrite (bind_ok _ _ _ _ _ (get_columns_top h df)).
  fold (Val.price_cols df) (Val.qty_cols df).
  unfold bind at 1. rewrite for_rebind_filter. cbn zeta.
  pose proof (filter_cols_last (Val.price_cols df) df) as Hlast1.
  destruct (Val.filter_cols (Val.price_cols df) df) as [ext1 [v1|e]];
    cbn [fst snd] in *.
  2:{ now rewrite <- app_assoc. }
  specialize (Hlast1 v1 eq_refl).
  assert (Hsplit : exists pre, (h ++ [df]) ++ ext1 = pre ++ [v1]
                               /\ length pre = (length h + length ext1)%nat).
  { destruct (last_Some (df :: ext1) v1) as [[pre Hpre] _].
    { exact Hlast1. }
    exists (h ++ pre). split.
    - rewrite <- !app_assoc. cbn [app]. now rewrite Hpre.
    - apply (f_equal length) in Hpre. rewrite length_app in *. cbn in Hpre. cbn. lia. }
  destruct Hsplit as (pre & Epre & Lpre).
  rewrite Epre, <- Lpre. unfold bind at 1. rewrite for_rebind_filter.
  rewrite <- Epre. destruct (Val.filter_cols (Val.qty_cols df) v1) as [ext2 r].
  cbn [fst snd]. destruct r; unfold ret; now rewrite <- !app_assoc.
Qed.

(** Where the result of [remove_invalid_rows] is in the store. *)
Lemma filter_cols_lookup cols (pre : store) v v' :
  snd (Val.filter_cols cols v) = Ok v' ->
  (pre ++ v :: fst (Val.filter_cols cols v))
    !! (length pre + length (fst (Val.filter_cols cols v)))%nat = Some v'.
Proof.
  intros E. apply filter_cols_last in E. rewrite last_lookup in E.
  rewrite lookup_app_r by lia.
  replace (length pre + length (Val.filter_cols cols v).1 - length pre)%nat
    with (length (Val.filter_cols cols v).1) by lia.
  cbn [length Nat.pred] in E. exact E.
Qed.

Lemma runs_clean_column_names h l df :
  h !! l = Some df -> computes (clean_column_names l) h (Val.clean_column_names df).
Proof.
  intros Hl. unfold computes. rewrite (clean_column_names_run h l df Hl).
  destruct (Val.clean_column_names df) as [v'|e].
  - exists [v']. cbn [fst snd]. split; [reflexivity|].
    split; [lia | now apply list_lookup_middle].
  - now exists [df].
Qed.

Lemma runs_strip_text_columns h l df text_columns :
  h !! l = Some df ->
  computes (strip_text_columns l text_columns) h (Val.strip_text_columns text_columns df).
Proof.
  intros Hl. unfold computes. rewrite (strip_text_columns_run h l df _ Hl).
  unfold Val.strip_text_columns, Val.outcome. cbn zeta.
  destruct (Val.update_cols _ _ df) as [v [[]|e]]; cbn [fst snd].
  - exists [v]. split; [reflexivity|]. split; [lia | now apply list_lookup_middle].
  - now exists [v].
Qed.

Lemma runs_handle_missing_values h l df :
  h !! l = Some df ->
  computes (handle_missing_values list_of_set l) h
           (Val.handle_missing_values list_of_set df).
Proof.
  intros Hl. unfold computes. rewrite (handle_missing_values_run h l df Hl).
  unfold Val.handle_missing_values, Val.outcome. cbn zeta.
  destruct (Val.update_cols _ _ df) as [v [[]|e]]; cbn [fst snd result_bind].
  - destruct (list_of_set _) as [|c req].
    + exists [v]. split; [reflexivity|]. split; [lia | now apply list_lookup_middle].
    + destruct (Pandas.dropna v (c :: req)) as [v'|e].
      * exists [v; v']. cbn [fst snd]. split; [reflexivity|]. split; [lia|].
        replace (h ++ [v; v']) with ((h ++ [v]) ++ [v']) by now rewrite <- app_assoc.
        apply list_lookup_middle. rewrite length_app. cbn. lia.
      * now exists [v].
  - now exists [v].
Qed.

Lemma runs_remove_invalid_rows h l df :
  h !! l = Some df ->
  computes (remove_invalid_rows l) h (Val.remove_invalid_rows df).
Proof.
  intros Hl. unfold computes. rewrite (remove_invalid_rows_run h l df Hl).
  unfold Val.remove_invalid_rows. cbn zeta.
  pose proof (filter_cols_last (Val.price_cols df) df) as Hlast1.
  destruct (Val.filter_cols (Val.price_cols df) df) as [ext1 [v1|e]];
    cbn [fst snd result_bind] in *.
  2:{ now exists (df :: ext1). }
  specialize (Hlast1 v1 eq_refl).
  destruct (last_Some (df :: ext1) v1) as [[pre Hpre] _]; [exact Hlast1|].
  pose proof (filter_cols_lookup (Val.qty_cols df) (h ++ pre) v1) as Hlk.
  destruct (Val.filter_cols (Val.qty_cols df) v1) as [ext2 [v2|e]];
    cbn [fst snd] in *.
  2:{ now exists (df :: ext1 ++ ext2). }
  exists (df :: ext1 ++ ext2). split; [reflexivity|]. split; [lia|].
  replace (h ++ df :: ext1 ++ ext2) with ((h ++ pre) ++ v1 :: ext2).
  2:{ rewrite <- app_assoc. f_equal. change (df :: ext1 ++ ext2) with ((df :: ext1) ++ ext2).
      rewrite Hpre. now rewrite <- app_assoc. }
  replace (length h + length ext1)%nat with (length (h ++ pre)).
  2:{ apply (f_equal length) in Hpre. rewrite length_app in *. cbn in Hpre. lia. }
  now apply Hlk.
Qed.

(** [eval] is the function on values. *)
Lemma eval_computes f df r : computes (f 0%nat) [df] r -> eval f df = r.
Proof.
  unfold computes, eval. intros (ext & E1 & E2).
  destruct (f 0%nat [df]) as [h' [l|e]]; cbn [fst snd] in *; subst h'.
  - destruct r as [v|e]; [|tauto]. destruct E2 as [_ E2]. now rewrite E2.
  - destruct r as [v|e']; [tauto|]. now subst.
Qed.

Lemma eval_clean_column_names df :
  eval clean_column_names df = Val.clean_column_names df.
Proof. apply eval_computes. now apply runs_clean_column_names. Qed.

Lemma eval_strip_text_columns text_columns df :
  eval (fun l => strip_text_columns l text_columns) df
  = Val.strip_text_columns text_columns df.
Proof. apply eval_computes. now apply runs_strip_text_columns. Qed.

Lemma eval_handle_missing_values df :
  eval (handle_missing_values list_of_set) df = Val.handle_missing_values list_of_set df.
Proof. apply eval_computes. now apply runs_handle_missing_values. Qed.

Lemma eval_remove_invalid_rows df :
  eval remove_invalid_rows df = Val.remove_invalid_rows df.
Proof. apply eval_computes. now apply runs_remove_invalid_rows. Qed.

End Runs.

(** ** Text *)

Section TextFacts.
Import Text.

Lemma isword_not_space c : isword c = true -> isspace c = false.
Proof. by_cases c. Qed.

Lemma lower_char_idem c : lower_char (lower_char c) = lower_char c.
Proof. by_cases c. Qed.

Lemma all_chars_app p s t :
  all_chars p (s ++ t)%string = all_chars p s && all_chars p t.
Proof. induction s as [|c s IH]; cbn; [reflexivity|]. now rewrite IH, andb_assoc. Qed.

(** *** [strip] *)

Lemma lstrip_split s :
  exists pre, s = (pre ++ lstrip s)%string /\ all_chars isspace pre = true.
Proof.
  induction s as [|c s (pre & E & Hpre)]; [now exists ""|].
  cbn. destruct (isspace c) eqn:Hc.
  - exists (String c pre). cbn. rewrite Hc, Hpre. split; [now f_equal|reflexivity].
  - now exists "".
Qed.

Lemma lstrip_first s c : first_char (lstrip s) = Some c -> isspace c = false.
Proof.
  induction s as [|c' s IH]; cbn; [discriminate|].
  destruct (isspace c') eqn:Hc; [exact IH|]. cbn. congruence.
Qed.

Lemma rstrip_split s :
  exists post, s = (rstrip s ++ post)%string /\ all_chars isspace post = true.
Proof.
  induction s as [|c s (post & E & Hpost)]; [now exists ""|].
  cbn. destruct (isspace c) eqn:Hc; cbn.
  - destruct (rstrip s) eqn:Hr; cbn.
    + exists (String c post). cbn in E. subst s. cbn. now rewrite Hc, Hpost.
    + exists post. split; [|exact Hpost]. cbn in E. now rewrite E at 1.
  - exists post. split; [|exact Hpost]. now rewrite E at 1.
Qed.

Lemma rstrip_last s c : last_char (rstrip s) = Some c -> isspace c = false.
Proof.
  induction s as [|c' s IH]; cbn; [discriminate|].
  destruct (isspace c') eqn:Hc; cbn.
  - destruct (rstrip s) eqn:Hr; cbn; [discriminate|]. exact IH.
  - destruct (rstrip s) eqn:Hr; cbn; [congruence|]. exact IH.
Qed.

Lemma rstrip_first s c :
  first_char (rstrip s) = Some c -> first_char s = Some c.
Proof.
  destruct s as [|c' s]; cbn; [discriminate|].
  destruct (isspace c' && is_empty (rstrip s)); cbn; [discriminate|trivial].
Qed.

Lemma strip_trimmed s : Trimmed s (strip s).
Proof.
  unfold Trimmed, strip.
  destruct (lstrip_split s) as (pre & E1 & Hpre).
  destruct (rstrip_split (lstrip s)) as (post & E2 & Hpost).
  exists pre, post. repeat split; trivial.
  - rewrite <- E2. exact E1.
  - intros c Hc. apply rstrip_first in Hc. now apply lstrip_first in Hc.
  - apply rstrip_last.
Qed.

Lemma lstrip_idem s : lstrip (lstrip s) = lstrip s.
Proof.
  induction s as [|c s IH]; cbn; [reflexivity|].
  destruct (isspace c) eqn:Hc; [exact IH|]. cbn. now rewrite Hc.
Qed.

Lemma rstrip_idem s : rstrip (rstrip s) = rstrip s.
Proof.
  induction s as [|c s IH]; cbn; [reflexivity|].
  destruct (isspace c && is_empty (rstrip s)) eqn:Hc; [reflexivity|].
  cbn. now rewrite IH, Hc.
Qed.

Lemma lstrip_rstrip s : lstrip (rstrip s) = rstrip (lstrip s).
Proof.
  induction s as [|c s IH]; cbn; [reflexivity|].
  destruct (isspace c) eqn:Hc; cbn.
  - destruct (rstrip s) eqn:Hr; cbn.
    + rewrite <- IH. reflexivity.
    + rewrite Hc. rewrite <- IH. reflexivity.
  - now rewrite Hc.
Qed.

Lemma strip_idem s : strip (strip s) = strip s.
Proof.
  unfold strip. rewrite lstrip_rstrip, lstrip_idem. apply rstrip_idem.
Qed.

Lemma strip_words s : all_chars isword s = true -> strip s = s.
Proof.
  unfold strip. intros H.
  assert (Hl : lstrip s = s).
  { destruct s as [|c s]; [reflexivity|]. cbn in *.
    apply andb_true_iff in H as [Hc _]. now rewrite (isword_not_space c Hc). }
  rewrite Hl. induction s as [|c s IH]; [reflexivity|].
  cbn in *. apply andb_true_iff in H as [Hc Hs].
  rewrite (isword_not_space c Hc). cbn. f_equal. apply IH; [exact Hs|].
  destruct s as [|c' s]; [reflexivity|]. cbn in *.
  apply andb_true_iff in Hs as [Hc' _]. now rewrite (isword_not_space c' Hc').
Qed.

(** *** [replace_nonword] *)

Lemma run_split s : s = (run_of s ++ skip_run s)%string.
Proof.
  induction s as [|c s IH]; cbn; [reflexivity|].
  destruct (isword c); cbn; [reflexivity|]. now rewrite <- IH.
Qed.

Lemma run_of_nonword s : all_chars nonword (run_of s) = true.
Proof.
  induction s as [|c s IH]; cbn; [reflexivity|].
  destruct (isword c) eqn:Hc; cbn; [reflexivity|]. unfold nonword at 1. now rewrite Hc.
Qed.

Lemma skip_run_first s c : first_char (skip_run s) = Some c -> isword c = true.
Proof.
  induction s as [|c' s IH]; cbn; [discriminate|].
  destruct (isword c') eqn:Hc; [cbn; congruence | exact IH].
Qed.

Lemma skip_run_length s : String.length (skip_run s) <= String.length s.
Proof.
  induction s as [|c s IH]; cbn; [lia|]. destruct (isword c); cbn; lia.
Qed.

Lemma sub_nonword_in_run s : sub_nonword true s = sub_nonword false (skip_run s).
Proof.
  induction s as [|c s IH]; cbn; [reflexivity|].
  destruct (isword c) eqn:Hc; [cbn; now rewrite Hc | exact IH].
Qed.

Lemma replace_runs s : RunsReplaced s (replace_nonword s).
Proof.
  unfold replace_nonword.
  remember (String.length s) as n eqn:Hn.
  assert (Hle : String.length s <= n) by lia. clear Hn.
  revert s Hle. induction n as [|n IH]; intros s Hle.
  - destruct s; [constructor | cbn in Hle; lia].
  - destruct s as [|c s]; [constructor|]. cbn in Hle. cbn [sub_nonword].
    destruct (isword c) eqn:Hc.
    + constructor; [exact Hc|]. apply IH. lia.
    + rewrite sub_nonword_in_run.
      rewrite (run_split s) at 1.
      change (String c (run_of s ++ skip_run s)%string) with (String c (run_of s) ++ skip_run s)%string.
      constructor.
      * cbn. unfold nonword at 1. rewrite Hc. apply run_of_nonword.
      * apply skip_run_first.
      * apply IH. pose proof (skip_run_length s). lia.
Qed.

Lemma sub_nonword_run r s :
  all_chars nonword r = true ->
  (forall c', first_char s = Some c' -> isword c' = true) ->
  sub_nonword true (r ++ s)%string = sub_nonword false s.
Proof.
  intros Hr Hs. induction r as [|c r IH]; cbn in *.
  - destruct s as [|c' s]; [reflexivity|]. cbn. now rewrite (Hs c' eq_refl).
  - apply andb_true_iff in Hr as [Hc Hr]. unfold nonword in Hc.
    apply negb_true_iff in Hc. rewrite Hc. now apply IH.
Qed.

(** The relation determines the result: it is the function. *)
Lemma runs_replaced_unique s t : RunsReplaced s t -> t = replace_nonword s.
Proof.
  unfold replace_nonword. induction 1 as [|c s t Hc _ IH|c r s t Hr Hs _ IH].
  - reflexivity.
  - cbn. rewrite Hc. now f_equal.
  - cbn in Hr. apply andb_true_iff in Hr as [Hc Hr].
    unfold nonword in Hc. apply negb_true_iff in Hc.
    cbn. rewrite Hc. f_equal. rewrite sub_nonword_run by assumption. exact IH.
Qed.

Lemma sub_nonword_words b s : all_chars isword (sub_nonword b s) = true.
Proof.
  revert b. induction s as [|c s IH]; intros b; cbn; [reflexivity|].
  destruct (isword c) eqn:Hc; cbn; [now rewrite Hc, IH|].
  destruct b; [apply IH|]. cbn. apply IH.
Qed.

Lemma sub_nonword_id s : all_chars isword s = true -> sub_nonword false s = s.
Proof.
  induction s as [|c s IH]; cbn; [reflexivity|].
  intros H. apply andb_true_iff in H as [Hc Hs]. rewrite Hc. now rewrite IH.
Qed.

Lemma lower_sub_nonword b s :
  lower (sub_nonword b (lower s)) = sub_nonword b (lower s).
Proof.
  revert b. induction s as [|c s IH]; intros b; cbn; [reflexivity|].
  destruct (isword (lower_char c)); cbn.
  - now rewrite lower_char_idem, IH.
  - destruct b; [apply IH|]. cbn. now rewrite IH.
Qed.

Lemma clean_name_idem c : clean_name (clean_name c) = clean_name c.
Proof.
  unfold clean_name, replace_nonword.
  rewrite (strip_words (sub_nonword false _)) by apply sub_nonword_words.
  rewrite lower_sub_nonword.
  apply sub_nonword_id, sub_nonword_words.
Qed.

Lemma clean_name_normalized c : Normalized c (clean_name c).
Proof.
  exists (strip c). split; [apply strip_trimmed | apply replace_runs].
Qed.

End TextFacts.

(** ** Row selection *)

Section Rows.
Import Pandas.
Context {A : Type}.
Implicit Types (m p : list bool) (l : list A).

Lemma take_rows_nil m : take_rows m (@nil A) = [].
Proof. now destruct m as [|[] m]. Qed.

Lemma take_rows_all n l : length l <= n -> take_rows (repeat true n) l = l.
Proof.
  revert l. induction n as [|n IH]; intros [|x l] Hl; cbn in *; try reflexivity; try lia.
  f_equal. apply IH. lia.
Qed.

Lemma take_rows_twice m p l :
  take_rows (take_rows m p) (take_rows m l) = take_rows (and_mask m p) l.
Proof.
  revert p l. induction m as [|b m IH]; intros p l; [reflexivity|].
  destruct p as [|c p].
  - cbn. now destruct b.
  - destruct l as [|x l].
    + cbn. rewrite !take_rows_nil. now destruct b, c.
    + destruct b, c; cbn; rewrite ?IH; reflexivity.
Qed.

Lemma take_rows_sublist m l : take_rows m l `sublist_of` l.
Proof.
  revert l. induction m as [|b m IH]; intros [|x l]; cbn; try apply sublist_nil_l.
  destruct b; [apply sublist_skip | apply sublist_cons]; apply IH.
Qed.

Lemma take_rows_lookup m l x :
  In x (take_rows m l) -> exists i, m !! i = Some true /\ l !! i = Some x.
Proof.
  revert l. induction m as [|b m IH]; intros [|y l]; cbn; try tauto.
  destruct b; cbn.
  - intros [->|H]; [now exists 0%nat|].
    destruct (IH l H) as (i & ? & ?). now exists (S i).
  - intros H. destruct (IH l H) as (i & ? & ?). now exists (S i).
Qed.

End Rows.

Section Masks.
Import Pandas.

Lemma take_rows_map {A B : Type} (f : A -> B) m (l : list A) :
  take_rows m (map f l) = map f (take_rows m l).
Proof.
  revert l. induction m as [|b m IH]; intros [|x l]; cbn; try reflexivity.
  destruct b; cbn; now rewrite IH.
Qed.

Lemma take_rows_length {A B : Type} m (p : list A) (l : list B) :
  length p = length l -> length (take_rows m p) = length (take_rows m l).
Proof.
  revert p l. induction m as [|b m IH]; intros [|c p] [|x l] H; cbn in *;
    try reflexivity; try discriminate.
  destruct b; cbn; [f_equal|]; apply IH; lia.
Qed.

Lemma and_mask_seq (f g : nat -> bool) a n :
  and_mask (map f (seq a n)) (map g (seq a n)) = map (fun i => f i && g i) (seq a n).
Proof.
  revert a. induction n as [|n IH]; intros a; cbn; [reflexivity|]. now rewrite IH.
Qed.

Lemma repeat_true_seq a n : repeat true n = map (fun _ => true) (seq a n).
Proof. revert a. induction n as [|n IH]; intros a; cbn; [reflexivity|]. now rewrite <- IH. Qed.

(** A column read position by position. *)
Lemma map_by_position {A : Type} (p : A -> bool) (l : list A) a :
  map p l
  = map (fun i => match l !! (i - a)%nat with Some v => p v | None => false end)
        (seq a (length l)).
Proof.
  revert a. induction l as [|x l IH]; intros a; cbn; [reflexivity|].
  rewrite Nat.sub_diag. cbn. f_equal.
  rewrite (IH (S a)). apply map_ext_in. intros i Hi. apply in_seq in Hi.
  replace (i - a)%nat with (S (i - S a)) by lia. reflexivity.
Qed.

Lemma column_by_position p s n :
  length (cells s) = n ->
  map p (cells s) = map (holds_at p s) (seq 0 n).
Proof.
  intros <-. rewrite (map_by_position p (cells s) 0). apply map_ext.
  intros i. unfold holds_at. now rewrite Nat.sub_0_r.
Qed.

Lemma cells_series_take m s : cells (series_take m s) = take_rows m (cells s).
Proof. destruct s; cbn; now rewrite ?take_rows_map. Qed.

Lemma series_take_all n s : length (cells s) <= n -> series_take (repeat true n) s = s.
Proof.
  destruct s; cbn; rewrite ?length_map; intros H; now rewrite take_rows_all.
Qed.

Lemma series_take_twice m p s :
  series_take (take_rows m p) (series_take m s) = series_take (and_mask m p) s.
Proof. destruct s; cbn; now rewrite take_rows_twice. Qed.

Lemma frame_take_twice m p df :
  frame_take (take_rows m p) (frame_take m df) = frame_take (and_mask m p) df.
Proof.
  unfold frame_take. cbn. rewrite take_rows_twice. f_equal.
  rewrite map_map. apply map_ext. intros [c s]. cbn. now rewrite series_take_twice.
Qed.

Lemma frame_take_all df :
  wf df -> frame_take (repeat true (length (index df))) df = df.
Proof.
  intros Hwf. destruct df as [idx cols]. unfold frame_take, wf in *. cbn in *.
  rewrite take_rows_all by lia. f_equal.
  induction cols as [|[c s] cols IH]; [reflexivity|].
  apply Forall_cons in Hwf as [Hs Hwf]. cbn in *. rewrite IH by assumption.
  rewrite series_take_all by lia. reflexivity.
Qed.

Lemma columns_frame_take m df : columns (frame_take m df) = columns df.
Proof. unfold columns, frame_take. cbn. rewrite map_map. now apply map_ext. Qed.

Lemma wf_frame_take m df : wf df -> wf (frame_take m df).
Proof.
  unfold wf, frame_take. cbn. intros H. apply Forall_map.
  eapply Forall_impl; [exact H|]. intros [c s] E. cbn in *.
  rewrite cells_series_take. now apply take_rows_length.
Qed.

(** Rows are selected whole. *)
Lemma heads_take_true m (cols : list (list value)) :
  map (@head value) (map (take_rows (true :: m)) cols) = map (@head value) cols.
Proof. rewrite map_map. apply map_ext. now intros [|x l]. Qed.

Lemma tails_take_true m (cols : list (list value)) :
  map (@tail value) (map (take_rows (true :: m)) cols)
  = map (take_rows m) (map (@tail value) cols).
Proof.
  rewrite !map_map. apply map_ext. intros [|x l]; cbn; now rewrite ?take_rows_nil.
Qed.

Lemma take_false m (cols : list (list value)) :
  map (take_rows (false :: m)) cols = map (take_rows m) (map (@tail value) cols).
Proof.
  rewrite map_map. apply map_ext. intros [|x l]; cbn; now rewrite ?take_rows_nil.
Qed.

Lemma rows_of_take m idx cols :
  rows_of (take_rows m idx) (map (take_rows m) cols) = take_rows m (rows_of idx cols).
Proof.
  revert idx cols. induction m as [|b m IH]; intros idx cols; [reflexivity|].
  destruct idx as [|i idx]; [now destruct b|].
  destruct b.
  - change (take_rows (true :: m) (i :: idx)) with (i :: take_rows m idx).
    cbn [rows_of]. rewrite heads_take_true, tails_take_true, IH. reflexivity.
  - change (take_rows (false :: m) (i :: idx)) with (take_rows m idx).
    rewrite take_false, IH. reflexivity.
Qed.

Lemma rows_frame_take m df : rows (frame_take m df) = take_rows m (rows df).
Proof.
  unfold rows, frame_take. cbn. rewrite <- rows_of_take. f_equal.
  rewrite !map_map. apply map_ext. intros [c s]. cbn. apply cells_series_take.
Qed.

Lemma rows_of_length idx cols : length (rows_of idx cols) = length idx.
Proof. revert cols. induction idx as [|i idx IH]; intros cols; cbn; [reflexivity|]. now rewrite IH. Qed.

Lemma rows_of_index idx cols : map fst (rows_of idx cols) = idx.
Proof. revert cols. induction idx as [|i idx IH]; intros cols; cbn; [reflexivity|]. now rewrite IH. Qed.

End Masks.

(** ** Selecting and assigning columns *)

Section Columns.
Import Pandas.

Lemma mem_In c l : mem c l = true <-> In c l.
Proof.
  unfold mem. rewrite existsb_exists. split.
  - intros (x & Hx & E). apply String.eqb_eq in E. now subst.
  - intros H. exists c. split; [exact H | apply String.eqb_refl].
Qed.

Lemma mem_false c l : mem c l = false <-> ~ In c l.
Proof. rewrite <- mem_In. now destruct (mem c l). Qed.

Lemma occurrences_select df c : length (select df c) = occurrences c (columns df).
Proof.
  unfold select, occurrences, columns. rewrite length_map.
  induction (data df) as [|[c' s] l IH]; cbn; [reflexivity|].
  destruct (String.eqb c c'); cbn; now rewrite IH.
Qed.

Lemma select_In df c s : In s (select df c) <-> In (c, s) (data df).
Proof.
  unfold select. rewrite in_map_iff. split.
  - intros ([c' s'] & <- & H). apply filter_In in H as [H E]. cbn in *.
    apply String.eqb_eq in E. now subst.
  - intros H. exists (c, s). split; [reflexivity|]. apply filter_In. split; [exact H|].
    cbn. apply String.eqb_refl.
Qed.

Lemma names_one_select df c : names_one df c <-> exists s, select df c = [s].
Proof.
  unfold names_one. rewrite <- occurrences_select.
  destruct (select df c) as [|s [|s' l]]; cbn; split; try lia; try (intros [? ?]; discriminate).
  intros _. now exists s.
Qed.

Lemma getitem_series df c s : getitem df c = Ok (IsSeries s) <-> select df c = [s].
Proof.
  unfold getitem. destruct (select df c) as [|s0 [|s1 l]]; split; intros H;
    try discriminate; congruence.
Qed.

Lemma columns_In df c : In c (columns df) <-> exists s, In (c, s) (data df).
Proof.
  unfold columns. rewrite in_map_iff. split.
  - intros ([c' s] & <- & H). now exists s.
  - intros [s H]. now exists (c, s).
Qed.

Lemma columns_update_frame g cols df : columns (update_frame g cols df) = columns df.
Proof.
  unfold columns, update_frame, on_labels. cbn. rewrite map_map. apply map_ext.
  intros cs. now destruct (mem cs.1 cols).
Qed.

Lemma names_one_update_frame g cols df c :
  names_one (update_frame g cols df) c <-> names_one df c.
Proof. unfold names_one. now rewrite columns_update_frame. Qed.

Lemma mem_cons c c' l : mem c (c' :: l) = String.eqb c c' || mem c l.
Proof. reflexivity. Qed.

Section Update.
Variables (f : selection -> result Series) (g : Series -> Series).
Hypothesis f_series : forall s, f (IsSeries s) = Ok (g s).
Hypothesis f_frame : forall l s, f (IsFrame l) <> Ok s.
Hypothesis g_idem : forall s, g (g s) = g s.

Lemma setitem_one v c s :
  select v c = [s] -> setitem v c (g s) = update_frame g [c] v.
Proof.
  intros Hsel. unfold setitem, update_frame. f_equal.
  assert (Hin : In c (columns v)).
  { apply columns_In. exists s. apply select_In. rewrite Hsel. now left. }
  apply mem_In in Hin. rewrite Hin. apply map_ext_in. intros [c' s'] Hcs.
  unfold on_labels. cbn. rewrite orb_false_r, (String.eqb_sym c' c).
  destruct (String.eqb c c') eqn:E; [|reflexivity].
  apply String.eqb_eq in E. subst c'.
  apply select_In in Hcs. rewrite Hsel in Hcs. destruct Hcs as [->|[]]. reflexivity.
Qed.

Lemma update_col_ok v c v' :
  Val.update_col f v c = Ok v' -> names_one v c /\ v' = update_frame g [c] v.
Proof.
  unfold Val.update_col, result_bind.
  destruct (getitem v c) as [[s|l]|e] eqn:Hget; try discriminate.
  - rewrite f_series. intros [= <-]. apply getitem_series in Hget.
    split; [apply names_one_select; eauto | now apply setitem_one].
  - destruct (f (IsFrame l)) as [s|e] eqn:Hf; [|discriminate].
    now apply f_frame in Hf.
Qed.

Lemma update_col_total v c :
  names_one v c -> Val.update_col f v c = Ok (update_frame g [c] v).
Proof.
  intros H. apply names_one_select in H as [s Hs].
  unfold Val.update_col, result_bind.
  rewrite (proj2 (getitem_series v c s) Hs), f_series. now rewrite (setitem_one v c s Hs).
Qed.

Lemma update_frame_cons c cols v :
  update_frame g cols (update_frame g [c] v) = update_frame g (c :: cols) v.
Proof.
  unfold update_frame. cbn. f_equal. rewrite map_map. apply map_ext.
  intros [c' s]. unfold on_labels. cbn. rewrite orb_false_r.
  destruct (String.eqb c' c) eqn:E; cbn; [|reflexivity].
  destruct (mem c' cols); [now rewrite g_idem | reflexivity].
Qed.

Lemma update_cols_total cols : forall v,
  Forall (names_one v) cols ->
  Val.update_cols f cols v = (update_frame g cols v, Ok tt).
Proof.
  induction cols as [|c cols IH]; intros v H.
  - cbn. f_equal. destruct v as [idx d]. unfold update_frame. cbn. f_equal.
    now rewrite map_id.
  - apply Forall_cons in H as [Hc H]. cbn [Val.update_cols].
    rewrite (update_col_total v c Hc). rewrite IH.
    + now rewrite update_frame_cons.
    + eapply Forall_impl; [exact H|]. intros c'. apply names_one_update_frame.
Qed.

Lemma update_cols_ok cols : forall v v',
  Val.update_cols f cols v = (v', Ok tt) -> Forall (names_one v) cols.
Proof.
  induction cols as [|c cols IH]; intros v v' H; [constructor|].
  cbn [Val.update_cols] in H.
  destruct (Val.update_col f v c) as [v1|e] eqn:Hc; [|discriminate].
  apply update_col_ok in Hc as [Hone ->]. constructor; [exact Hone|].
  apply IH in H. eapply Forall_impl; [exact H|]. intros c'. apply names_one_update_frame.
Qed.

(** The loop returns exactly when every label it visits names one
    column, and then it has applied [g] to these columns. *)
Lemma update_cols_outcome cols v v' :
  Val.outcome (Val.update_cols f cols v) = Ok v' <->
  Forall (names_one v) cols /\ v' = update_frame g cols v.
Proof.
  unfold Val.outcome. split.
  - destruct (Val.update_cols f cols v) as [v1 [[]|e]] eqn:E; cbn; [|discriminate].
    intros [= <-]. pose proof (update_cols_ok cols v v1 E) as H.
    rewrite (update_cols_total cols v H) in E. split; [exact H | congruence].
  - intros [H ->]. now rewrite (update_cols_total cols v H).
Qed.

End Update.

(** *** The two column operations of the program *)

Lemma to_numeric_idem s : series_to_numeric (series_to_numeric s) = series_to_numeric s.
Proof.
  destruct s as [l| | | |]; try reflexivity. cbn [series_to_numeric].
  destruct (Numeral.int_fastpath l); [reflexivity|]. cbv zeta.
  repeat (match goal with |- context [if ?b then _ else _] => destruct b end;
          try reflexivity).
Qed.

Lemma trimmed_text_spec s :
  str_strip (astype_str (IsSeries s)) = Ok (trimmed_text s).
Proof. cbn. unfold trimmed_text. now rewrite map_map. Qed.

Lemma trimmed_text_idem s : trimmed_text (trimmed_text s) = trimmed_text s.
Proof.
  unfold trimmed_text. cbn [cells]. rewrite map_map. f_equal. apply map_ext.
  intros v. cbn [py_str]. now rewrite strip_idem.
Qed.

Lemma strip_frame l s : str_strip (astype_str (IsFrame l)) <> Ok s.
Proof. discriminate. Qed.

Lemma to_numeric_frame l s : to_numeric (IsFrame l) <> Ok s.
Proof. discriminate. Qed.

Lemma strip_outcome cols v v' :
  Val.outcome (Val.update_cols (fun sel => str_strip (astype_str sel)) cols v) = Ok v' <->
  Forall (names_one v) cols /\ v' = update_frame trimmed_text cols v.
Proof.
  apply update_cols_outcome;
    [apply trimmed_text_spec | apply strip_frame | apply trimmed_text_idem].
Qed.

Lemma to_numeric_outcome cols v v' :
  Val.outcome (Val.update_cols to_numeric cols v) = Ok v' <->
  Forall (names_one v) cols /\ v' = update_frame series_to_numeric cols v.
Proof.
  apply update_cols_outcome; [reflexivity | apply to_numeric_frame | apply to_numeric_idem].
Qed.

End Columns.

(** ** Conversion to numbers and removal of rows *)

Section Sanitizer.
Import Pandas Numeral.

Lemma existsb_none {A : Type} (p : A -> bool) l :
  existsb p l = false -> Forall (fun x => p x = false) l.
Proof.
  induction l as [|x l IH]; cbn; [constructor|].
  intros H. apply orb_false_iff in H as [Hx Hl]. constructor; auto.
Qed.

Lemma forallb_map {A B : Type} (p : B -> bool) (g : A -> B) l :
  forallb p (map g l) = forallb (fun x => p (g x)) l.
Proof. induction l as [|x l IH]; cbn; [reflexivity|]. now rewrite IH. Qed.

Lemma forallb_pointwise {A : Type} (p q : A -> bool) l :
  (forall x, p x = q x) -> forallb p l = forallb q l.
Proof. intros H. induction l as [|x l IH]; cbn; [reflexivity|]. now rewrite H, IH. Qed.

Lemma num_kinds_empty (ns : list num) :
  existsb is_float ns = false -> existsb is_int ns = false ->
  existsb is_bool ns = false -> ns = [].
Proof.
  destruct ns as [|[z f|f|b] ns]; cbn; intros; try reflexivity; discriminate.
Qed.

Lemma seen_float_none ns : seen_float ns = false -> existsb is_float ns = false.
Proof.
  unfold seen_float. intros H. apply orb_false_iff in H as [H _].
  now apply orb_false_iff in H as [H _].
Qed.


Lemma all_some_length {A : Type} (l : list (option A)) xs :
  all_some l = Some xs -> length xs = length l.
Proof.
  revert xs. induction l as [|[x|] l IH]; cbn; intros xs.
  - now intros [= <-].
  - destruct (all_some l) as [ys|]; [|discriminate]. intros [= <-]. cbn. now rewrite (IH ys).
  - discriminate.
Qed.


Lemma int_fastpath_all l ints :
  int_fastpath l = Some ints -> all_some (map as_int64 l) = Some ints.
Proof. destruct l as [|[] l]; cbn [int_fastpath]; (discriminate || trivial). Qed.

Lemma to_numeric_not_object s : is_object (series_to_numeric s) = false.
Proof.
  destruct s as [l| | | |]; try reflexivity. cbn [series_to_numeric].
  destruct (int_fastpath l); [reflexivity|]. cbv zeta.
  repeat (match goal with |- context [if ?b then _ else _] => destruct b end;
          try reflexivity).
Qed.

Lemma not_object_no_text s v :
  is_object s = false -> In v (cells s) -> is_text v = false.
Proof.
  destruct s as [l|l|l|l|l]; cbn; [discriminate| | | |]; intros _ H;
    apply in_map_iff in H as (x & <- & _); reflexivity.
Qed.

Lemma to_numeric_length s :
  length (cells (series_to_numeric s)) = length (cells s).
Proof.
  destruct s as [l| | | |]; try reflexivity. cbn [series_to_numeric].
  destruct (int_fastpath l) as [ints|] eqn:Hfast.
  - apply int_fastpath_all, all_some_length in Hfast. cbn [cells].
    now rewrite !length_map in *.
  - cbv zeta.
    destruct (seen_float (map cell_to_num l)) eqn:Hf;
      [|destruct (existsb is_int (map cell_to_num l)) eqn:Hi;
        [destruct (existsb is_uint (map cell_to_num l))
        |destruct (existsb is_bool (map cell_to_num l)) eqn:Hb]];
      cbn [cells]; rewrite ?length_map; try reflexivity.
    apply seen_float_none in Hf.
    pose proof (num_kinds_empty _ Hf Hi Hb) as E. apply map_eq_nil in E. now subst.
Qed.



Lemma holds_at_map p s i :
  holds_at p s i = match map p (cells s) !! i with Some b => b | None => false end.
Proof. unfold holds_at. rewrite list_lookup_fmap. now destruct (cells s !! i). Qed.

(** *** The labels that are converted *)

Lemma matched_cols df c :
  In c (Val.price_cols df ++ Val.qty_cols df) <-> In c (columns df) /\ is_matched c = true.
Proof.
  unfold Val.price_cols, Val.qty_cols, is_matched.
  rewrite in_app_iff, !filter_In, orb_true_iff. tauto.
Qed.

Lemma mem_matched df c :
  In c (columns df) -> mem c (Val.price_cols df ++ Val.qty_cols df) = is_matched c.
Proof.
  intros Hc. destruct (is_matched c) eqn:E.
  - apply mem_In, matched_cols. now split.
  - apply mem_false. rewrite matched_cols. intros [_ H]. congruence.
Qed.

Lemma update_frame_matched df :
  update_frame series_to_numeric (Val.price_cols df ++ Val.qty_cols df) df
  = with_numeric_columns df.
Proof.
  unfold update_frame, with_numeric_columns. f_equal. apply map_ext_in.
  intros [c s] Hcs. unfold on_labels, numeric_column. cbn.
  rewrite mem_matched; [reflexivity|]. apply columns_In. now exists s.
Qed.

Lemma columns_with_numeric df : columns (with_numeric_columns df) = columns df.
Proof.
  unfold columns, with_numeric_columns, numeric_column. cbn. rewrite map_map.
  apply map_ext. intros cs. now destruct (is_matched cs.1).
Qed.

Lemma wf_with_numeric df : wf df -> wf (with_numeric_columns df).
Proof.
  unfold wf, with_numeric_columns. cbn. intros H. apply Forall_map.
  eapply Forall_impl; [exact H|]. intros [c s] E. unfold numeric_column. cbn in *.
  destruct (is_matched c); cbn; [now rewrite to_numeric_length | exact E].
Qed.

(** *** [dropna] row by row *)

Lemma notna_rows_by_row subset df :
  wf df ->
  (forall cs, In cs (data df) -> mem (fst cs) subset = is_matched (fst cs)) ->
  notna_rows subset df = rows_ok notna df.
Proof.
  unfold notna_rows, rows_ok, row_ok, wf.
  generalize (length (index df)) as n. intros n.
  induction (data df) as [|[c s] d IH]; intros Hwf Hmem.
  - cbn. apply repeat_true_seq.
  - apply Forall_cons in Hwf as [Hs Hwf]. cbn [fold_right fst snd].
    rewrite IH; [|exact Hwf|intros cs Hcs; apply Hmem; now right].
    pose proof (Hmem (c, s) (or_introl eq_refl)) as Hc. cbn [fst] in Hc. rewrite Hc.
    cbn [fst forallb snd].
    destruct (is_matched c); cbn [implb].
    + rewrite (column_by_position notna s n Hs). apply and_mask_seq.
    + reflexivity.
Qed.

End Sanitizer.

Section SanitizerStage.
Import Pandas.

Variable list_of_set : list string -> list string.
Hypothesis list_of_set_spec : lists_the_set list_of_set.

Lemma notna_rows_nil df : notna_rows [] df = repeat true (length (index df)).
Proof. unfold notna_rows. now induction (data df) as [|cs d IH]. Qed.

Lemma mem_listed df c :
  In c (columns df) ->
  mem c (list_of_set (Val.price_cols df ++ Val.qty_cols df)) = is_matched c.
Proof.
  intros Hc. rewrite <- (mem_matched df c Hc).
  destruct (mem c (Val.price_cols df ++ Val.qty_cols df)) eqn:E.
  - apply mem_In. apply list_of_set_spec. now apply mem_In.
  - apply mem_false. rewrite (list_of_set_spec _ c). now apply mem_false.
Qed.

(** The last statement of [handle_missing_values], on the converted
    frame. *)
Lemma dropna_required df :
  wf df ->
  match list_of_set (Val.price_cols df ++ Val.qty_cols df) with
  | [] => Ok (with_numeric_columns df)
  | (_ :: _) as required => dropna (with_numeric_columns df) required
  end = Ok (frame_take (rows_ok notna (with_numeric_columns df)) (with_numeric_columns df)).
Proof.
  intros Hwf. pose proof (wf_with_numeric df Hwf) as Hwf'.
  assert (Hrows : notna_rows (list_of_set (Val.price_cols df ++ Val.qty_cols df))
                    (with_numeric_columns df) = rows_ok notna (with_numeric_columns df)).
  { apply notna_rows_by_row; [exact Hwf'|].
    intros [c s] Hcs. cbn [fst]. apply mem_listed.
    rewrite <- columns_with_numeric. apply columns_In. now exists s. }
  destruct (list_of_set _) as [|c req] eqn:E.
  - rewrite <- Hrows, notna_rows_nil. f_equal. symmetry. now apply frame_take_all.
  - unfold dropna. rewrite Hrows.
    replace (forallb _ (c :: req)) with true; [reflexivity|].
    symmetry. apply forallb_forall. intros x Hx. apply mem_In.
    rewrite columns_with_numeric. rewrite <- E in Hx.
    apply (proj1 (list_of_set_spec _ _)) in Hx. now apply matched_cols in Hx.
Qed.

(** [handle_missing_values] returns exactly when every price or
    quantity label names one column; it then returns the converted
    frame without the rows in which a converted cell is missing. *)
Lemma handle_missing_values_value df df' :
  wf df ->
  Val.handle_missing_values list_of_set df = Ok df' <->
  Forall (names_one df) (Val.price_cols df ++ Val.qty_cols df) /\
  df' = frame_take (rows_ok notna (with_numeric_columns df)) (with_numeric_columns df).
Proof.
  intros Hwf. unfold Val.handle_missing_values, result_bind. split.
  - destruct (Val.outcome _) as [v|e] eqn:Hout; [|discriminate].
    apply to_numeric_outcome in Hout as [Hone ->]. rewrite update_frame_matched.
    rewrite (dropna_required df Hwf). intros [= <-]. now split.
  - intros [Hone ->].
    rewrite (proj2 (to_numeric_outcome _ df _) (conj Hone eq_refl)).
    rewrite update_frame_matched. apply (dropna_required df Hwf).
Qed.

Lemma row_ok_lookup p df i :
  rows_ok p df !! i = Some true -> row_ok p df i = true.
Proof.
  unfold rows_ok. rewrite list_lookup_fmap. intros H.
  destruct (seq 0 (length (index df)) !! i) as [j|] eqn:E; [|discriminate].
  apply lookup_seq in E as [-> _]. cbn in H. congruence.
Qed.

Lemma row_ok_column p df i c s :
  row_ok p df i = true -> In (c, s) (data df) -> is_matched c = true ->
  holds_at p s i = true.
Proof.
  unfold row_ok. rewrite forallb_forall. intros H Hcs Hc.
  specialize (H (c, s) Hcs). cbn in H. now rewrite Hc in H.
Qed.

Lemma in_with_numeric df c s :
  In (c, s) (data (with_numeric_columns df)) -> is_matched c = true ->
  exists s0, In (c, s0) (data df) /\ s = series_to_numeric s0.
Proof.
  cbn [with_numeric_columns data]. intros Hcs Hc.
  apply in_map_iff in Hcs as ([c0 s0] & E & Hcs0).
  unfold numeric_column in E. cbn [fst snd] in E.
  destruct (is_matched c0) eqn:Hc0; cbn [fst snd] in E; injection E as <- <-;
    [|congruence].
  now exists s0.
Qed.


Lemma in_frame_take m df c s :
  In (c, s) (data (frame_take m df)) ->
  exists s0, In (c, s0) (data df) /\ s = series_take m s0.
Proof.
  cbn [frame_take data]. intros Hcs.
  apply in_map_iff in Hcs as ([c0 s0] & E & Hcs0). cbn [fst snd] in E.
  injection E as <- <-. now exists s0.
Qed.

(** After the stage, the price and quantity columns hold numbers
    only. *)
Lemma sanitized_numbers df c s v :
  In (c, s) (data (frame_take (rows_ok notna (with_numeric_columns df))
                     (with_numeric_columns df))) ->
  is_matched c = true -> In v (cells s) -> is_number v = true.
Proof.
  intros Hcs Hc Hv. apply in_frame_take in Hcs as (s1 & Hcs1 & ->).
  rewrite cells_series_take in Hv.
  apply take_rows_lookup in Hv as (i & Hi & Hvi).
  apply row_ok_lookup in Hi.
  pose proof (row_ok_column _ _ _ _ _ Hi Hcs1 Hc) as Hp.
  unfold holds_at in Hp. rewrite Hvi in Hp.
  apply in_with_numeric in Hcs1 as (s0 & _ & ->); [|exact Hc].
  assert (Ht : is_text v = false).
  { apply (not_object_no_text (series_to_numeric s0)); [apply to_numeric_not_object|].
    apply list_elem_of_In. now apply list_elem_of_lookup_2 in Hvi. }
  destruct v as [t|z|[]|b]; cbn in *; congruence.
Qed.


End SanitizerStage.

Lemma dedup_lists_the_set : lists_the_set dedup.
Proof. intros l c. apply nodup_In. Qed.

(** ** Binary floats *)

Section Floats.
Import SpecFloat.
Local Open Scope Z_scope.

Lemma shr_1_nonneg mrs : 0 <= shr_m mrs -> 0 <= shr_m (shr_1 mrs).
Proof. destruct mrs as [[|[p|p|]|p] r s]; cbn; lia. Qed.

Lemma iter_shr_nonneg p : forall mrs,
  0 <= shr_m mrs -> 0 <= shr_m (iter_pos shr_1 p mrs).
Proof.
  induction p as [p IH|p IH|]; intros mrs H; cbn [iter_pos].
  - apply IH, IH. now apply shr_1_nonneg.
  - now apply IH, IH.
  - now apply shr_1_nonneg.
Qed.

Lemma shr_nonneg mrs e n : 0 <= shr_m mrs -> 0 <= shr_m (fst (shr mrs e n)).
Proof.
  intros H. destruct n as [|p|p]; cbn [shr fst]; trivial. now apply iter_shr_nonneg.
Qed.

Lemma shr_m_of_loc m l : shr_m (shr_record_of_loc m l) = m.
Proof. now destruct l as [|[]]. Qed.

Lemma shr_fexp_nonneg m e l :
  0 <= m -> 0 <= shr_m (fst (shr_fexp B64.prec B64.emax m e l)).
Proof. intros H. unfold shr_fexp. apply shr_nonneg. now rewrite shr_m_of_loc. Qed.

Lemma round_nearest_even_nonneg m l : 0 <= m -> 0 <= round_nearest_even m l.
Proof.
  intros H. destruct l as [|[]]; cbn; try lia. destruct (Z.even m); lia.
Qed.

(** Rounding keeps the sign and never gives NaN. *)
Lemma binary_round_aux_sign s m e l :
  0 <= m ->
  match binary_round_aux B64.prec B64.emax s m e l with
  | Zero s' | Inf s' | Finite s' _ _ => s' = s
  | NaN => False
  end.
Proof.
  intros H. unfold binary_round_aux.
  pose proof (shr_fexp_nonneg m e l H) as H1.
  destruct (shr_fexp B64.prec B64.emax m e l) as [mrs' e'] eqn:E1. cbn [fst] in H1.
  pose proof (shr_fexp_nonneg _ e' loc_Exact
                (round_nearest_even_nonneg _ (loc_of_shr_record mrs') H1)) as H2.
  destruct (shr_fexp B64.prec B64.emax _ e' loc_Exact) as [mrs'' e''] eqn:E2.
  cbn [fst] in H2.
  destruct (shr_m mrs'') as [|p|p]; [reflexivity| |lia].
  now destruct (e'' <=? B64.emax - B64.prec).
Qed.

(** The double of an integer that is not negative is not negative. *)
Lemma of_Z_ge0 z : 0 <= z -> Pandas.float_ge0 (B64.of_Z z) = true.
Proof.
  intros H. unfold B64.of_Z, binary_normalize.
  destruct z as [|p|p]; [reflexivity| |lia].
  unfold binary_round.
  destruct (shl_align p 0 _) as [mz ez].
  pose proof (binary_round_aux_sign false (Z.pos mz) ez loc_Exact ltac:(lia)) as Hs.
  destruct (binary_round_aux _ _ _ _ _ _) as [s|s| |s m e]; try contradiction; now subst.
Qed.

Lemma digits2_size p : digits2_pos p = Pos.size p.
Proof. induction p as [p IH|p IH|]; cbn; now rewrite ?IH. Qed.

Lemma Zdigits2_log2 p : Zdigits2 (Z.pos p) = Z.log2 (Z.pos p) + 1.
Proof.
  cbn [Zdigits2]. rewrite digits2_size. destruct p as [p|p|]; cbn [Pos.size Z.log2];
    rewrite ?Pos2Z.inj_succ; lia.
Qed.

Lemma Zdigits2_nonneg m : 0 <= Zdigits2 m.
Proof. destruct m; cbn; lia. Qed.

(** [m] has at most [k] binary digits exactly when it is below [2^k]. *)
Lemma Zdigits2_le m k : 0 <= m -> 0 <= k -> (Zdigits2 m <= k <-> m < 2 ^ k).
Proof.
  intros Hm Hk. destruct m as [|p|p]; [|.. |lia].
  - cbn. split; [intros _; apply Z.pow_pos_nonneg; lia | lia].
  - rewrite Zdigits2_log2. rewrite (Z.log2_lt_pow2 (Z.pos p) k) by lia. lia.
Qed.

Lemma Zdigits2_bound m : 0 <= m -> m < 2 ^ Zdigits2 m.
Proof. intros H. apply Zdigits2_le; [exact H | apply Zdigits2_nonneg | lia]. Qed.

Lemma shr_1_half mrs : 0 <= shr_m mrs -> shr_m (shr_1 mrs) = shr_m mrs / 2.
Proof.
  destruct mrs as [[|[p|p|]|p] r s]; cbn [shr_1 shr_m]; intros H; try lia;
    try reflexivity.
  - rewrite (Pos2Z.inj_xI p). apply (Z.div_unique_pos _ 2 _ 1); lia.
  - rewrite (Pos2Z.inj_xO p). apply (Z.div_unique_pos _ 2 _ 0); lia.
Qed.

Lemma iter_shr_div p : forall mrs,
  0 <= shr_m mrs -> shr_m (iter_pos shr_1 p mrs) = shr_m mrs / 2 ^ Z.pos p.
Proof.
  induction p as [p IH|p IH|]; intros mrs H; cbn [iter_pos];
    try assert (Hp : 0 < 2 ^ Z.pos p) by (apply Z.pow_pos_nonneg; lia).
  - rewrite IH, IH, shr_1_half by auto using iter_shr_nonneg, shr_1_nonneg.
    rewrite !Z.div_div by lia.
    f_equal. rewrite (Pos2Z.inj_xI p).
    replace (2 * Z.pos p + 1) with (1 + Z.pos p + Z.pos p) by lia.
    rewrite !Z.pow_add_r by lia. change (2 ^ 1) with 2. lia.
  - rewrite IH, IH by auto using iter_shr_nonneg.
    rewrite Z.div_div by lia.
    f_equal. rewrite (Pos2Z.inj_xO p).
    replace (2 * Z.pos p) with (Z.pos p + Z.pos p) by lia.
    rewrite Z.pow_add_r by lia. reflexivity.
  - rewrite shr_1_half by exact H. reflexivity.
Qed.

(** What one shift of [shr_fexp] gives: the mantissa is below [2^53],
    the exponent is the one [fexp] asks for, or the input's. *)
Lemma shr_fexp_spec m e l :
  0 <= m ->
  let '(mrs, e') := shr_fexp B64.prec B64.emax m e l in
  let d := Zdigits2 m in
  0 <= shr_m mrs /\
  ((fexp B64.prec B64.emax (d + e) <= e /\ shr_m mrs = m /\ e' = e) \/
   (e < fexp B64.prec B64.emax (d + e) /\ e' = fexp B64.prec B64.emax (d + e) /\
    shr_m mrs = m / 2 ^ (e' - e))).
Proof.
  intros Hm. unfold shr_fexp, shr.
  destruct (fexp B64.prec B64.emax (Zdigits2 m + e) - e) as [|p|p] eqn:E.
  - rewrite shr_m_of_loc. split; [exact Hm|]. left. repeat split; lia.
  - split; [apply iter_shr_nonneg; now rewrite shr_m_of_loc|]. right.
    rewrite iter_shr_div by now rewrite shr_m_of_loc. rewrite shr_m_of_loc.
    repeat split; try lia. f_equal. f_equal. lia.
  - rewrite shr_m_of_loc. split; [exact Hm|]. left. repeat split; lia.
Qed.

Lemma round_nearest_even_le m l : round_nearest_even m l <= m + 1.
Proof. destruct l as [|[]]; cbn; try lia. destruct (Z.even m); lia. Qed.

Lemma fexp_eq x : fexp B64.prec B64.emax x = Z.max (x - 53) (-1074).
Proof. reflexivity. Qed.

Lemma div_pow2_lt m a b : 0 <= m -> 0 <= a -> 0 <= b -> m < 2 ^ (a + b) -> m / 2 ^ a < 2 ^ b.
Proof.
  intros Hm Ha Hb H. apply Z.div_lt_upper_bound; [apply Z.pow_pos_nonneg; lia|].
  now rewrite <- Z.pow_add_r.
Qed.

Lemma pow2_le a b : a <= b -> 2 ^ a <= 2 ^ b.
Proof. intros H. apply Z.pow_le_mono_r; lia. Qed.

(** Rounding a number below [2^K] gives a finite float below
    [2^(K+1)], for [K] in the range of the format. *)
Lemma round_bound s m e l K :
  0 <= m -> Zdigits2 m + e <= K -> e + 53 <= K -> -1021 <= K <= 1023 ->
  finite_below (K + 1) (binary_round_aux B64.prec B64.emax s m e l).
Proof.
  intros Hm Hd He HK. unfold binary_round_aux.
  pose proof (shr_fexp_spec m e l Hm) as H1.
  destruct (shr_fexp B64.prec B64.emax m e l) as [mrs' e'].
  destruct H1 as [Hm1 H1]. rewrite fexp_eq in H1.
  pose proof (Zdigits2_nonneg m) as Hd0. pose proof (Zdigits2_bound m Hm) as Hdm.
  assert (H53 : shr_m mrs' < 2 ^ 53 /\ -1074 <= e' /\ e' + 53 <= K).
  { destruct H1 as [(Hf & -> & ->)|(Hf & -> & ->)].
    - split; [|lia]. apply (Zdigits2_le m 53); lia.
    - split; [|lia]. apply div_pow2_lt; try lia.
      eapply Z.lt_le_trans; [exact Hdm|]. apply pow2_le. lia. }
  clear H1. destruct H53 as (Hlt1 & He1 & He1').
  pose proof (round_nearest_even_le (shr_m mrs') (loc_of_shr_record mrs')) as Hm2'.
  pose proof (round_nearest_even_nonneg (shr_m mrs') (loc_of_shr_record mrs') Hm1) as Hm2.
  set (m2 := round_nearest_even (shr_m mrs') (loc_of_shr_record mrs')) in *.
  pose proof (shr_fexp_spec m2 e' loc_Exact Hm2) as H2.
  destruct (shr_fexp B64.prec B64.emax m2 e' loc_Exact) as [mrs'' e''].
  destruct H2 as [Hm3 H2]. rewrite fexp_eq in H2.
  pose proof (Zdigits2_nonneg m2) as Hd2. pose proof (Zdigits2_bound m2 Hm2) as Hdm2.
  assert (Hd54 : Zdigits2 m2 <= 54).
  { apply Zdigits2_le; lia. }
  assert (H3 : shr_m mrs'' < 2 ^ 53 /\ e'' + 53 <= K + 1).
  { destruct H2 as [(Hf & -> & ->)|(Hf & -> & ->)].
    - split; [|lia]. apply (Zdigits2_le m2 53); lia.
    - split; [|lia]. apply div_pow2_lt; try lia.
      eapply Z.lt_le_trans; [exact Hdm2|]. apply pow2_le. lia. }
  destruct H3 as [Hlt3 He3].
  destruct (shr_m mrs'') as [|p|p]; [exact I| |lia].
  replace (e'' <=? B64.emax - B64.prec) with true
    by (symmetry; apply Z.leb_le; unfold B64.emax, B64.prec; lia).
  split; assumption.
Qed.

Lemma finite_below_mono K K' f : K <= K' -> finite_below K f -> finite_below K' f.
Proof. intros H. destruct f as [| | |s m e]; cbn; trivial. lia. Qed.

Lemma finite_below_not_inf K f : finite_below K f -> B64.is_inf f = false.
Proof. now destruct f. Qed.

Lemma finite_below_opp K f : finite_below K f -> finite_below K (B64.opp f).
Proof. now destruct f. Qed.

Lemma mul_below K1 K2 x y :
  finite_below K1 x -> finite_below K2 y -> -1021 <= K1 + K2 <= 1023 ->
  finite_below (K1 + K2 + 1) (B64.mul x y).
Proof.
  destruct x as [sx| | |sx mx ex], y as [sy| | |sy my ey]; cbn [finite_below];
    try contradiction; try (intros; exact I).
  intros [Hx Hex] [Hy Hey] HK. unfold B64.mul, SFmul. apply round_bound; try lia.
  assert (H : Zdigits2 (Z.pos (mx * my)) <= 106).
  { apply Zdigits2_le; try lia. rewrite Pos2Z.inj_mul.
    change (2 ^ 106) with (2 ^ 53 * 2 ^ 53). apply Z.mul_lt_mono_nonneg; lia. }
  lia.
Qed.

Lemma iter_xO m d : Z.pos (Pos.iter xO m d) = Z.pos m * 2 ^ Z.pos d.
Proof.
  induction d as [|d IH] using Pos.peano_ind.
  - cbn [Pos.iter]. rewrite (Pos2Z.inj_xO m). change (2 ^ 1) with 2. lia.
  - rewrite Pos.iter_succ, (Pos2Z.inj_xO (Pos.iter xO m d)), IH, Pos2Z.inj_succ.
    rewrite Z.pow_succ_r by lia. lia.
Qed.

(** [shl_align] keeps the number and does not raise the exponent. *)
Lemma shl_align_spec m e t :
  let '(m', e') := shl_align m e t in
  e' <= e /\ (t <= e -> e' = t) /\ Z.pos m' = Z.pos m * 2 ^ (e - e').
Proof.
  unfold shl_align. destruct (t - e) as [|d|d] eqn:E.
  - rewrite Z.sub_diag. cbn. lia.
  - rewrite Z.sub_diag. cbn. lia.
  - split; [lia|]. split; [reflexivity|]. rewrite iter_xO. f_equal. f_equal. lia.
Qed.

Lemma round_below s p e K :
  Z.pos p < 2 ^ (K - e) -> e + 53 <= K -> -1021 <= K <= 1023 ->
  finite_below (K + 1) (binary_round B64.prec B64.emax s p e).
Proof.
  intros Hp He HK. unfold binary_round.
  pose proof (shl_align_spec p e
                (fexp B64.prec B64.emax (Z.pos (digits2_pos p) + e))) as H.
  destruct (shl_align p e _) as [mz ez]. destruct H as (Hez & _ & Hmz).
  apply round_bound; try lia.
  assert (H : Zdigits2 (Z.pos mz) <= K - ez).
  { apply Zdigits2_le; try lia. rewrite Hmz.
    replace (K - ez) with ((K - e) + (e - ez)) by lia.
    rewrite Z.pow_add_r by lia.
    apply Z.mul_lt_mono_pos_r; [apply Z.pow_pos_nonneg; lia | exact Hp]. }
  lia.
Qed.

Lemma normalize_below z e K :
  Z.abs z < 2 ^ (K - e) -> e + 53 <= K -> -1021 <= K <= 1023 ->
  finite_below (K + 1) (binary_normalize B64.prec B64.emax z e false).
Proof.
  intros Hz He HK. destruct z as [|p|p]; cbn [binary_normalize]; [exact I| |];
    apply round_below; trivial.
Qed.

Lemma of_Z_below z K :
  Z.abs z < 2 ^ K -> 53 <= K <= 1023 -> finite_below (K + 1) (B64.of_Z z).
Proof.
  intros Hz HK. unfold B64.of_Z. apply normalize_below; try lia.
  now rewrite Z.sub_0_r.
Qed.

Lemma add_below K x y :
  finite_below K x -> finite_below K y -> -1021 <= K + 1 <= 1023 ->
  finite_below (K + 2) (B64.add x y).
Proof.
  destruct x as [sx| | |sx mx ex], y as [sy| | |sy my ey]; cbn [finite_below];
    try contradiction; intros Hx Hy HK.
  - unfold B64.add, SFadd. now destruct sx, sy.
  - cbn. lia.
  - cbn. lia.
  - destruct Hx as [Hx Hex], Hy as [Hy Hey]. unfold B64.add, SFadd. cbv zeta.
    pose proof (shl_align_spec mx ex (Z.min ex ey)) as Ha.
    pose proof (shl_align_spec my ey (Z.min ex ey)) as Hb.
    destruct (shl_align mx ex (Z.min ex ey)) as [mx' ex'].
    destruct (shl_align my ey (Z.min ex ey)) as [my' ey']. cbn [fst].
    destruct Ha as (_ & Hex' & Hmx'), Hb as (_ & Hey' & Hmy').
    specialize (Hex' ltac:(lia)). specialize (Hey' ltac:(lia)). subst ex' ey'.
    set (ez := Z.min ex ey) in *.
    replace (K + 2) with (K + 1 + 1) by lia.
    assert (Hbound : forall m e, Z.pos m < 2 ^ 53 -> e + 53 <= K -> ez <= e ->
              Z.pos m * 2 ^ (e - ez) < 2 ^ (K - ez)).
    { intros m e Hm He Hz.
      apply Z.lt_le_trans with (2 ^ 53 * 2 ^ (e - ez)).
      - apply Z.mul_lt_mono_pos_r; [apply Z.pow_pos_nonneg; lia | exact Hm].
      - rewrite <- Z.pow_add_r by lia. apply pow2_le. lia. }
    pose proof (Hbound mx ex Hx Hex ltac:(lia)) as Bx.
    pose proof (Hbound my ey Hy Hey ltac:(lia)) as By.
    rewrite <- Hmx' in Bx. rewrite <- Hmy' in By.
    apply normalize_below; try lia.
    replace (K + 1 - ez) with (Z.succ (K - ez)) by lia.
    rewrite Z.pow_succ_r by lia.
    destruct sx, sy; cbn [cond_Zopp]; lia.
Qed.

(** Division by [1.0], the last step of the reader on a numeral
    without exponent. *)
Lemma div_one_below K x :
  finite_below K x -> -1021 <= K <= 1023 ->
  finite_below (K + 1) (B64.div x (Numeral.e10 0)).
Proof.
  assert (E : Numeral.e10 0 = Finite false 4503599627370496 (-52))
    by (vm_compute; reflexivity).
  rewrite E. destruct x as [sx| | |sx mx ex]; cbn [finite_below]; try contradiction.
  - intros _ _. exact I.
  - intros [Hx Hex] HK. unfold B64.div, SFdiv, SFdiv_core_binary. cbv zeta.
    change (Zdigits2 4503599627370496) with 53.
    assert (Hd : Zdigits2 (Z.pos mx) <= 53) by (apply Zdigits2_le; lia).
    pose proof (Zdigits2_nonneg (Z.pos mx)) as Hd0.
    rewrite fexp_eq.
    set (e' := Z.min (Z.max (Zdigits2 (Z.pos mx) + ex - (53 + -52) - 53) (-1074))
                     (ex - -52)).
    assert (He' : e' <= ex + 52 /\ e' + 53 <= K) by (unfold e'; lia).
    set (m' := match ex - -52 - e' with
               | 0 => Z.pos mx
               | Z.pos _ => Z.shiftl (Z.pos mx) (ex - -52 - e')
               | Z.neg _ => 0
               end).
    assert (Hm' : 0 <= m' < 2 ^ (52 + (K - e'))).
    { assert (Hs : m' = Z.pos mx * 2 ^ (ex + 52 - e')).
      { unfold m'. replace (ex - -52 - e') with (ex + 52 - e') by lia.
        destruct (ex + 52 - e') as [|p|p] eqn:Es; [cbn; lia| |lia].
        rewrite Z.shiftl_mul_pow2 by lia. reflexivity. }
      rewrite Hs. split; [apply Z.mul_nonneg_nonneg; [lia | apply Z.pow_nonneg; lia]|].
      apply Z.lt_le_trans with (2 ^ 53 * 2 ^ (ex + 52 - e')).
      - apply Z.mul_lt_mono_pos_r; [apply Z.pow_pos_nonneg; lia | exact Hx].
      - rewrite <- Z.pow_add_r by lia. apply pow2_le. lia. }
    destruct (Z.div_eucl m' 4503599627370496) as [q r] eqn:Hq.
    assert (Eq : q = m' / 2 ^ 52).
    { change (2 ^ 52) with 4503599627370496. unfold Z.div. now rewrite Hq. }
    assert (Hq0 : 0 <= q) by (rewrite Eq; apply Z.div_pos; lia).
    assert (Hq1 : q < 2 ^ (K - e')) by (rewrite Eq; apply div_pow2_lt; lia).
    apply round_bound; try lia.
    assert (H : Zdigits2 q <= K - e') by (apply Zdigits2_le; lia). lia.
Qed.

Lemma digit_below c :
  Numeral.isdigit_ascii c = true ->
  finite_below 54 (B64.of_Z (Z.of_N (Numeral.digit_val c))).
Proof.
  intros H. apply (of_Z_below _ 53); [|lia].
  unfold Numeral.isdigit_ascii, Numeral.digit_val, Text.between in *.
  apply andb_true_iff in H as [H1 H2]. apply N.leb_le in H1, H2. lia.
Qed.

(** One more digit: the number grows by less than seven bits. *)
Lemma push_below K number c :
  Numeral.isdigit_ascii c = true -> finite_below K number -> 54 <= K <= 1000 ->
  finite_below (K + 7) (Numeral.push number c).
Proof.
  intros Hc Hn HK. unfold Numeral.push.
  assert (Hten : finite_below 4 (B64.of_Z 10)) by (vm_compute; split; [reflexivity | discriminate]).
  pose proof (mul_below K 4 _ _ Hn Hten ltac:(lia)) as Hm.
  replace (K + 4 + 1) with (K + 5) in Hm by lia.
  replace (K + 7) with (K + 5 + 2) by lia.
  apply add_below; [exact Hm| |lia].
  apply (finite_below_mono 54); [lia | now apply digit_below].
Qed.

End Floats.

(** ** Removal of rows with a negative price or quantity *)

Section RangeFilter.
Import Pandas.

Lemma all_ok_ge0 l bits : all_ok cell_ge0 l = Ok bits -> bits = map nonneg l.
Proof.
  revert bits. induction l as [|v l IH]; intros bits; cbn; [congruence|].
  unfold nonneg. destruct (cell_ge0 v) as [b|e]; [|discriminate].
  destruct (all_ok cell_ge0 l) as [bs|e]; [|discriminate].
  intros [= <-]. now rewrite (IH bs eq_refl).
Qed.

Lemma all_ok_ge0_total l :
  Forall (fun v => is_text v = false) l -> all_ok cell_ge0 l = Ok (map nonneg l).
Proof.
  induction 1 as [|v l Hv _ IH]; [reflexivity|]. cbn. rewrite IH.
  unfold nonneg. now destruct v.
Qed.

Lemma select_frame_take m df c :
  select (frame_take m df) c = map (series_take m) (select df c).
Proof.
  unfold select, frame_take. cbn [data].
  induction (data df) as [|[c' s] d IH]; [reflexivity|]. cbn.
  destruct (String.eqb c c'); cbn; now rewrite IH.
Qed.

(** One pass of the loop on a label that names one column: a
    selection of rows. *)
Lemma filter_col_value m df c v' :
  names_one df c ->
  Val.filter_col (frame_take m df) c = Ok v' ->
  v' = frame_take (and_mask m (col_bits df c)) df.
Proof.
  intros Hone. apply names_one_select in Hone as [s Hsel].
  unfold Val.filter_col, result_bind, getitem, col_bits.
  rewrite select_frame_take, Hsel. cbn [map].
  unfold ge0, series_ge0. destruct (all_ok cell_ge0 _) as [bits|e] eqn:Hb; [|discriminate].
  apply all_ok_ge0 in Hb. cbn [getitem_mask]. intros [= <-].
  rewrite Hb, cells_series_take, <- take_rows_map. apply frame_take_twice.
Qed.

Lemma filter_cols_value df cols : forall m v',
  Forall (names_one df) cols ->
  snd (Val.filter_cols cols (frame_take m df)) = Ok v' ->
  v' = frame_take (fold_left (fun m c => and_mask m (col_bits df c)) cols m) df.
Proof.
  induction cols as [|c cols IH]; intros m v' Hone; cbn [Val.filter_cols fold_left].
  - cbn. now intros [= <-].
  - apply Forall_cons in Hone as [Hc Hone].
    destruct (Val.filter_col (frame_take m df) c) as [v1|e] eqn:E1; [|discriminate].
    apply (filter_col_value m df c v1 Hc) in E1 as ->.
    destruct (Val.filter_cols cols _) as [ext r] eqn:E. cbn [snd]. intros Hr.
    specialize (IH (and_mask m (col_bits df c)) v' Hone). rewrite E in IH.
    now apply IH.
Qed.

Lemma filter_col_total m df c s :
  select df c = [s] -> Forall (fun v => is_text v = false) (cells s) ->
  Val.filter_col (frame_take m df) c = Ok (frame_take (and_mask m (col_bits df c)) df).
Proof.
  intros Hsel Hs. unfold Val.filter_col, result_bind, getitem, col_bits.
  rewrite select_frame_take, Hsel. cbn [map]. unfold ge0, series_ge0.
  rewrite all_ok_ge0_total.
  - cbn [getitem_mask]. f_equal.
    rewrite cells_series_take, <- take_rows_map. apply frame_take_twice.
  - rewrite cells_series_take. apply List.Forall_forall. intros v Hv.
    apply take_rows_lookup in Hv as (i & _ & Hi).
    rewrite List.Forall_forall in Hs. apply Hs. apply list_elem_of_In.
    now apply list_elem_of_lookup_2 in Hi.
Qed.

Lemma filter_cols_total df cols : forall m,
  Forall (fun c => exists s, select df c = [s]
                    /\ Forall (fun v => is_text v = false) (cells s)) cols ->
  exists v', snd (Val.filter_cols cols (frame_take m df)) = Ok v'.
Proof.
  induction cols as [|c cols IH]; intros m H; cbn [Val.filter_cols].
  - now eexists.
  - apply Forall_cons in H as [(s & Hsel & Hs) H].
    rewrite (filter_col_total m df c s Hsel Hs).
    destruct (IH (and_mask m (col_bits df c)) H) as [v' Hv'].
    destruct (Val.filter_cols cols _) as [ext r]. cbn [snd] in *. eauto.
Qed.

(** *** The mask, row by row *)

Lemma col_bits_by_row df c :
  wf df -> names_one df c ->
  col_bits df c = map (fun i => label_ok nonneg df i c) (seq 0 (length (index df))).
Proof.
  intros Hwf Hone. apply names_one_select in Hone as [s Hs].
  unfold col_bits, label_ok. rewrite Hs.
  assert (Hlen : length (cells s) = length (index df)).
  { unfold wf in Hwf. rewrite List.Forall_forall in Hwf.
    apply (Hwf (c, s)). apply select_In. rewrite Hs. now left. }
  rewrite (column_by_position nonneg s _ Hlen). apply map_ext.
  intros i. cbn. now rewrite andb_true_r.
Qed.

Lemma fold_masks_by_row df cols : forall g,
  wf df -> Forall (names_one df) cols ->
  fold_left (fun m c => and_mask m (col_bits df c)) cols
            (map g (seq 0 (length (index df))))
  = map (fun i => g i && forallb (label_ok nonneg df i) cols)
        (seq 0 (length (index df))).
Proof.
  induction cols as [|c cols IH]; intros g Hwf H; cbn [fold_left forallb].
  - apply map_ext. intros i. now rewrite andb_true_r.
  - apply Forall_cons in H as [Hc H].
    rewrite (col_bits_by_row df c Hwf Hc), and_mask_seq, (IH _ Hwf H).
    apply map_ext. intros i. now rewrite andb_assoc.
Qed.

Lemma labels_ok_row_ok p df i :
  forallb (label_ok p df i) (Val.price_cols df ++ Val.qty_cols df) = row_ok p df i.
Proof.
  apply eq_true_iff_eq. unfold row_ok, label_ok. rewrite !forallb_forall. split.
  - intros H [c s] Hcs. cbn [fst snd]. destruct (is_matched c) eqn:Hc; [|reflexivity].
    cbn. assert (Hin : In c (Val.price_cols df ++ Val.qty_cols df)).
    { apply matched_cols. split; [|exact Hc]. apply columns_In. now exists s. }
    specialize (H c Hin). rewrite forallb_forall in H. apply H. now apply select_In.
  - intros H c Hc. apply forallb_forall. intros s Hs.
    apply select_In in Hs. apply matched_cols in Hc as [_ Hc].
    specialize (H (c, s) Hs). cbn in H. now rewrite Hc in H.
Qed.

(** [remove_invalid_rows], when every price or quantity label names
    one column and it returns, has kept the rows whose price and
    quantity cells are all non-negative. *)
Lemma remove_invalid_rows_value df df' :
  wf df -> Forall (names_one df) (Val.price_cols df ++ Val.qty_cols df) ->
  Val.remove_invalid_rows df = Ok df' ->
  df' = frame_take (rows_ok nonneg df) df.
Proof.
  intros Hwf Hone. pose proof Hone as Hall. apply Forall_app in Hone as [H1 H2].
  unfold Val.remove_invalid_rows, result_bind.
  replace (Val.filter_cols (Val.price_cols df) df)
    with (Val.filter_cols (Val.price_cols df)
            (frame_take (repeat true (length (index df))) df))
    by now rewrite frame_take_all.
  destruct (snd (Val.filter_cols (Val.price_cols df)
                   (frame_take (repeat true (length (index df))) df)))
    as [v1|e] eqn:E1; [|discriminate].
  apply (filter_cols_value df _ _ _ H1) in E1 as ->. intros E2.
  apply (filter_cols_value df _ _ _ H2) in E2 as ->.
  f_equal.
  rewrite <- fold_left_app, (repeat_true_seq 0).
  rewrite fold_masks_by_row; [|exact Hwf|exact Hall].
  unfold rows_ok. apply map_ext. intros i. cbn. apply labels_ok_row_ok.
Qed.

Lemma numeric_input_one df :
  numeric_input df -> Forall (names_one df) (Val.price_cols df ++ Val.qty_cols df).
Proof.
  intros Hnum. apply List.Forall_forall. intros c Hc.
  apply matched_cols in Hc as [Hcol Hm]. apply columns_In in Hcol as [s Hs].
  now destruct (Hnum c s Hs Hm).
Qed.

Lemma remove_invalid_rows_total df :
  wf df -> numeric_input df -> exists df', Val.remove_invalid_rows df = Ok df'.
Proof.
  intros Hwf Hnum. unfold Val.remove_invalid_rows, result_bind.
  assert (Hcols : forall cols, (forall c, In c cols -> In c (columns df) /\ is_matched c = true) ->
            Forall (fun c => exists s, select df c = [s]
                              /\ Forall (fun v => is_text v = false) (cells s)) cols).
  { intros cols Hc. apply List.Forall_forall. intros c Hin.
    destruct (Hc c Hin) as [Hcol Hm]. apply columns_In in Hcol as [s Hs].
    destruct (Hnum c s Hs Hm) as [Hone Htext].
    apply names_one_select in Hone as [s' Hs']. exists s'. split; [exact Hs'|].
    assert (s = s') as <-.
    { apply select_In in Hs. rewrite Hs' in Hs. destruct Hs as [<-|[]]. reflexivity. }
    apply List.Forall_forall. intros v Hv. rewrite forallb_forall in Htext.
    specialize (Htext v Hv). now apply negb_true_iff in Htext. }
  replace (Val.filter_cols (Val.price_cols df) df)
    with (Val.filter_cols (Val.price_cols df)
            (frame_take (repeat true (length (index df))) df))
    by now rewrite frame_take_all.
  destruct (filter_cols_total df (Val.price_cols df) (repeat true (length (index df))))
    as [v1 E1].
  { apply Hcols. intros c Hc. apply matched_cols. apply in_app_iff. now left. }
  rewrite E1. apply filter_cols_value in E1 as ->.
  - apply filter_cols_total. apply Hcols. intros c Hc. apply matched_cols.
    apply in_app_iff. now right.
  - apply List.Forall_forall. intros c Hc.
    assert (Hm : In c (columns df) /\ is_matched c = true).
    { apply matched_cols. apply in_app_iff. now left. }
    destruct Hm as [Hcol Hm]. apply columns_In in Hcol as [s Hs].
    now destruct (Hnum c s Hs Hm).
Qed.

End RangeFilter.

(** ** The range filter on a repeated label *)

Section Masked.
Import Pandas.

Lemma same_labels_eq l1 : forall l2, same_labels l1 l2 = true <-> l1 = l2.
Proof.
  induction l1 as [|a l1 IH]; intros [|b l2]; cbn; try (split; congruence).
  rewrite andb_true_iff, String.eqb_eq, IH. split; [intros [-> ->] | intros [= -> ->]]; auto.
Qed.

Lemma uniform_spec df :
  uniform df = true <->
  exists c, (2 <= length (columns df))%nat /\ Forall (eq c) (columns df).
Proof.
  unfold uniform. destruct (columns df) as [|c [|c' l]]; cbn [length].
  - split; [discriminate | intros (c & H & _); lia].
  - split; [discriminate | intros (c0 & H & _); lia].
  - rewrite forallb_forall. split.
    + intros H. exists c. split; [lia|]. constructor; [reflexivity|].
      apply List.Forall_forall. intros x Hx. now apply String.eqb_eq, H.
    + intros (c0 & _ & H) x Hx. apply String.eqb_eq.
      rewrite List.Forall_forall in H. rewrite <- (H c (or_introl eq_refl)).
      apply H. now right.
Qed.

Lemma uniform_columns df df' : columns df' = columns df -> uniform df' = uniform df.
Proof. unfold uniform. now intros ->. Qed.

Lemma uniform_not_one df c : uniform df = true -> ~ names_one df c.
Proof.
  intros H Hone. apply uniform_spec in H as (c0 & Hlen & Hall).
  unfold names_one, occurrences in Hone.
  assert (Hin : In c (columns df)).
  { destruct (List.filter (String.eqb c) (columns df)) as [|x l] eqn:E; [discriminate|].
    assert (Hx : In x (List.filter (String.eqb c) (columns df))) by (rewrite E; now left).
    apply filter_In in Hx as [Hx Hc]. apply String.eqb_eq in Hc. now subst. }
  rewrite List.Forall_forall in Hall. pose proof (Hall c Hin) as <-.
  assert (E : List.filter (String.eqb c0) (columns df) = columns df).
  { apply forallb_filter_id. apply forallb_forall. intros x Hx.
    apply String.eqb_eq. now apply Hall. }
  rewrite E in Hone. lia.
Qed.

(** On a frame whose columns all carry [c], [df[c]] is the frame. *)
Lemma select_all df c : Forall (eq c) (columns df) -> select df c = map snd (data df).
Proof.
  unfold select, columns. intros H. f_equal. apply forallb_filter_id.
  apply forallb_forall. intros cs Hcs. apply String.eqb_eq.
  rewrite List.Forall_forall in H. apply H. now apply in_map.
Qed.

Lemma all_ok_series_ge0 (l : list (string * Series)) ms :
  all_ok (fun cs => series_ge0 (snd cs)) l = Ok ms ->
  ms = map (fun cs => map nonneg (cells (snd cs))) l /\
  Forall (fun cs => Forall (fun v => is_text v = false) (cells (snd cs))) l.
Proof.
  revert ms. induction l as [|cs l IH]; intros ms; cbn [all_ok map].
  - intros [= <-]. now split.
  - unfold series_ge0 at 1. destruct (all_ok cell_ge0 _) as [bits|e] eqn:Hb; [|discriminate].
    destruct (all_ok _ l) as [ms'|e]; [|discriminate]. intros [= <-].
    destruct (IH ms' eq_refl) as [-> Hl]. split.
    + f_equal. now apply all_ok_ge0.
    + constructor; [|exact Hl]. clear -Hb. revert bits Hb.
      induction (cells (snd cs)) as [|v vs IHv]; intros bits; cbn; [constructor|].
      destruct v as [t|z|f|b]; cbn; [discriminate| | |];
        (destruct (all_ok cell_ge0 vs) as [bs|e]; [|discriminate]); intros _;
        (constructor; [reflexivity | now apply (IHv bs)]).
Qed.

Lemma all_ok_series_ge0_total (l : list (string * Series)) :
  Forall (fun cs => Forall (fun v => is_text v = false) (cells (snd cs))) l ->
  all_ok (fun cs => series_ge0 (snd cs)) l
  = Ok (map (fun cs => map nonneg (cells (snd cs))) l).
Proof.
  induction 1 as [|cs l Hcs _ IH]; [reflexivity|]. cbn [all_ok map].
  unfold series_ge0 at 1. now rewrite (all_ok_ge0_total _ Hcs), IH.
Qed.

Lemma frame_where_data_map (g : string * Series -> list bool) (f : string * Series -> string) d :
  frame_where_data (map (fun cs => (f cs, g cs)) d) d
  = map (fun cs => (fst cs, series_where (g cs) (snd cs))) d.
Proof. induction d as [|cs d IH]; cbn; [reflexivity|]. now rewrite IH. Qed.

Lemma data_masked df :
  data (masked df)
  = map (fun cs => (fst cs, series_where (map nonneg (cells (snd cs))) (snd cs))) (data df).
Proof. unfold masked, frame_where, nonneg_cells. cbn [data]. apply frame_where_data_map. Qed.

Lemma columns_masked df : columns (masked df) = columns df.
Proof. unfold columns. rewrite data_masked, map_map. now apply map_ext. Qed.

Lemma where_list_length {A : Type} (l : list A) (bits : list bool) other :
  length bits = length l -> length (where_list bits l other) = length l.
Proof.
  revert bits. induction l as [|x l IH]; intros [|b bits]; cbn; try congruence.
  intros [= H]. now rewrite IH.
Qed.

Lemma where_list_all {A : Type} (l : list A) (bits : list bool) other :
  length bits = length l -> forallb id bits = true -> where_list bits l other = l.
Proof.
  revert bits. induction l as [|x l IH]; intros [|b bits]; cbn; try congruence.
  intros [= H] Hb. apply andb_true_iff in Hb as [-> Hb]. now rewrite IH.
Qed.

Lemma where_list_map {A B : Type} (g : A -> B) (l : list A) (bits : list bool) other :
  map g (where_list bits l other) = where_list bits (map g l) (g other).
Proof.
  revert bits. induction l as [|x l IH]; intros [|b bits]; cbn; try reflexivity.
  rewrite IH. now destruct b.
Qed.

(** The cells of a masked column. *)
Lemma cells_series_where s :
  cells (series_where (map nonneg (cells s)) s)
  = map (fun v => if nonneg v then
                    match s, v with
                    | SInt64 _, VInt z | SUInt64 _, VInt z =>
                        if forallb nonneg (cells s) then v else VFloat (B64.of_Z z)
                    | _, _ => v
                    end
                  else VFloat NaN) (cells s).
Proof.
  assert (Hw : forall (l : list value) (h : value -> value),
             where_list (map nonneg l) (map h l) (VFloat NaN)
             = map (fun v => if nonneg v then h v else VFloat NaN) l).
  { intros l h. induction l as [|v l IH]; cbn; [reflexivity|]. now rewrite IH. }
  assert (Hall : forall l : list value,
             forallb id (map nonneg l) = forallb nonneg l).
  { intros l. induction l as [|v l IH]; cbn; [reflexivity|]. now rewrite IH. }
  destruct s as [l|l|l|l|l]; cbn [series_where cells].
  - rewrite <- (map_id l) at 2. rewrite Hw. apply map_ext. intros v. now destruct (nonneg v).
  - rewrite Hall. destruct (forallb nonneg (map VInt l)) eqn:E; cbn [cells].
    + transitivity (map (fun v : value => v) (map VInt l)); [now rewrite map_id|].
      apply map_ext_in. intros v Hv. pose proof E as E'.
      rewrite forallb_forall in E'. rewrite (E' v Hv).
      now apply in_map_iff in Hv as (z & <- & _).
    + rewrite where_list_map, !map_map.
      rewrite <- (map_map VInt nonneg), <- (map_map VInt (fun v => VFloat (B64.of_Z
                match v with VInt z => z | _ => 0%Z end))) .
      rewrite Hw, map_map. apply map_ext. intros z. cbn beta.
      now destruct (nonneg (VInt z)).
  - rewrite Hall. destruct (forallb nonneg (map VInt l)) eqn:E; cbn [cells].
    + transitivity (map (fun v : value => v) (map VInt l)); [now rewrite map_id|].
      apply map_ext_in. intros v Hv. pose proof E as E'.
      rewrite forallb_forall in E'. rewrite (E' v Hv).
      now apply in_map_iff in Hv as (z & <- & _).
    + rewrite where_list_map, !map_map.
      rewrite <- (map_map VInt nonneg), <- (map_map VInt (fun v => VFloat (B64.of_Z
                match v with VInt z => z | _ => 0%Z end))) .
      rewrite Hw, map_map. apply map_ext. intros z. cbn beta.
      now destruct (nonneg (VInt z)).
  - rewrite where_list_map. change (VFloat NaN) with ((fun v => v) (VFloat NaN)).
    rewrite <- (map_id (map VFloat l)) at 2. rewrite Hw, !map_map. apply map_ext.
    intros f. now destruct (nonneg (VFloat f)).
  - rewrite Hall.
    assert (E : forallb nonneg (map VBool l) = true).
    { apply forallb_forall. intros v Hv. apply in_map_iff in Hv as (b & <- & _). reflexivity. }
    rewrite E. cbn [cells].
    transitivity (map (fun v : value => v) (map VBool l)); [now rewrite map_id|].
    apply map_ext_in. intros v Hv.
    apply in_map_iff in Hv as (b & <- & _). reflexivity.
Qed.

Lemma length_series_where s :
  length (cells (series_where (map nonneg (cells s)) s)) = length (cells s).
Proof. rewrite cells_series_where. apply length_map. Qed.

Lemma wf_masked df : wf df -> wf (masked df).
Proof.
  unfold wf. rewrite data_masked. intros H. apply Forall_map.
  eapply Forall_impl; [exact H|]. intros cs E. cbn [snd].
  rewrite length_series_where. exact E.
Qed.

Lemma nonneg_where_cell (s : Series) v :
  is_text v = false ->
  nonneg (if nonneg v then
            match s, v with
            | SInt64 _, VInt z | SUInt64 _, VInt z =>
                if forallb nonneg (cells s) then v else VFloat (B64.of_Z z)
            | _, _ => v
            end
          else VFloat NaN) = nonneg v.
Proof.
  intros Ht. destruct (nonneg v) eqn:E; [|reflexivity].
  assert (Hint : forall z, nonneg (VInt z) = true ->
            nonneg (if forallb nonneg (cells s) then VInt z else VFloat (B64.of_Z z)) = true).
  { intros z Hz. destruct (forallb nonneg (cells s)); [exact Hz|].
    cbn in Hz. cbn. apply of_Z_ge0. now apply Z.leb_le. }
  destruct s, v; trivial; now apply Hint.
Qed.

(** Masking a second time changes nothing. *)
Lemma series_where_idem s :
  Forall (fun v => is_text v = false) (cells s) ->
  let s' := series_where (map nonneg (cells s)) s in
  series_where (map nonneg (cells s')) s' = s'.
Proof.
  intros Ht s'.
  assert (Hbits : map nonneg (cells s') = map nonneg (cells s)).
  { unfold s'. rewrite cells_series_where, map_map. apply map_ext_in. intros v Hv.
    apply nonneg_where_cell. rewrite List.Forall_forall in Ht. now apply Ht. }
  rewrite Hbits. unfold s'. clear s' Hbits.
  assert (Hw : forall (A : Type) (bits : list bool) (l : list A) other,
             where_list bits (where_list bits l other) other = where_list bits l other).
  { intros A bits. induction bits as [|b bits IH]; intros [|x l] other; cbn; try reflexivity.
    rewrite IH. now destruct b. }
  destruct s as [l|l|l|l|l]; cbn [series_where cells].
  - now rewrite Hw.
  - destruct (forallb id (map nonneg (map VInt l))) eqn:E; cbn [series_where cells].
    + now rewrite E.
    + now rewrite Hw.
  - destruct (forallb id (map nonneg (map VInt l))) eqn:E; cbn [series_where cells].
    + now rewrite E.
    + now rewrite Hw.
  - now rewrite Hw.
  - destruct (forallb id (map nonneg (map VBool l))) eqn:E; cbn [series_where cells].
    + now rewrite E.
    + now rewrite Hw.
Qed.

Lemma no_text_masked df : no_text df -> no_text (masked df).
Proof.
  unfold no_text. rewrite data_masked. intros H. apply Forall_map.
  eapply Forall_impl; [exact H|]. intros cs Hcs. cbn [snd].
  rewrite cells_series_where. apply Forall_map.
  eapply Forall_impl; [exact Hcs|]. intros v Hv. cbn beta.
  destruct (nonneg v); [|reflexivity].
  destruct (snd cs), v; trivial; now destruct (forallb nonneg _).
Qed.

Lemma masked_idem df : no_text df -> masked (masked df) = masked df.
Proof.
  intros H. unfold masked at 1. unfold frame_where, nonneg_cells.
  rewrite frame_where_data_map. 
  assert (E : map (fun cs => (fst cs, series_where (map nonneg (cells (snd cs))) (snd cs)))
                (data (masked df)) = data (masked df)).
  { rewrite data_masked, map_map. apply map_ext_in. intros cs Hcs. cbn [fst snd].
    f_equal. apply series_where_idem. unfold no_text in H.
    rewrite List.Forall_forall in H. now apply H. }
  rewrite E. now destruct (masked df).
Qed.

(** One pass of the loop, when [df[col]] is a frame. *)
Lemma filter_col_uniform v c v' :
  uniform v = true -> Val.filter_col v c = Ok v' ->
  v' = masked v /\ no_text v /\ In c (columns v).
Proof.
  intros Hu. pose proof (uniform_not_one v c Hu) as Hnot.
  apply uniform_spec in Hu as (c0 & Hlen & Hall).
  unfold Val.filter_col, result_bind, getitem.
  destruct (select v c) as [|s [|s' l]] eqn:Hsel; [discriminate| |].
  - exfalso. apply Hnot. apply names_one_select. eauto.
  - assert (Hc : In c (columns v)).
    { apply columns_In. exists s. apply select_In. rewrite Hsel. now left. }
    rewrite List.Forall_forall in Hall. pose proof (Hall c Hc) as ->.
    assert (Hall' : Forall (eq c) (columns v)) by now apply List.Forall_forall.
    rewrite <- Hsel, (select_all v c Hall'). cbn [ge0].
    destruct (all_ok _ _) as [ms|e] eqn:Hms; [|discriminate].
    apply all_ok_series_ge0 in Hms as [-> Htext]. cbn [getitem_mask].
    destruct (same_labels _ _); [|discriminate]. intros [= <-].
    assert (Hd : map (pair c) (map snd (data v)) = data v).
    { rewrite map_map. rewrite <- (map_id (data v)) at 2. apply map_ext_in.
      intros [c1 s1] Hcs. cbn. f_equal. apply Hall. now apply (in_map fst) in Hcs. }
    rewrite Hd in *. split; [|split; [exact Htext | exact Hc]].
    unfold masked, nonneg_cells. f_equal.
    generalize (data v). intros d.
    induction d as [|cs d IH]; cbn; [reflexivity|]. now rewrite IH.
Qed.

Lemma filter_col_uniform_total v c :
  uniform v = true -> no_text v -> In c (columns v) ->
  Val.filter_col v c = Ok (masked v).
Proof.
  intros Hu Htext Hc. apply uniform_spec in Hu as (c0 & Hlen & Hall).
  rewrite List.Forall_forall in Hall. pose proof (Hall c Hc) as ->.
  assert (Hall' : Forall (eq c) (columns v)) by now apply List.Forall_forall.
  unfold Val.filter_col, result_bind, getitem. rewrite (select_all v c Hall').
  assert (Hd : map (pair c) (map snd (data v)) = data v).
  { rewrite map_map. rewrite <- (map_id (data v)) at 2. apply map_ext_in.
    intros [c1 s1] Hcs. cbn. f_equal. apply Hall. now apply (in_map fst) in Hcs. }
  assert (Hlen' : (2 <= length (map snd (data v)))%nat).
  { unfold columns in Hlen. now rewrite length_map in *. }
  remember (map snd (data v)) as ss eqn:Hs.
  destruct ss as [|s [|s' l]]; cbn [length] in Hlen'; [lia|lia|].
  cbv beta iota.
  rewrite Hd. cbn [ge0]. rewrite (all_ok_series_ge0_total _ Htext).
  cbn [getitem_mask].
  assert (Hl : map fst (combine (map fst (data v))
                          (map (fun cs => map nonneg (cells (snd cs))) (data v)))
               = columns v).
  { unfold columns. generalize (data v). intros d.
    induction d as [|cs d IH]; cbn; [reflexivity|]. now rewrite IH. }
  rewrite Hl, (proj2 (same_labels_eq _ _) eq_refl). f_equal.
  unfold masked, nonneg_cells. f_equal.
  generalize (data v). intros d.
  induction d as [|cs d IH]; cbn; [reflexivity|]. now rewrite <- IH.
Qed.

(** One pass of the loop on a frame whose columns do not all carry
    one label: the label names one column, and rows are selected. *)
Lemma filter_col_one v c v' :
  uniform v = false ->
  Val.filter_col v c = Ok v' -> names_one v c /\ exists m, v' = frame_take m v.
Proof.
  intros Hu. unfold Val.filter_col, result_bind, getitem.
  destruct (select v c) as [|s [|s' l]] eqn:Hsel; [discriminate| |].
  - cbn [ge0]. destruct (series_ge0 s) as [m|e]; [|discriminate]. cbn [getitem_mask].
    intros [= <-]. split; [apply names_one_select; eauto | eauto].
  - cbn [ge0]. destruct (all_ok _ _) as [ms|e] eqn:Hms; [|discriminate].
    apply all_ok_series_ge0 in Hms as [-> _]. cbn [getitem_mask].
    destruct (same_labels _ _) eqn:Hl; [|discriminate]. intros _. exfalso.
    apply same_labels_eq in Hl.
    assert (Hu' : uniform v = true).
    { apply uniform_spec. exists c. rewrite <- Hl. cbn [map combine length]. split; [lia|].
      constructor; [reflexivity|]. constructor; [reflexivity|].
      apply List.Forall_forall. intros x Hx. apply in_map_iff in Hx as ([c1 b1] & <- & Hx).
      apply in_combine_l in Hx. apply in_map_iff in Hx as ([c2 s2] & E & Hx).
      apply in_map_iff in Hx as (s3 & [= <- <-] & _). cbn in E. cbn. congruence. }
    congruence.
Qed.

Lemma filter_cols_one cols : forall v v',
  uniform v = false ->
  snd (Val.filter_cols cols v) = Ok v' -> Forall (names_one v) cols.
Proof.
  induction cols as [|c cols IH]; intros v v' Hu; cbn [Val.filter_cols]; [constructor|].
  destruct (Val.filter_col v c) as [v1|e] eqn:E1; [|discriminate].
  apply (filter_col_one v c v1 Hu) in E1 as (Hc & m & ->).
  destruct (Val.filter_cols cols _) as [ext r] eqn:E. cbn [snd]. intros Hr.
  constructor; [exact Hc|].
  assert (Hu' : uniform (frame_take m v) = false).
  { rewrite (uniform_columns v); [exact Hu | apply columns_frame_take]. }
  specialize (IH (frame_take m v) v' Hu'). rewrite E in IH.
  eapply Forall_impl; [exact (IH Hr)|]. intros x. unfold names_one.
  now rewrite columns_frame_take.
Qed.

Lemma filter_cols_columns cols : forall v v',
  snd (Val.filter_cols cols v) = Ok v' -> columns v' = columns v.
Proof.
  induction cols as [|c cols IH]; intros v v'; cbn [Val.filter_cols].
  - cbn. now intros [= <-].
  - destruct (Val.filter_col v c) as [v1|e] eqn:E1; [|discriminate].
    destruct (Val.filter_cols cols v1) as [ext r] eqn:E. cbn [snd]. intros Hr.
    specialize (IH v1 v'). rewrite E in IH. rewrite (IH Hr).
    destruct (uniform v) eqn:Hu.
    + apply (filter_col_uniform v c v1 Hu) in E1 as (-> & _). apply columns_masked.
    + apply (filter_col_one v c v1 Hu) in E1 as (_ & m & ->). apply columns_frame_take.
Qed.

(** The loop on a frame whose columns all carry one label. *)
Lemma filter_cols_uniform cols : forall v v',
  uniform v = true ->
  snd (Val.filter_cols cols v) = Ok v' ->
  match cols with
  | [] => v' = v
  | _ :: _ => v' = masked v /\ no_text v /\ Forall (fun c => In c (columns v)) cols
  end.
Proof.
  induction cols as [|c cols IH]; intros v v' Hu; cbn [Val.filter_cols].
  - cbn. now intros [= <-].
  - destruct (Val.filter_col v c) as [v1|e] eqn:E1; [|discriminate].
    apply (filter_col_uniform v c v1 Hu) in E1 as (-> & Ht & Hc).
    destruct (Val.filter_cols cols _) as [ext r] eqn:E. cbn [snd]. intros Hr.
    assert (Hu' : uniform (masked v) = true).
    { rewrite (uniform_columns v); [exact Hu | apply columns_masked]. }
    specialize (IH (masked v) v' Hu'). rewrite E in IH. specialize (IH Hr).
    destruct cols as [|c' cols'].
    + subst v'. repeat split; trivial. constructor; [exact Hc | constructor].
    + destruct IH as (-> & _ & Hcs). split; [now apply masked_idem|].
      split; [exact Ht|]. constructor; [exact Hc|].
      eapply Forall_impl; [exact Hcs|]. intros x. cbn beta. now rewrite columns_masked.
Qed.

Lemma filter_cols_uniform_total cols : forall v,
  uniform v = true -> no_text v -> Forall (fun c => In c (columns v)) cols ->
  snd (Val.filter_cols cols v) = Ok (match cols with [] => v | _ :: _ => masked v end).
Proof.
  induction cols as [|c cols IH]; intros v Hu Ht Hcs; cbn [Val.filter_cols]; [reflexivity|].
  apply Forall_cons in Hcs as [Hc Hcs].
  rewrite (filter_col_uniform_total v c Hu Ht Hc).
  assert (Hu' : uniform (masked v) = true).
  { rewrite (uniform_columns v); [exact Hu | apply columns_masked]. }
  assert (Hcs' : Forall (fun c => In c (columns (masked v))) cols).
  { eapply Forall_impl; [exact Hcs|]. intros x. cbn beta. now rewrite columns_masked. }
  specialize (IH (masked v) Hu' (no_text_masked v Ht) Hcs').
  destruct (Val.filter_cols cols (masked v)) as [ext r]. cbn [snd] in *. rewrite IH.
  destruct cols; [reflexivity|]. now rewrite masked_idem.
Qed.

(** [remove_invalid_rows] on a frame whose columns all carry one
    label: nothing to do when the label is no price or quantity label;
    otherwise the cells that are not [>= 0] are masked and every row
    stays. *)
Lemma remove_invalid_rows_uniform df df' :
  uniform df = true -> Val.remove_invalid_rows df = Ok df' ->
  match Val.price_cols df ++ Val.qty_cols df with
  | [] => df' = df
  | _ :: _ => df' = masked df /\ no_text df
  end.
Proof.
  intros Hu. unfold Val.remove_invalid_rows, result_bind.
  destruct (snd (Val.filter_cols (Val.price_cols df) df)) as [v1|e] eqn:E1; [|discriminate].
  intros E2. apply (filter_cols_uniform _ _ _ Hu) in E1.
  destruct (Val.price_cols df) as [|p ps] eqn:Hp; cbn [app].
  - subst v1. apply (filter_cols_uniform _ _ _ Hu) in E2.
    destruct (Val.qty_cols df); [exact E2 | now destruct E2 as (-> & Ht & _)].
  - destruct E1 as (-> & Ht & _). split; [|exact Ht].
    assert (Hu' : uniform (masked df) = true).
    { rewrite (uniform_columns df); [exact Hu | apply columns_masked]. }
    apply (filter_cols_uniform _ _ _ Hu') in E2.
    destruct (Val.qty_cols df); [exact E2|]. destruct E2 as (-> & _ & _).
    now apply masked_idem.
Qed.

Lemma remove_invalid_rows_uniform_total df :
  uniform df = true -> no_text df ->
  Val.remove_invalid_rows df
  = Ok (match Val.price_cols df ++ Val.qty_cols df with [] => df | _ :: _ => masked df end).
Proof.
  intros Hu Ht. unfold Val.remove_invalid_rows, result_bind.
  assert (Hin : forall p, Forall (fun c => In c (columns df)) (List.filter p (columns df))).
  { intros p. apply List.Forall_forall. intros c Hc. now apply filter_In in Hc. }
  rewrite (filter_cols_uniform_total (Val.price_cols df) df Hu Ht (Hin is_price)).
  destruct (Val.price_cols df) as [|p ps] eqn:Hp; cbn [app].
  - rewrite (filter_cols_uniform_total (Val.qty_cols df) df Hu Ht (Hin is_qty)). reflexivity.
  - assert (Hu' : uniform (masked df) = true).
    { rewrite (uniform_columns df); [exact Hu | apply columns_masked]. }
    assert (Hin' : Forall (fun c => In c (columns (masked df))) (Val.qty_cols df)).
    { rewrite columns_masked. apply Hin. }
    rewrite (filter_cols_uniform_total (Val.qty_cols df) (masked df) Hu'
               (no_text_masked df Ht) Hin').
    destruct (Val.qty_cols df); [reflexivity|]. now rewrite masked_idem.
Qed.

(** When the columns do not all carry one label, [remove_invalid_rows]
    returns only if every price or quantity label names one column. *)
Lemma remove_invalid_rows_one df df' :
  uniform df = false -> Val.remove_invalid_rows df = Ok df' ->
  Forall (names_one df) (Val.price_cols df ++ Val.qty_cols df).
Proof.
  intros Hu. unfold Val.remove_invalid_rows, result_bind.
  destruct (snd (Val.filter_cols (Val.price_cols df) df)) as [v1|e] eqn:E1; [|discriminate].
  intros E2. apply Forall_app. split; [now apply (filter_cols_one _ df v1)|].
  pose proof (filter_cols_columns _ _ _ E1) as Hc.
  assert (Hu1 : uniform v1 = false) by now rewrite (uniform_columns df).
  eapply Forall_impl; [exact (filter_cols_one _ v1 df' Hu1 E2)|].
  intros x. unfold names_one. now rewrite Hc.
Qed.

(** [remove_invalid_rows] never drops a row from a frame with a
    repeated price or quantity label. *)
Lemma remove_invalid_rows_repeated df df' :
  Val.remove_invalid_rows df = Ok df' ->
  ~ Forall (names_one df) (Val.price_cols df ++ Val.qty_cols df) ->
  df' = masked df /\ no_text df /\ uniform df = true.
Proof.
  intros H Hnot. destruct (uniform df) eqn:Hu.
  - apply (remove_invalid_rows_uniform df df' Hu) in H.
    destruct (Val.price_cols df ++ Val.qty_cols df) as [|c l].
    + exfalso. apply Hnot. constructor.
    + now destruct H.
  - exfalso. apply Hnot. now apply (remove_invalid_rows_one df df').
Qed.

Lemma remove_invalid_rows_columns df df' :
  Val.remove_invalid_rows df = Ok df' -> columns df' = columns df.
Proof.
  unfold Val.remove_invalid_rows, result_bind.
  destruct (snd (Val.filter_cols (Val.price_cols df) df)) as [v1|e] eqn:E1; [|discriminate].
  intros E2. apply filter_cols_columns in E1, E2. congruence.
Qed.

(** Filtering a second time changes nothing, when the first pass has
    masked cells. *)
Lemma remove_invalid_rows_uniform_again df df' :
  uniform df = true -> Val.remove_invalid_rows df = Ok df' ->
  Val.remove_invalid_rows df' = Ok df'.
Proof.
  intros Hu H. pose proof H as H'.
  apply (remove_invalid_rows_uniform df df' Hu) in H'.
  destruct (Val.price_cols df ++ Val.qty_cols df) as [|c l] eqn:E.
  - now subst df'.
  - destruct H' as [-> Ht].
    assert (Hu' : uniform (masked df) = true).
    { rewrite (uniform_columns df); [exact Hu | apply columns_masked]. }
    rewrite (remove_invalid_rows_uniform_total (masked df) Hu' (no_text_masked df Ht)).
    destruct (Val.price_cols (masked df) ++ Val.qty_cols (masked df)); [reflexivity|].
    now rewrite masked_idem.
Qed.

End Masked.

(** ** Renaming the columns *)

Section Renaming.
Import Pandas.

Lemma combine_fst {A B : Type} (l : list A) (l' : list B) :
  length l = length l' -> map fst (combine l l') = l.
Proof.
  revert l'. induction l as [|x l IH]; intros [|y l'] H; cbn in *;
    try reflexivity; try discriminate.
  f_equal. apply IH. lia.
Qed.

Lemma combine_snd {A B : Type} (l : list A) (l' : list B) :
  length l = length l' -> map snd (combine l l') = l'.
Proof.
  revert l'. induction l as [|x l IH]; intros [|y l'] H; cbn in *;
    try reflexivity; try discriminate.
  f_equal. apply IH. lia.
Qed.

(** [clean_column_names] always returns: the labels are replaced one
    for one. *)
Lemma clean_column_names_value df :
  Val.clean_column_names df
  = Ok {| index := index df;
          data := combine (map clean_name (columns df)) (map snd (data df)) |}.
Proof.
  unfold Val.clean_column_names, set_columns.
  replace (map Text.replace_nonword (map Text.lower (map Text.strip (columns df))))
    with (map clean_name (columns df)) by (now rewrite !map_map).
  unfold columns. now rewrite !length_map, Nat.eqb_refl.
Qed.

Lemma clean_column_names_columns df df' :
  Val.clean_column_names df = Ok df' ->
  index df' = index df /\ map snd (data df') = map snd (data df) /\
  columns df' = map clean_name (columns df).
Proof.
  rewrite clean_column_names_value. intros [= <-]. cbn. unfold columns. repeat split.
  - apply combine_snd. now rewrite !length_map.
  - apply combine_fst. now rewrite !length_map.
Qed.

Lemma rstrip_spaces post :
  Text.all_chars Text.isspace post = true -> Text.rstrip post = "".
Proof.
  induction post as [|c post IH]; cbn; [reflexivity|].
  intros H. apply andb_true_iff in H as [Hc Hp]. now rewrite Hc, (IH Hp).
Qed.

Lemma rstrip_app_spaces t post :
  Text.all_chars Text.isspace post = true ->
  Text.rstrip (t ++ post)%string = Text.rstrip t.
Proof.
  intros Hp. induction t as [|c t IH]; cbn; [now apply rstrip_spaces|]. now rewrite IH.
Qed.

Lemma rstrip_id t :
  (forall c, Text.last_char t = Some c -> Text.isspace c = false) -> Text.rstrip t = t.
Proof.
  induction t as [|c t IH]; [reflexivity|]. intros H. cbn [Text.rstrip].
  destruct t as [|c' t].
  - cbn. now rewrite (H c eq_refl).
  - rewrite IH; [|intros x Hx; apply H; exact Hx]. cbn. now rewrite andb_false_r.
Qed.

Lemma lstrip_app_spaces pre t :
  Text.all_chars Text.isspace pre = true ->
  Text.lstrip (pre ++ t)%string = Text.lstrip t.
Proof.
  induction pre as [|c pre IH]; cbn; [reflexivity|].
  intros H. apply andb_true_iff in H as [Hc Hp]. now rewrite Hc, (IH Hp).
Qed.

(** The trimmed text is determined: it is [strip]. *)
Lemma trimmed_unique s t : Trimmed s t -> t = Text.strip s.
Proof.
  intros (pre & post & -> & Hpre & Hpost & Hfirst & Hlast). unfold Text.strip.
  rewrite (lstrip_app_spaces pre _ Hpre).
  destruct t as [|c t].
  - cbn [String.append]. destruct (lstrip_split post) as (p & E & _).
    assert (Hl : Text.all_chars Text.isspace (Text.lstrip post) = true).
    { rewrite E, all_chars_app in Hpost. now apply andb_true_iff in Hpost as [_ H]. }
    symmetry. now apply rstrip_spaces.
  - cbn [String.append Text.lstrip]. rewrite (Hfirst c eq_refl).
    change (String c (t ++ post)%string) with (String c t ++ post)%string.
    rewrite (rstrip_app_spaces _ post Hpost). symmetry. now apply rstrip_id.
Qed.

Lemma normalized_iff c r : Normalized c r <-> r = clean_name c.
Proof.
  split.
  - intros (core & Ht & Hr). apply trimmed_unique in Ht. subst core.
    now apply runs_replaced_unique in Hr.
  - intros ->. apply clean_name_normalized.
Qed.

End Renaming.

(** ** The store across a stage *)

Section StoreFrame.

Lemma fresh_of_computes m h r : computes m h r -> fresh_result m h.
Proof.
  intros (ext & E & H). exists ext. split; [exact E|]. split.
  - intros k v Hk. rewrite E. now apply lookup_app_l_Some.
  - intros l' Hl'. rewrite Hl' in H. destruct r as [v|e]; [|tauto].
    destruct H as [Hle Hv]. split; [exact Hle | now apply lookup_lt_Some in Hv].
Qed.

Lemma fresh_of_bad (m : M loc) h : m h = (h, Raised BadRef) -> fresh_result m h.
Proof.
  intros E. exists []. rewrite E, app_nil_r. cbn. repeat split; trivial; discriminate.
Qed.

Lemma fresh_stage (stage : loc -> M loc) (val : DataFrame -> result DataFrame) h l :
  (forall df, h !! l = Some df -> computes (stage l) h (val df)) ->
  (h !! l = None -> stage l h = (h, Raised BadRef)) ->
  fresh_result (stage l) h.
Proof.
  intros Hsome Hnone. destruct (h !! l) as [df|] eqn:E.
  - eapply fresh_of_computes. now apply Hsome.
  - apply fresh_of_bad. now apply Hnone.
Qed.

Lemma bind_copy_bad {A : Type} (k : loc -> M A) h l :
  h !! l = None -> bind (Py.copy l) k h = (h, Raised BadRef).
Proof. intros E. apply bind_raised. now apply copy_bad. Qed.

Lemma bind_ret_r (m : M loc) h : bind m (fun x => ret x) h = m h.
Proof. unfold bind, ret. now destruct (m h) as [h' [a|e]]. Qed.

Lemma computes_ext (m m' : M loc) h r : m h = m' h -> computes m h r -> computes m' h r.
Proof. unfold computes. now intros ->. Qed.

(** Two stages in a row. *)
Lemma computes_bind (m : M loc) (k : loc -> M loc) h r
    (val : DataFrame -> result DataFrame) :
  computes m h r ->
  (forall h' l v, h' !! l = Some v -> computes (k l) h' (val v)) ->
  computes (bind m k) h (result_bind r val).
Proof.
  intros (ext & E & H) Hk. unfold computes, bind.
  destruct (m h) as [h1 [l1|e]]; cbn [fst snd] in *; subst h1.
  - destruct r as [v1|e]; [|tauto]. destruct H as [Hle Hv]. cbn [result_bind].
    destruct (Hk _ _ _ Hv) as (ext2 & E2 & H2).
    exists (ext ++ ext2). rewrite E2, app_assoc. split; [reflexivity|].
    destruct (snd (k l1 (h ++ ext))) as [l2|e], (val v1) as [v2|e']; try tauto.
    destruct H2 as [Hle2 Hv2]. split; [rewrite length_app in Hle2; lia | exact Hv2].
  - destruct r as [v1|e']; [tauto|]. subst e'. exists ext. now split.
Qed.

Lemma runs_main list_of_set h l df :
  h !! l = Some df ->
  computes (main list_of_set l) h (Val.main list_of_set df).
Proof.
  intros Hl. unfold main, Val.main.
  apply computes_bind; [now apply runs_clean_column_names|].
  intros h1 l1 v1 H1. apply computes_bind; [now apply runs_strip_text_columns|].
  intros h2 l2 v2 H2. apply computes_bind; [now apply runs_handle_missing_values|].
  intros h3 l3 v3 H3.
  apply (computes_ext (remove_invalid_rows l3)); [now rewrite bind_ret_r|].
  now apply runs_remove_invalid_rows.
Qed.

Lemma eval_main list_of_set df :
  eval (main list_of_set) df = Val.main list_of_set df.
Proof. apply eval_computes. now apply runs_main. Qed.

End StoreFrame.

(** ** The order of the rows *)

Section RowOrder.
Import Pandas.

Lemma rows_take_sublist m df : rows (frame_take m df) `sublist_of` rows df.
Proof. rewrite rows_frame_take. apply take_rows_sublist. Qed.

Lemma filter_col_rows v c v' :
  names_one v c -> Val.filter_col v c = Ok v' -> rows v' `sublist_of` rows v.
Proof.
  intros Hone. apply names_one_select in Hone as [s Hs].
  unfold Val.filter_col, result_bind, getitem. rewrite Hs. cbn [ge0].
  destruct (series_ge0 s) as [m|e]; [|discriminate]. cbn [getitem_mask].
  intros [= <-]. apply rows_take_sublist.
Qed.

Lemma filter_cols_rows cols : forall v v',
  Forall (names_one v) cols ->
  snd (Val.filter_cols cols v) = Ok v' -> rows v' `sublist_of` rows v.
Proof.
  induction cols as [|c cols IH]; intros v v' Hone; cbn [Val.filter_cols].
  - cbn. now intros [= <-].
  - apply Forall_cons in Hone as [Hc Hone].
    destruct (Val.filter_col v c) as [v1|e] eqn:E1; [|discriminate].
    pose proof (filter_col_rows v c v1 Hc E1) as Hr1.
    assert (Hcols : columns v1 = columns v).
    { apply (filter_cols_columns [c] v v1). cbn [Val.filter_cols]. now rewrite E1. }
    assert (Hone1 : Forall (names_one v1) cols).
    { eapply Forall_impl; [exact Hone|]. intros x. unfold names_one. now rewrite Hcols. }
    specialize (IH v1 v' Hone1).
    destruct (Val.filter_cols cols v1) as [ext r]. cbn [snd] in *.
    intros Hr. etransitivity; [now apply IH | exact Hr1].
Qed.

(** Under labels that each name one column, the rows
    [remove_invalid_rows] returns are rows of its input, in order. *)
Lemma remove_invalid_rows_rows df df' :
  Forall (names_one df) (Val.price_cols df ++ Val.qty_cols df) ->
  Val.remove_invalid_rows df = Ok df' -> rows df' `sublist_of` rows df.
Proof.
  intros Hone. apply Forall_app in Hone as [H1 H2].
  unfold Val.remove_invalid_rows, result_bind.
  destruct (snd (Val.filter_cols (Val.price_cols df) df)) as [v1|e] eqn:E1; [|discriminate].
  intros E2. pose proof (filter_cols_columns _ _ _ E1) as Hc.
  apply (filter_cols_rows _ _ _ H1) in E1. apply filter_cols_rows in E2.
  - etransitivity; [exact E2 | exact E1].
  - eapply Forall_impl; [exact H2|]. intros x. unfold names_one. now rewrite Hc.
Qed.

Lemma index_masked df : index (masked df) = index df.
Proof. reflexivity. Qed.

Lemma sublist_map {A B : Type} (f : A -> B) (l1 l2 : list A) :
  l1 `sublist_of` l2 -> map f l1 `sublist_of` map f l2.
Proof. induction 1; cbn; [constructor | now apply sublist_skip | now apply sublist_cons]. Qed.

Lemma rows_index df : map fst (rows df) = index df.
Proof. apply rows_of_index. Qed.

Lemma sublist_index df df' :
  rows df' `sublist_of` rows df -> index df' `sublist_of` index df.
Proof. intros H. rewrite <- !rows_index. now apply sublist_map. Qed.

(** In every case the row labels [remove_invalid_rows] returns are
    row labels of its input, in order. *)
Lemma remove_invalid_rows_index df df' :
  Val.remove_invalid_rows df = Ok df' -> index df' `sublist_of` index df.
Proof.
  intros H. destruct (uniform df) eqn:Hu.
  - apply (remove_invalid_rows_uniform df df' Hu) in H.
    destruct (Val.price_cols df ++ Val.qty_cols df); [now subst|].
    destruct H as [-> _]. reflexivity.
  - apply sublist_index. apply remove_invalid_rows_rows; [|exact H].
    now apply (remove_invalid_rows_one df df').
Qed.

Lemma handle_missing_values_rows list_of_set df df' :
  Val.handle_missing_values list_of_set df = Ok df' ->
  rows df' `sublist_of` rows (with_numeric_columns df).
Proof.
  unfold Val.handle_missing_values, result_bind.
  destruct (Val.outcome _) as [v|e] eqn:Hout; [|discriminate].
  apply to_numeric_outcome in Hout as [_ ->]. rewrite update_frame_matched.
  destruct (list_of_set _) as [|c req]; [now intros [= <-]|].
  unfold dropna. destruct (forallb _ _); [|discriminate].
  intros [= <-]. apply rows_take_sublist.
Qed.

Lemma index_with_numeric df : index (with_numeric_columns df) = index df.
Proof. reflexivity. Qed.

Lemma clean_column_names_rows df df' :
  Val.clean_column_names df = Ok df' -> rows df' = rows df.
Proof.
  intros H. apply clean_column_names_columns in H as (Hi & Hd & _).
  unfold rows. rewrite Hi. f_equal.
  rewrite <- (map_map snd cells), <- (map_map snd cells (data df)). now rewrite Hd.
Qed.

Lemma strip_text_columns_value text_columns df df' :
  Val.strip_text_columns text_columns df = Ok df' <->
  Forall (names_one df) (Val.selected text_columns df) /\
  df' = update_frame trimmed_text (Val.selected text_columns df) df.
Proof. unfold Val.strip_text_columns. apply strip_outcome. Qed.

End RowOrder.

(** ** Running the sanitizer again *)

Section Idempotence.
Import Pandas.

Lemma is_object_take m s : is_object (series_take m s) = is_object s.
Proof. now destruct s. Qed.

Lemma to_numeric_fixed s : is_object s = false -> series_to_numeric s = s.
Proof. now destruct s. Qed.

Lemma is_number_notna v : is_number v = true -> notna v = true.
Proof. now destruct v as [t|z|[]|b]. Qed.

Lemma cols_of_columns df df' :
  columns df' = columns df ->
  Val.price_cols df' ++ Val.qty_cols df' = Val.price_cols df ++ Val.qty_cols df.
Proof. unfold Val.price_cols, Val.qty_cols. now intros ->. Qed.

Lemma names_one_columns df df' c :
  columns df' = columns df -> names_one df c -> names_one df' c.
Proof. unfold names_one. now intros ->. Qed.

Lemma sanitized_columns_numeric df c s :
  In (c, s) (data (frame_take (rows_ok notna (with_numeric_columns df)) (with_numeric_columns df))) ->
  is_matched c = true -> is_object s = false.
Proof.
  cbn [frame_take data with_numeric_columns]. rewrite map_map.
  intros Hcs Hc. apply in_map_iff in Hcs as ([c0 s0] & E & _).
  unfold numeric_column in E. cbn [fst snd] in E.
  destruct (is_matched c0) eqn:Hc0; cbn [fst snd] in E; injection E as <- <-; [|congruence].
  rewrite is_object_take. apply to_numeric_not_object.
Qed.

Lemma with_numeric_fixed df :
  (forall c s, In (c, s) (data df) -> is_matched c = true -> is_object s = false) ->
  with_numeric_columns df = df.
Proof.
  intros H. destruct df as [idx d]. unfold with_numeric_columns. cbn in *. f_equal.
  rewrite <- (map_id d) at 2. apply map_ext_in. intros [c s] Hcs.
  unfold numeric_column. cbn. destruct (is_matched c) eqn:Hc; [|reflexivity].
  now rewrite (to_numeric_fixed s (H c s Hcs Hc)).
Qed.

Lemma rows_ok_all p df :
  wf df ->
  (forall c s v, In (c, s) (data df) -> is_matched c = true -> In v (cells s) -> p v = true) ->
  rows_ok p df = repeat true (length (index df)).
Proof.
  intros Hwf H. unfold rows_ok. rewrite (repeat_true_seq 0). apply map_ext_in.
  intros i Hi. apply in_seq in Hi. unfold row_ok. apply forallb_forall.
  intros [c s] Hcs. cbn [fst snd]. destruct (is_matched c) eqn:Hc; [|reflexivity]. cbn.
  unfold holds_at. unfold wf in Hwf. rewrite List.Forall_forall in Hwf.
  specialize (Hwf (c, s) Hcs). cbn in Hwf.
  destruct (cells s !! i) as [v|] eqn:Hv.
  - apply (H c s v Hcs Hc). apply list_elem_of_In. now apply list_elem_of_lookup_2 in Hv.
  - apply lookup_ge_None in Hv. lia.
Qed.

Variable list_of_set : list string -> list string.
Hypothesis list_of_set_spec : lists_the_set list_of_set.

Lemma handle_missing_values_again df df1 :
  wf df ->
  Val.handle_missing_values list_of_set df = Ok df1 ->
  Val.handle_missing_values list_of_set df1 = Ok df1.
Proof.
  intros Hwf H1.
  apply (handle_missing_values_value list_of_set list_of_set_spec df df1 Hwf) in H1
    as [Hone E1].
  assert (Hwf1 : wf df1).
  { subst df1. now apply wf_frame_take, wf_with_numeric. }
  assert (Hcols : columns df1 = columns df).
  { subst df1. now rewrite columns_frame_take, columns_with_numeric. }
  apply (handle_missing_values_value list_of_set list_of_set_spec df1 df1 Hwf1). split.
  - rewrite (cols_of_columns df df1 Hcols). eapply Forall_impl; [exact Hone|].
    intros c. now apply names_one_columns.
  - rewrite with_numeric_fixed.
    2:{ subst df1. apply sanitized_columns_numeric. }
    rewrite rows_ok_all; [now rewrite frame_take_all|exact Hwf1|].
    intros c s v Hcs Hc Hv. apply is_number_notna. subst df1.
    now apply (sanitized_numbers df c s v).
Qed.

(** What the sanitizer returns is an input of the range filter. *)
Lemma sanitized_numeric_input df df1 :
  wf df ->
  Val.handle_missing_values list_of_set df = Ok df1 ->
  wf df1 /\ numeric_input df1.
Proof.
  intros Hwf H1.
  apply (handle_missing_values_value list_of_set list_of_set_spec df df1 Hwf) in H1
    as [Hone ->].
  split; [now apply wf_frame_take, wf_with_numeric|].
  intros c s Hcs Hc. split.
  - apply (names_one_columns df); [now rewrite columns_frame_take, columns_with_numeric|].
    rewrite List.Forall_forall in Hone. apply Hone. apply matched_cols. split; [|exact Hc].
    rewrite <- columns_with_numeric, <- (columns_frame_take (rows_ok notna (with_numeric_columns df))).
    apply columns_In. now exists s.
  - apply forallb_forall. intros v Hv. apply negb_true_iff.
    pose proof (sanitized_numbers df c s v Hcs Hc Hv) as Hn. now destruct v.
Qed.

(** The result does not depend on the order in which the set of
    required columns is listed. *)
Lemma handle_missing_values_any_order (list_of_set' : list string -> list string) df :
  lists_the_set list_of_set' -> wf df ->
  Val.handle_missing_values list_of_set df = Val.handle_missing_values list_of_set' df.
Proof.
  intros Hset' Hwf. unfold Val.handle_missing_values, result_bind.
  destruct (Val.outcome _) as [v|e] eqn:Hout; [|reflexivity].
  apply to_numeric_outcome in Hout as [_ ->]. rewrite update_frame_matched.
  rewrite (dropna_required list_of_set list_of_set_spec df Hwf).
  now rewrite (dropna_required list_of_set' Hset' df Hwf).
Qed.

End Idempotence.

(** ** The pipeline on a header-only input *)

Section HeaderOnly.
Import Pandas.

Lemma occurrences_NoDup c l : NoDup l -> In c l -> occurrences c l = 1%nat.
Proof.
  unfold occurrences. induction 1 as [|x l Hx Hl IH]; [intros []|].
  cbn. destruct (String.eqb c x) eqn:E.
  - apply String.eqb_eq in E. subst x. intros _. cbn. f_equal.
    assert (Hnone : forall l', ~ In c l' -> List.filter (String.eqb c) l' = []).
    { induction l' as [|y l' IH']; [reflexivity|]. cbn. intros Hn.
      destruct (String.eqb c y) eqn:E'.
      - apply String.eqb_eq in E'. subst. tauto.
      - apply IH'. tauto. }
    rewrite Hnone; [reflexivity|]. intros Hin. apply Hx. now apply list_elem_of_In.
  - intros [->|Hin]; [now rewrite String.eqb_refl in E | now apply IH].
Qed.

Lemma columns_header_only header : columns (header_only header) = header.
Proof. unfold columns, header_only. cbn. rewrite map_map. apply map_id. Qed.

Lemma columns_empty_sanitized header : columns (empty_sanitized header) = header.
Proof. unfold columns, empty_sanitized. cbn. rewrite map_map. apply map_id. Qed.

Lemma wf_header_only header : wf (header_only header).
Proof. unfold wf, header_only. cbn. apply Forall_map. now apply Forall_true. Qed.

Lemma wf_empty_sanitized header : wf (empty_sanitized header).
Proof.
  unfold wf, empty_sanitized. cbn. apply Forall_map. apply Forall_true.
  intros c. cbn. now destruct (is_matched c).
Qed.

Lemma names_one_header df c :
  NoDup (columns df) -> In c (columns df) -> names_one df c.
Proof. intros. now apply occurrences_NoDup. Qed.

Lemma clean_header_only header :
  Val.clean_column_names (header_only header)
  = Ok (header_only (map clean_name header)).
Proof.
  rewrite clean_column_names_value, columns_header_only. unfold header_only. cbn.
  do 2 f_equal. induction header as [|c header IH]; [reflexivity|]. cbn. now rewrite IH.
Qed.

Lemma strip_header_only header :
  NoDup header -> Val.strip_text_columns None (header_only header) = Ok (header_only header).
Proof.
  intros Hnd. apply strip_text_columns_value. cbn [Val.selected].
  assert (Hsel : select_dtypes_object (header_only header) = header).
  { unfold select_dtypes_object, header_only. cbn.
    induction header as [|c header IH]; [reflexivity|]. cbn. f_equal. apply IH.
    now apply NoDup_cons in Hnd as [_ ?]. }
  rewrite Hsel. split.
  - apply List.Forall_forall. intros c Hc. apply names_one_header;
      rewrite columns_header_only; assumption.
  - unfold update_frame, header_only. cbn. f_equal. rewrite map_map.
    apply map_ext. intros c. unfold on_labels. cbn. now destruct (mem c header).
Qed.

Lemma sanitize_header_only list_of_set header :
  lists_the_set list_of_set -> NoDup header ->
  Val.handle_missing_values list_of_set (header_only header) = Ok (empty_sanitized header).
Proof.
  intros Hset Hnd.
  apply (handle_missing_values_value list_of_set Hset _ _ (wf_header_only header)). split.
  - apply List.Forall_forall. intros c Hc. apply matched_cols in Hc as [Hc _].
    apply names_one_header; [now rewrite columns_header_only | exact Hc].
  - unfold frame_take, empty_sanitized, with_numeric_columns, header_only. cbn.
    rewrite !map_map. f_equal. apply map_ext. intros c. unfold numeric_column. cbn.
    destruct (is_matched c); cbn; now rewrite ?take_rows_nil.
Qed.

Lemma range_header_only header :
  NoDup header ->
  Val.remove_invalid_rows (empty_sanitized header) = Ok (empty_sanitized header).
Proof.
  intros Hnd.
  assert (Hnum : numeric_input (empty_sanitized header)).
  { intros c s Hcs Hc. split.
    - apply names_one_header; [now rewrite columns_empty_sanitized|].
      apply columns_In. now exists s.
    - unfold empty_sanitized in Hcs. cbn in Hcs.
      apply in_map_iff in Hcs as (c' & [= <- <-] & _). now destruct (is_matched c'). }
  destruct (remove_invalid_rows_total (empty_sanitized header)
              (wf_empty_sanitized header) Hnum) as [df' H].
  rewrite H. f_equal.
  apply remove_invalid_rows_value in H as ->;
    [|apply wf_empty_sanitized|now apply numeric_input_one].
  unfold frame_take, empty_sanitized. cbn. rewrite map_map. f_equal.
  apply map_ext. intros c. cbn. now destruct (is_matched c).
Qed.

Lemma main_header_only list_of_set header :
  lists_the_set list_of_set -> NoDup (map clean_name header) ->
  Val.main list_of_set (header_only header) = Ok (empty_sanitized (map clean_name header)).
Proof.
  intros Hset Hnd. unfold Val.main.
  rewrite clean_header_only. cbn [result_bind].
  rewrite (strip_header_only _ Hnd). cbn [result_bind].
  rewrite (sanitize_header_only _ _ Hset Hnd). cbn [result_bind].
  now apply range_header_only.
Qed.

Lemma to_csv_empty_sanitized header : to_csv (empty_sanitized header) = [header].
Proof. unfold to_csv. now rewrite columns_empty_sanitized. Qed.

End HeaderOnly.

(** ** The stages keep the columns as long as the index *)

Section WellFormed.
Import Pandas.

Lemma wf_update_frame g cols df :
  (forall s, length (cells (g s)) = length (cells s)) ->
  wf df -> wf (update_frame g cols df).
Proof.
  intros Hg. unfold wf, update_frame. cbn. intros H. apply Forall_map.
  eapply Forall_impl; [exact H|]. intros [c s] E. unfold on_labels. cbn in *.
  destruct (mem c cols); cbn; [now rewrite Hg | exact E].
Qed.

Lemma wf_clean_column_names df df' :
  wf df -> Val.clean_column_names df = Ok df' -> wf df'.
Proof.
  intros Hwf H. apply clean_column_names_columns in H as (Hi & Hd & _).
  unfold wf in *. rewrite Hi.
  apply (Forall_map snd (fun s => length (cells s) = length (index df))).
  rewrite Hd. now apply Forall_map.
Qed.

Lemma wf_strip_text_columns text_columns df df' :
  wf df -> Val.strip_text_columns text_columns df = Ok df' -> wf df'.
Proof.
  intros Hwf H. apply strip_text_columns_value in H as [_ ->].
  apply wf_update_frame; [|exact Hwf]. intros s. unfold trimmed_text. cbn.
  now rewrite length_map.
Qed.

Lemma wf_remove_invalid_rows df df' :
  wf df -> Val.remove_invalid_rows df = Ok df' -> wf df'.
Proof.
  intros Hwf H. destruct (uniform df) eqn:Hu.
  - apply (remove_invalid_rows_uniform df df' Hu) in H.
    destruct (Val.price_cols df ++ Val.qty_cols df); [now subst|].
    destruct H as [-> _]. now apply wf_masked.
  - apply remove_invalid_rows_value in H as ->;
      [now apply wf_frame_take | exact Hwf | now apply (remove_invalid_rows_one df df')].
Qed.

End WellFormed.

(** ** How the stages stop short *)

Section Failures.
Import Pandas.

Lemma occurrences_In c l : In c l <-> 1 <= occurrences c l.
Proof.
  unfold occurrences. induction l as [|a l IH]; cbn.
  - split; [intros [] | lia].
  - destruct (String.eqb c a) eqn:E; cbn.
    + apply String.eqb_eq in E. split; [lia | intros _; left; congruence].
    + apply String.eqb_neq in E. rewrite <- IH. split; [intros [H|H] | intros H].
      * congruence.
      * exact H.
      * now right.
Qed.

Lemma occurrences_absent c l : ~ In c l <-> occurrences c l = 0.
Proof. rewrite occurrences_In. lia. Qed.

Lemma dtypes_object_columns df c :
  In c (select_dtypes_object df) -> In c (columns df).
Proof.
  unfold select_dtypes_object, columns. rewrite !in_map_iff.
  intros (cs & E & H). apply filter_In in H as [H _]. now exists cs.
Qed.

Section Raising.
Variables (f : selection -> result Series) (g : Series -> Series) (E : exn).
Hypothesis f_series : forall s, f (IsSeries s) = Ok (g s).
Hypothesis f_frame : forall l, f (IsFrame l) = Raised E.

Lemma update_col_raised v c e :
  Val.update_col f v c = Raised e ->
  (e = KeyError /\ occurrences c (columns v) = 0) \/
  (e = E /\ 2 <= occurrences c (columns v)).
Proof.
  unfold Val.update_col, getitem. rewrite <- occurrences_select.
  destruct (select v c) as [|s [|s' l]]; cbn.
  - intros [= <-]. now left.
  - rewrite f_series. discriminate.
  - rewrite f_frame. cbn. intros [= <-]. right. split; [reflexivity|lia].
Qed.

Lemma update_cols_raised cols : forall v v' e,
  Val.update_cols f cols v = (v', Raised e) ->
  exists c, In c cols /\
    ((e = KeyError /\ occurrences c (columns v) = 0) \/
     (e = E /\ 2 <= occurrences c (columns v))).
Proof.
  assert (Hf : forall l s, f (IsFrame l) <> Ok s).
  { intros l s. now rewrite f_frame. }
  induction cols as [|c cols IH]; intros v v' e; cbn.
  - discriminate.
  - destruct (Val.update_col f v c) as [v1|e1] eqn:Hc.
    + intros H. apply IH in H as (c' & Hin & H).
      apply (update_col_ok f g f_series Hf) in Hc as [_ ->].
      rewrite columns_update_frame in H. exists c'. split; [now right | exact H].
    + intros [= <- <-]. exists c. split; [now left|].
      now apply update_col_raised.
Qed.

End Raising.

Lemma all_ok_ge0_raised l e :
  all_ok cell_ge0 l = Raised e ->
  e = TypeError /\ exists v, In v l /\ is_text v = true.
Proof.
  induction l as [|v l IH]; cbn; [discriminate|].
  destruct v as [t|z|x|b]; cbn.
  - intros [= <-]. split; [reflexivity|]. exists (VStr t). split; [now left | reflexivity].
  - destruct (all_ok cell_ge0 l); [discriminate|]. intros [= <-].
    destruct (IH eq_refl) as (-> & v & Hv & Ht). split; [reflexivity|]. exists v. split; [now right | exact Ht].
  - destruct (all_ok cell_ge0 l); [discriminate|]. intros [= <-].
    destruct (IH eq_refl) as (-> & v & Hv & Ht). split; [reflexivity|]. exists v. split; [now right | exact Ht].
  - destruct (all_ok cell_ge0 l); [discriminate|]. intros [= <-].
    destruct (IH eq_refl) as (-> & v & Hv & Ht). split; [reflexivity|]. exists v. split; [now right | exact Ht].
Qed.

Lemma take_rows_In {A : Type} m (l : list A) x : In x (take_rows m l) -> In x l.
Proof.
  intros H. apply take_rows_lookup in H as (i & _ & H).
  apply list_elem_of_In. now apply list_elem_of_lookup_2 in H.
Qed.

Lemma filter_col_raised m df c e :
  names_one df c ->
  Val.filter_col (frame_take m df) c = Raised e ->
  e = TypeError /\
  exists s v, In (c, s) (data df) /\ In v (cells s) /\ is_text v = true.
Proof.
  intros Hone. apply names_one_select in Hone as [s Hs].
  unfold Val.filter_col, getitem. rewrite select_frame_take, Hs. cbn.
  unfold series_ge0. rewrite cells_series_take.
  destruct (all_ok cell_ge0 (take_rows m (cells s))) as [bits|e0] eqn:Hall; cbn.
  - discriminate.
  - intros [= <-]. apply all_ok_ge0_raised in Hall as (-> & v & Hv & Ht).
    split; [reflexivity|]. exists s, v. split; [|split; [|exact Ht]].
    + apply select_In. rewrite Hs. now left.
    + now apply take_rows_In in Hv.
Qed.

Lemma filter_cols_raised df cols : forall m e,
  Forall (names_one df) cols ->
  snd (Val.filter_cols cols (frame_take m df)) = Raised e ->
  e = TypeError /\
  exists c s v, In c cols /\ In (c, s) (data df) /\ In v (cells s) /\ is_text v = true.
Proof.
  induction cols as [|c cols IH]; intros m e Hone; cbn.
  - discriminate.
  - inversion Hone as [|? ? Hc Hcols]; subst.
    destruct (Val.filter_col (frame_take m df) c) as [v1|e1] eqn:Hf.
    + apply (filter_col_value m df c v1 Hc) in Hf as ->.
      destruct (Val.filter_cols cols _) as [ext r] eqn:Hr. cbn. intros ->.
      specialize (IH (and_mask m (col_bits df c)) e Hcols). rewrite Hr in IH.
      destruct (IH eq_refl) as (-> & c' & s & v & Hin & H).
      split; [reflexivity|]. exists c', s, v. split; [now right | exact H].
    + cbn. intros [= <-]. apply (filter_col_raised m df c e1 Hc) in Hf as (-> & s & v & H).
      split; [reflexivity|]. exists c, s, v. split; [now left | exact H].
Qed.

Lemma remove_invalid_rows_raised df e :
  wf df -> Forall (names_one df) (Val.price_cols df ++ Val.qty_cols df) ->
  Val.remove_invalid_rows df = Raised e ->
  e = TypeError /\
  exists c s v, In (c, s) (data df) /\ is_matched c = true /\
                In v (cells s) /\ is_text v = true.
Proof.
  intros Hwf Hone. apply Forall_app in Hone as [Hp Hq].
  unfold Val.remove_invalid_rows.
  rewrite <- (frame_take_all df Hwf) at 2.
  destruct (snd (Val.filter_cols (Val.price_cols df) _)) as [v1|e1] eqn:H1; cbn.
  - apply (filter_cols_value df _ _ _ Hp) in H1 as ->. intros H2.
    apply filter_cols_raised in H2 as (-> & c & s & v & Hin & Hcs & H); [|exact Hq].
    split; [reflexivity|]. exists c, s, v. split; [exact Hcs|]. split; [|exact H].
    apply (matched_cols df c). apply in_or_app. now right.
  - intros [= <-].
    apply filter_cols_raised in H1 as (-> & c & s & v & Hin & Hcs & H); [|exact Hp].
    split; [reflexivity|]. exists c, s, v. split; [exact Hcs|]. split; [|exact H].
    apply (matched_cols df c). apply in_or_app. now left.
Qed.

End Failures.

Section StageFailures.
Import Pandas.

Lemma strip_text_columns_raised text_columns df e :
  Val.strip_text_columns text_columns df = Raised e ->
  exists c, In c (Val.selected text_columns df) /\
    ((e = KeyError /\ ~ In c (columns df)) \/
     (e = AttributeError /\ 2 <= occurrences c (columns df))).
Proof.
  unfold Val.strip_text_columns, Val.outcome.
  destruct (Val.update_cols _ _ df) as [v' [[]|e0]] eqn:Hu; cbn; [discriminate|].
  intros [= ->].
  apply (update_cols_raised _ trimmed_text AttributeError trimmed_text_spec) in Hu
    as (c & Hin & H); [|reflexivity].
  exists c. split; [exact Hin|]. rewrite occurrences_absent. exact H.
Qed.

Lemma handle_missing_values_raised list_of_set df e :
  lists_the_set list_of_set ->
  Val.handle_missing_values list_of_set df = Raised e ->
  e = TypeError /\
  exists c, In c (columns df) /\ is_matched c = true /\ 2 <= occurrences c (columns df).
Proof.
  intros Hset. unfold Val.handle_missing_values, result_bind.
  destruct (Val.outcome _) as [v|e0] eqn:Hout.
  - apply to_numeric_outcome in Hout as [_ ->].
    destruct (list_of_set _) as [|c0 req] eqn:Hreq; [discriminate|].
    unfold dropna. rewrite columns_update_frame.
    replace (forallb _ (c0 :: req)) with true; [discriminate|].
    symmetry. apply forallb_forall. intros c Hc. apply mem_In.
    rewrite <- Hreq in Hc. apply (proj1 (Hset _ _)) in Hc.
    now apply matched_cols in Hc.
  - intros [= ->]. unfold Val.outcome in Hout.
    destruct (Val.update_cols _ _ df) as [v' [[]|e0]] eqn:Hu; cbn in Hout; [discriminate|].
    injection Hout as ->.
    apply (update_cols_raised _ series_to_numeric TypeError) in Hu
      as (c & Hin & H); [|reflexivity|reflexivity].
    apply matched_cols in Hin as [Hin Hc]. destruct H as [[_ H]|[-> H]].
    + apply occurrences_In in Hin. lia.
    + split; [reflexivity|]. now exists c.
Qed.

End StageFailures.

(** ** Tables the stages leave as they are *)

Section FixedPoints.
Import Pandas.

Lemma data_frame_take m df c s :
  In (c, s) (data (frame_take m df)) <->
  exists s0, In (c, s0) (data df) /\ s = series_take m s0.
Proof.
  cbn [frame_take data]. rewrite in_map_iff. split.
  - intros ([c0 s0] & E & H). cbn in E. injection E as <- <-. now exists s0.
  - intros (s0 & H & ->). now exists (c, s0).
Qed.

Lemma data_with_numeric df c s :
  In (c, s) (data (with_numeric_columns df)) <->
  exists s0, In (c, s0) (data df) /\
             s = if is_matched c then series_to_numeric s0 else s0.
Proof.
  cbn [with_numeric_columns data]. rewrite in_map_iff. unfold numeric_column. split.
  - intros ([c0 s0] & E & H). cbn [fst snd] in E.
    destruct (is_matched c0) eqn:Hc; injection E as <- <-; exists s0; now rewrite Hc.
  - intros (s0 & H & ->). exists (c, s0). cbn [fst snd]. now destruct (is_matched c).
Qed.

Lemma data_update_frame g cols df c s :
  In (c, s) (data (update_frame g cols df)) <->
  exists s0, In (c, s0) (data df) /\ s = if mem c cols then g s0 else s0.
Proof.
  cbn [update_frame data]. rewrite in_map_iff. unfold on_labels. split.
  - intros ([c0 s0] & E & H). cbn [fst snd] in E.
    destruct (mem c0 cols) eqn:Hc; injection E as <- <-; exists s0; now rewrite Hc.
  - intros (s0 & H & ->). exists (c, s0). cbn [fst snd]. now destruct (mem c cols).
Qed.

Lemma data_clean_column_names df df' :
  Val.clean_column_names df = Ok df' ->
  data df' = map (fun cs => (clean_name (fst cs), snd cs)) (data df).
Proof.
  rewrite clean_column_names_value. intros [= <-]. cbn [data]. unfold columns.
  induction (data df) as [|cs d IH]; cbn; [reflexivity|]. now rewrite IH.
Qed.

Lemma names_one_unique df c s s' :
  names_one df c -> In (c, s) (data df) -> In (c, s') (data df) -> s = s'.
Proof.
  intros Hone H H'. apply names_one_select in Hone as [s0 Hs0].
  apply select_In in H, H'. rewrite Hs0 in H, H'.
  destruct H as [<-|[]]. now destruct H' as [<-|[]].
Qed.

Lemma dtypes_object_In df c :
  In c (select_dtypes_object df) <->
  exists s, In (c, s) (data df) /\ is_object s = true.
Proof.
  unfold select_dtypes_object. rewrite in_map_iff. split.
  - intros ([c0 s] & E & H). cbn in E. subst c0. apply filter_In in H as [H Ho].
    now exists s.
  - intros (s & H & Ho). exists (c, s). split; [reflexivity|]. apply filter_In. now split.
Qed.

Lemma taken_rows_hold p df c s v :
  In (c, s) (data (frame_take (rows_ok p df) df)) ->
  is_matched c = true -> In v (cells s) -> p v = true.
Proof.
  intros Hcs Hc Hv. apply data_frame_take in Hcs as (s0 & Hcs0 & ->).
  rewrite cells_series_take in Hv.
  apply take_rows_lookup in Hv as (i & Hi & Hvi).
  apply row_ok_lookup in Hi.
  pose proof (row_ok_column _ _ _ _ _ Hi Hcs0 Hc) as Hp.
  unfold holds_at in Hp. now rewrite Hvi in Hp.
Qed.

Lemma nonneg_number v :
  nonneg v = true -> is_number v = true /\ is_text v = false /\ isna v = false.
Proof. destruct v as [t|z|[]|b]; cbn; intros H; try discriminate; now repeat split. Qed.

Lemma remove_invalid_rows_fixed df :
  wf df -> Forall (names_one df) (Val.price_cols df ++ Val.qty_cols df) ->
  (forall c s v, In (c, s) (data df) -> is_matched c = true -> In v (cells s) ->
     nonneg v = true) ->
  Val.remove_invalid_rows df = Ok df.
Proof.
  intros Hwf Hone Hall.
  assert (Hin : numeric_input df).
  { intros c s Hcs Hc. split.
    - rewrite List.Forall_forall in Hone. apply Hone. apply matched_cols.
      split; [|exact Hc]. apply columns_In. now exists s.
    - apply forallb_forall. intros v Hv. apply negb_true_iff.
      now apply (nonneg_number v (Hall c s v Hcs Hc Hv)). }
  destruct (remove_invalid_rows_total df Hwf Hin) as [df' H]. rewrite H. f_equal.
  apply remove_invalid_rows_value in H as ->; [|exact Hwf|exact Hone].
  rewrite rows_ok_all; [now apply frame_take_all | exact Hwf | exact Hall].
Qed.

Lemma handle_missing_values_fixed list_of_set df :
  lists_the_set list_of_set -> wf df ->
  Forall (names_one df) (Val.price_cols df ++ Val.qty_cols df) ->
  (forall c s, In (c, s) (data df) -> is_matched c = true -> is_object s = false) ->
  (forall c s v, In (c, s) (data df) -> is_matched c = true -> In v (cells s) ->
     is_number v = true) ->
  Val.handle_missing_values list_of_set df = Ok df.
Proof.
  intros Hset Hwf Hone Hdt Hnum.
  apply (handle_missing_values_value list_of_set Hset df df Hwf). split; [exact Hone|].
  rewrite (with_numeric_fixed df Hdt).
  rewrite rows_ok_all; [now rewrite frame_take_all | exact Hwf |].
  intros c s v Hcs Hc Hv. apply is_number_notna. now apply (Hnum c s v).
Qed.

Lemma combine_split_map {A B : Type} (l : list (A * B)) :
  combine (map fst l) (map snd l) = l.
Proof. induction l as [|[a b] l IH]; cbn; [reflexivity|]. now rewrite IH. Qed.

Lemma clean_column_names_fixed df :
  (forall c, In c (columns df) -> clean_name c = c) ->
  Val.clean_column_names df = Ok df.
Proof.
  intros H. rewrite clean_column_names_value. f_equal.
  destruct df as [idx d]. cbn [index data]. f_equal.
  replace (map clean_name (columns {| index := idx; data := d |}))
    with (map fst d); [apply combine_split_map|].
  unfold columns in *. cbn [data] in *. rewrite <- (map_id (map fst d)) at 1.
  apply map_ext_in. intros c Hc. symmetry. now apply H.
Qed.

Lemma update_frame_fixed g cols df :
  (forall c s, In (c, s) (data df) -> mem c cols = true -> g s = s) ->
  update_frame g cols df = df.
Proof.
  intros H. destruct df as [idx d]. unfold update_frame. cbn [index data] in *. f_equal.
  rewrite <- (map_id d) at 2. apply map_ext_in. intros [c s] Hcs.
  unfold on_labels. cbn [fst snd]. destruct (mem c cols) eqn:Hc; [|reflexivity].
  now rewrite (H c s Hcs Hc).
Qed.

Lemma strip_text_columns_fixed text_columns df :
  Forall (names_one df) (Val.selected text_columns df) ->
  (forall c s, In (c, s) (data df) -> mem c (Val.selected text_columns df) = true ->
     trimmed_text s = s) ->
  Val.strip_text_columns text_columns df = Ok df.
Proof.
  intros Hone H. apply strip_text_columns_value. split; [exact Hone|].
  symmetry. now apply update_frame_fixed.
Qed.

Lemma trimmed_text_stripped s v : In v (cells (trimmed_text s)) -> stripped_text v.
Proof.
  cbn. rewrite in_map_iff. intros (w & <- & _). eexists. split; [reflexivity|].
  apply strip_idem.
Qed.

Lemma stripped_text_fixed l :
  (forall v, In v l -> stripped_text v) -> trimmed_text (SObject l) = SObject l.
Proof.
  intros H. unfold trimmed_text. cbn [cells]. f_equal.
  rewrite <- (map_id l) at 2. apply map_ext_in. intros v Hv.
  destruct (H v Hv) as (t & -> & Ht). cbn [py_str]. now rewrite Ht.
Qed.

(** The columns [select_dtypes] finds are the same after the trimmer. *)
Lemma dtypes_object_trimmed text_columns df :
  Forall (names_one df) (select_dtypes_object df) ->
  Val.selected text_columns df = select_dtypes_object df ->
  select_dtypes_object (update_frame trimmed_text (Val.selected text_columns df) df)
  = select_dtypes_object df.
Proof.
  intros Hone ->. unfold select_dtypes_object at 1 3. cbn [update_frame data].
  assert (H : forall cs, In cs (data df) ->
            fst (on_labels trimmed_text (select_dtypes_object df) cs) = fst cs /\
            is_object (snd (on_labels trimmed_text (select_dtypes_object df) cs))
            = is_object (snd cs)).
  { intros [c s] Hcs. unfold on_labels. cbn [fst snd].
    destruct (mem c (select_dtypes_object df)) eqn:Hc; cbn [fst snd]; [|now split].
    split; [reflexivity|]. apply mem_In in Hc.
    rewrite List.Forall_forall in Hone. pose proof (Hone c Hc) as H1.
    apply dtypes_object_In in Hc as (s' & Hcs' & Ho).
    now rewrite (names_one_unique df c s s' H1 Hcs Hcs'). }
  induction (data df) as [|cs d IH]; cbn; [reflexivity|].
  destruct (H cs (or_introl eq_refl)) as [E1 E2]. rewrite E2.
  destruct (is_object (snd cs)); cbn; rewrite ?E1, IH; try reflexivity;
    intros cs' Hcs'; apply H; now right.
Qed.

Lemma update_frame_twice g cols df :
  (forall s, g (g s) = g s) ->
  update_frame g cols (update_frame g cols df) = update_frame g cols df.
Proof.
  intros Hg. unfold update_frame. cbn [index data]. f_equal. rewrite map_map.
  apply map_ext. intros [c s]. unfold on_labels. cbn [fst snd].
  destruct (mem c cols) eqn:Hc; cbn [fst snd]; rewrite Hc; [now rewrite Hg | reflexivity].
Qed.

End FixedPoints.

(** ** The name tests after the renaming *)

Section Matching.
Import Text.

Lemma string_app_assoc (s t u : string) : ((s ++ t) ++ u = s ++ t ++ u)%string.
Proof. induction s as [|c s IH]; cbn; [reflexivity|]. now rewrite IH. Qed.

Lemma prefix_app w : forall s,
  String.prefix w s = true <-> exists post, s = (w ++ post)%string.
Proof.
  induction w as [|a w IH]; intros s.
  - destruct s; cbn; (split; [intros _; eexists; reflexivity | reflexivity]).
  - destruct s as [|b s]; cbn.
    + split; [discriminate | intros [post H]; discriminate].
    + destruct (ascii_dec a b) as [->|Hab].
      * rewrite IH. split; intros [post H]; exists post; congruence.
      * split; [discriminate | intros [post H]; congruence].
Qed.

Lemma contains_app w s :
  contains w s = true <-> exists pre post, s = (pre ++ w ++ post)%string.
Proof.
  induction s as [|c s IH]; cbn [contains].
  - rewrite orb_false_r, prefix_app. split.
    + intros [post H]. now exists "", post.
    + intros (pre & post & H). destruct pre; cbn in H; [now exists post | discriminate].
  - rewrite orb_true_iff, prefix_app, IH. split.
    + intros [[post H] | (pre & post & H)].
      * now exists "", post.
      * exists (String c pre), post. cbn. now rewrite H.
    + intros (pre & post & H). destruct pre as [|p pre]; cbn in H.
      * left. now exists post.
      * right. injection H as _ H. now exists pre, post.
Qed.

Lemma contains_inside w pre s post :
  contains w s = true -> contains w (pre ++ s ++ post)%string = true.
Proof.
  rewrite !contains_app. intros (a & b & ->).
  exists (pre ++ a)%string, (b ++ post)%string.
  now rewrite !string_app_assoc.
Qed.

Lemma isspace_lower_char c : isspace (lower_char c) = isspace c.
Proof. by_cases c. Qed.

Lemma lstrip_lower s : lstrip (lower s) = lower (lstrip s).
Proof.
  induction s as [|c s IH]; cbn; [reflexivity|].
  rewrite isspace_lower_char. now destruct (isspace c).
Qed.

Lemma rstrip_lower s : rstrip (lower s) = lower (rstrip s).
Proof.
  induction s as [|c s IH]; cbn; [reflexivity|].
  rewrite isspace_lower_char, IH.
  replace (is_empty (lower (rstrip s))) with (is_empty (rstrip s))
    by now destruct (rstrip s).
  now destruct (isspace c && is_empty (rstrip s)).
Qed.

Lemma strip_lower s : strip (lower s) = lower (strip s).
Proof. unfold strip. now rewrite lstrip_lower, rstrip_lower. Qed.

(** A needle that begins with a character that is no whitespace is not
    lost on the left. *)
Lemma lstrip_keeps a w post : forall pre,
  isspace a = false ->
  exists pre', lstrip (pre ++ String a w ++ post) = (pre' ++ String a w ++ post)%string.
Proof.
  intros pre Ha. induction pre as [|c pre IH]; cbn.
  - rewrite Ha. now exists "".
  - destruct (isspace c); [exact IH|]. now exists (String c pre).
Qed.

Lemma rstrip_nonspace w post :
  all_chars (fun c => negb (isspace c)) w = true ->
  rstrip (w ++ post) = (w ++ rstrip post)%string.
Proof.
  induction w as [|a w IH]; cbn; [reflexivity|].
  intros H. apply andb_true_iff in H as [Ha Hw]. apply negb_true_iff in Ha.
  now rewrite Ha, (IH Hw).
Qed.

Lemma rstrip_before pre t :
  is_empty (rstrip t) = false -> rstrip (pre ++ t) = (pre ++ rstrip t)%string.
Proof.
  intros Ht. induction pre as [|c pre IH]; cbn; [reflexivity|].
  rewrite IH. replace (is_empty (pre ++ rstrip t)) with false.
  - now rewrite andb_false_r.
  - destruct pre; cbn; [now rewrite Ht | reflexivity].
Qed.

Lemma contains_strip w s :
  w <> "" -> all_chars (fun c => negb (isspace c)) w = true ->
  contains w (strip s) = contains w s.
Proof.
  intros Hne Hw. apply eq_true_iff_eq. split.
  - intros H. destruct (strip_trimmed s) as (pre & post & E & _).
    rewrite E. now apply contains_inside.
  - rewrite !contains_app. intros (pre & post & ->).
    destruct w as [|a w]; [congruence|].
    pose proof Hw as Hw'. cbn in Hw'. apply andb_true_iff in Hw' as [Ha _].
    apply negb_true_iff in Ha.
    unfold strip. destruct (lstrip_keeps a w post pre Ha) as [pre' ->].
    exists pre', (rstrip post). rewrite rstrip_before.
    + now rewrite rstrip_nonspace.
    + rewrite rstrip_nonspace by exact Hw. reflexivity.
Qed.

Lemma sub_nonword_app pre t : forall b,
  exists b', sub_nonword b (pre ++ t) = (sub_nonword b pre ++ sub_nonword b' t)%string.
Proof.
  induction pre as [|c pre IH]; intros b; cbn.
  - now exists b.
  - destruct (isword c).
    + destruct (IH false) as [b' ->]. now exists b'.
    + destruct b.
      * destruct (IH true) as [b' ->]. now exists b'.
      * destruct (IH true) as [b' ->]. now exists b'.
Qed.

Lemma sub_nonword_word_prefix w t :
  all_chars isword w = true ->
  sub_nonword false (w ++ t) = (w ++ sub_nonword false t)%string.
Proof.
  induction w as [|a w IH]; cbn; [reflexivity|].
  intros H. apply andb_true_iff in H as [Ha Hw]. now rewrite Ha, (IH Hw).
Qed.

Lemma sub_nonword_prefix_back w : forall s post,
  all_chars isword w = true ->
  all_chars (fun c => negb (Ascii.eqb c "_")) w = true ->
  sub_nonword false s = (w ++ post)%string ->
  exists s', s = (w ++ s')%string.
Proof.
  induction w as [|x w IH]; intros s post Hw Hu; cbn.
  - intros _. now exists s.
  - cbn in Hw, Hu. apply andb_true_iff in Hw as [Hx Hw].
    apply andb_true_iff in Hu as [Hxu Hu]. apply negb_true_iff, Ascii.eqb_neq in Hxu.
    destruct s as [|y s]; cbn; [discriminate|].
    destruct (isword y) eqn:Hy.
    + intros [= -> H]. apply IH in H as [s' ->]; [|exact Hw|exact Hu]. now exists s'.
    + intros [= E _]. congruence.
Qed.

Lemma sub_nonword_contains_back w :
  w <> "" -> all_chars isword w = true ->
  all_chars (fun c => negb (Ascii.eqb c "_")) w = true ->
  forall s b pre post,
    sub_nonword b s = (pre ++ w ++ post)%string -> contains w s = true.
Proof.
  intros Hne Hw Hu. induction s as [|c s IH]; intros b pre post.
  - cbn. destruct pre; cbn; [|discriminate]. destruct w; [congruence | discriminate].
  - cbn [sub_nonword contains]. destruct (isword c) eqn:Hc.
    + destruct pre as [|p pre]; cbn [append].
      * intros H. apply orb_true_iff. left. apply prefix_app.
        destruct w as [|x w]; [congruence|]. cbn in H. injection H as <- H.
        cbn in Hw, Hu. apply andb_true_iff in Hw as [_ Hw].
        apply andb_true_iff in Hu as [_ Hu].
        apply sub_nonword_prefix_back in H as [s' ->]; [|exact Hw|exact Hu].
        now exists s'.
      * intros [= _ H]. apply IH in H. rewrite H. apply orb_true_r.
    + destruct b.
      * intros H. apply IH in H. rewrite H. apply orb_true_r.
      * destruct pre as [|p pre]; cbn [append].
        -- destruct w as [|x w]; [congruence|]. cbn. intros [= <- _].
           cbn in Hu. discriminate.
        -- intros [= _ H]. apply IH in H. rewrite H. apply orb_true_r.
Qed.

Lemma contains_replace_nonword w s :
  w <> "" -> all_chars isword w = true ->
  all_chars (fun c => negb (Ascii.eqb c "_")) w = true ->
  contains w (replace_nonword s) = contains w s.
Proof.
  intros Hne Hw Hu. apply eq_true_iff_eq. split.
  - rewrite (contains_app w (replace_nonword s)). intros (pre & post & H).
    now apply (sub_nonword_contains_back w Hne Hw Hu s false pre post).
  - rewrite !contains_app. intros (pre & post & ->). unfold replace_nonword.
    destruct (sub_nonword_app pre (w ++ post) false) as [b' ->].
    exists (sub_nonword false pre), (sub_nonword false post). f_equal.
    destruct w as [|a w]; [congruence|].
    cbn in Hw. apply andb_true_iff in Hw as [Ha Hw]. cbn. rewrite Ha.
    now rewrite sub_nonword_word_prefix.
Qed.

Lemma word_not_space w :
  all_chars isword w = true -> all_chars (fun c => negb (isspace c)) w = true.
Proof.
  induction w as [|a w IH]; cbn; [reflexivity|].
  intros H. apply andb_true_iff in H as [Ha Hw].
  now rewrite (isword_not_space a Ha), (IH Hw).
Qed.

(** A needle of letters and digits is found in the normalized name
    exactly when it is found in the lower-cased name. *)
Lemma contains_clean_name w c :
  w <> "" -> all_chars isword w = true ->
  all_chars (fun c => negb (Ascii.eqb c "_")) w = true ->
  contains w (clean_name c) = contains w (lower c).
Proof.
  intros Hne Hw Hu. unfold clean_name.
  rewrite (contains_replace_nonword w _ Hne Hw Hu), <- strip_lower.
  apply contains_strip; [exact Hne | now apply word_not_space].
Qed.

End Matching.

(** ** The sanitizer and the range filter in a row *)

Section StagePair.
Import Pandas Numeral.



Variable list_of_set : list string -> list string.
Hypothesis list_of_set_spec : lists_the_set list_of_set.


End StagePair.

Section RowWise.

(** What the mask says of one row. *)
Lemma rows_ok_at p df i :
  (i < length (index df))%nat ->
  (rows_ok p df !! i = Some true <->
   forall c s, In (c, s) (data df) -> is_matched c = true ->
     exists v, cells s !! i = Some v /\ p v = true).
Proof.
  intros Hi. unfold rows_ok. rewrite list_lookup_fmap, lookup_seq_lt by exact Hi.
  cbn [fmap option_fmap option_map Nat.add]. unfold row_ok. split.
  - intros [= H] c s Hcs Hc. rewrite forallb_forall in H.
    specialize (H (c, s) Hcs). cbn [fst snd] in H. rewrite Hc in H. cbn [implb] in H.
    unfold holds_at in H. destruct (cells s !! i) as [v|]; [|discriminate]. now exists v.
  - intros H. f_equal. apply forallb_forall. intros [c s] Hcs. cbn [fst snd].
    destruct (is_matched c) eqn:Hc; [|reflexivity]. cbn [implb].
    destruct (H c s Hcs Hc) as (v & Hv & Hp). unfold holds_at. now rewrite Hv.
Qed.

End RowWise.

(** ** The four stages in a row *)

Section Pipeline.
Import Pandas.

Variable list_of_set : list string -> list string.
Hypothesis list_of_set_spec : lists_the_set list_of_set.

Lemma main_stages df R :
  Val.main list_of_set df = Ok R <->
  exists df1 df2 df3,
    Val.clean_column_names df = Ok df1 /\
    Val.strip_text_columns None df1 = Ok df2 /\
    Val.handle_missing_values list_of_set df2 = Ok df3 /\
    Val.remove_invalid_rows df3 = Ok R.
Proof.
  unfold Val.main, result_bind. split.
  - destruct (Val.clean_column_names df) as [df1|] eqn:H1; [|discriminate].
    destruct (Val.strip_text_columns None df1) as [df2|] eqn:H2; [|discriminate].
    destruct (Val.handle_missing_values list_of_set df2) as [df3|] eqn:H3; [|discriminate].
    intros H. exists df1, df2, df3. auto.
  - intros (df1 & df2 & df3 & -> & -> & -> & H). exact H.
Qed.

(** What is known of the frames of a run that reaches the end. *)
Lemma main_frames df df1 df2 df3 R :
  wf df ->
  Val.clean_column_names df = Ok df1 ->
  Val.strip_text_columns None df1 = Ok df2 ->
  Val.handle_missing_values list_of_set df2 = Ok df3 ->
  Val.remove_invalid_rows df3 = Ok R ->
  (wf df1 /\ wf df2 /\ wf df3 /\ wf R) /\
  (columns df1 = map clean_name (columns df) /\ columns df2 = columns df1 /\
   columns df3 = columns df1 /\ columns R = columns df1) /\
  (Forall (names_one df1) (select_dtypes_object df1) /\
   Forall (names_one df1) (Val.price_cols df1 ++ Val.qty_cols df1)) /\
  df2 = update_frame trimmed_text (select_dtypes_object df1) df1 /\
  df3 = frame_take (rows_ok notna (with_numeric_columns df2)) (with_numeric_columns df2) /\
  R = frame_take (rows_ok nonneg df3) df3.
Proof.
  intros Hwf H1 H2 H3 H4.
  pose proof (wf_clean_column_names df df1 Hwf H1) as Hwf1.
  pose proof (wf_strip_text_columns None df1 df2 Hwf1 H2) as Hwf2.
  destruct (sanitized_numeric_input list_of_set list_of_set_spec df2 df3 Hwf2 H3)
    as [Hwf3 Hin3].
  pose proof (wf_remove_invalid_rows df3 R Hwf3 H4) as Hwf4.
  apply clean_column_names_columns in H1 as (_ & _ & Hc1).
  apply strip_text_columns_value in H2 as [Hone2 E2]. cbn [Val.selected] in Hone2, E2.
  apply (handle_missing_values_value list_of_set list_of_set_spec df2 df3 Hwf2) in H3
    as [Hone3 E3].
  apply remove_invalid_rows_value in H4 as E4; [|exact Hwf3|now apply numeric_input_one].
  assert (Hc2 : columns df2 = columns df1).
  { rewrite E2. apply columns_update_frame. }
  assert (Hc3 : columns df3 = columns df1).
  { rewrite E3, columns_frame_take, columns_with_numeric. exact Hc2. }
  assert (Hc4 : columns R = columns df1).
  { rewrite E4, columns_frame_take. exact Hc3. }
  split; [now repeat split|]. split; [now repeat split|]. split; [split|now repeat split].
  - exact Hone2.
  - rewrite <- (cols_of_columns df1 df2 Hc2). eapply Forall_impl; [exact Hone3|].
    intros c. apply names_one_columns. now symmetry.
Qed.

(** A text column of the result was a text column after the renaming;
    it is no price or quantity column and its cells are stripped text. *)
Lemma main_object_column df1 m1 m2 c s :
  In (c, s) (data (frame_take m2 (frame_take m1 (with_numeric_columns
                     (update_frame trimmed_text (select_dtypes_object df1) df1))))) ->
  is_object s = true ->
  In c (select_dtypes_object df1) /\ is_matched c = false /\
  forall v, In v (cells s) -> stripped_text v.
Proof.
  intros Hcs Ho.
  apply data_frame_take in Hcs as (s3 & Hcs & ->). rewrite is_object_take in Ho.
  apply data_frame_take in Hcs as (s2' & Hcs & ->). rewrite is_object_take in Ho.
  apply data_with_numeric in Hcs as (s2 & Hcs & ->).
  destruct (is_matched c) eqn:Hc.
  { now rewrite to_numeric_not_object in Ho. }
  apply data_update_frame in Hcs as (s1 & Hcs & ->).
  destruct (mem c (select_dtypes_object df1)) eqn:Hm.
  - split; [now apply mem_In|]. split; [reflexivity|].
    intros v Hv. rewrite !cells_series_take in Hv.
    apply take_rows_In, take_rows_In in Hv. now apply (trimmed_text_stripped s1).
  - apply mem_false in Hm. exfalso. apply Hm. apply dtypes_object_In. now exists s1.
Qed.

Lemma main_matched_column df3 c s :
  In (c, s) (data (frame_take (rows_ok nonneg df3) df3)) -> is_matched c = true ->
  forall v, In v (cells s) -> nonneg v = true /\ is_number v = true.
Proof.
  intros Hcs Hc v Hv. pose proof (taken_rows_hold nonneg df3 c s v Hcs Hc Hv) as H.
  split; [exact H | now apply nonneg_number].
Qed.

Lemma take_rows_sublist_index m df : index (frame_take m df) `sublist_of` index df.
Proof. apply take_rows_sublist. Qed.

Lemma main_value df R :
  wf df -> Val.main list_of_set df = Ok R ->
  wf R /\
  columns R = map clean_name (columns df) /\
  index R `sublist_of` index df /\
  (forall c s v, In (c, s) (data R) -> is_matched c = true -> In v (cells s) ->
     nonneg v = true /\ is_number v = true) /\
  (forall c s, In (c, s) (data R) -> is_matched c = true -> is_object s = false) /\
  (forall c s v, In (c, s) (data R) -> is_object s = true -> In v (cells s) ->
     stripped_text v) /\
  Forall (names_one R) (select_dtypes_object R) /\
  Forall (names_one R) (Val.price_cols R ++ Val.qty_cols R).
Proof.
  intros Hwf H. apply main_stages in H as (df1 & df2 & df3 & H1 & H2 & H3 & H4).
  pose proof (clean_column_names_columns df df1 H1) as (Hi1 & _ & _).
  destruct (main_frames df df1 df2 df3 R Hwf H1 H2 H3 H4)
    as ((_ & _ & _ & HwfR) & (Hc1 & Hc2 & Hc3 & Hc4) & (Ho1 & Hm1) & E2 & E3 & E4).
  split; [exact HwfR|]. split; [now rewrite Hc4|]. split; [|split; [|split; [|split; [|split]]]].
  - rewrite E4, E3, E2, <- Hi1. etrans; [apply take_rows_sublist_index|].
    etrans; [apply take_rows_sublist_index|]. reflexivity.
  - intros c s v Hcs Hc Hv. rewrite E4 in Hcs. now apply (main_matched_column df3 c s).
  - intros c s Hcs Hc. rewrite E4 in Hcs. apply data_frame_take in Hcs as (s3 & Hcs & ->).
    rewrite is_object_take. rewrite E3 in Hcs.
    now apply (sanitized_columns_numeric df2 c s3).
  - intros c s v Hcs Ho Hv. rewrite E4, E3, E2 in Hcs.
    now apply (main_object_column df1 _ _ c s Hcs Ho).
  - apply List.Forall_forall. intros c Hc. apply dtypes_object_In in Hc as (s & Hcs & Ho).
    rewrite E4, E3, E2 in Hcs. apply main_object_column in Hcs as (Hin & _); [|exact Ho].
    apply (names_one_columns df1 R c Hc4). rewrite List.Forall_forall in Ho1. now apply Ho1.
  - rewrite (cols_of_columns df1 R Hc4). eapply Forall_impl; [exact Hm1|].
    intros c. now apply names_one_columns.
Qed.

Lemma main_fixed R :
  wf R ->
  (forall c, In c (columns R) -> clean_name c = c) ->
  (forall c s v, In (c, s) (data R) -> is_matched c = true -> In v (cells s) ->
     nonneg v = true /\ is_number v = true) ->
  (forall c s, In (c, s) (data R) -> is_matched c = true -> is_object s = false) ->
  (forall c s v, In (c, s) (data R) -> is_object s = true -> In v (cells s) ->
     stripped_text v) ->
  Forall (names_one R) (select_dtypes_object R) ->
  Forall (names_one R) (Val.price_cols R ++ Val.qty_cols R) ->
  Val.main list_of_set R = Ok R.
Proof.
  intros Hwf Hnames Hnum Hdt Htxt Hone Hmat. apply main_stages. exists R, R, R.
  split; [|split; [|split]].
  - now apply clean_column_names_fixed.
  - apply strip_text_columns_fixed; [exact Hone|]. cbn [Val.selected].
    intros c s Hcs Hc. apply mem_In in Hc.
    rewrite List.Forall_forall in Hone. pose proof (Hone c Hc) as H1.
    apply dtypes_object_In in Hc as (s' & Hcs' & Ho).
    rewrite (names_one_unique R c s s' H1 Hcs Hcs').
    destruct s' as [l| | | |]; try discriminate.
    apply stripped_text_fixed. intros v Hv. now apply (Htxt c (SObject l) v).
  - apply handle_missing_values_fixed; trivial.
    intros c s v Hcs Hc Hv. now apply (Hnum c s v).
  - apply remove_invalid_rows_fixed; trivial.
    intros c s v Hcs Hc Hv. now apply (Hnum c s v).
Qed.

Lemma main_again df R :
  wf df -> Val.main list_of_set df = Ok R -> Val.main list_of_set R = Ok R.
Proof.
  intros Hwf H.
  destruct (main_value df R Hwf H) as (HwfR & Hc & _ & Hnum & Hdt & Htxt & Hone & Hmat).
  apply main_fixed; trivial.
  intros c Hin. rewrite Hc in Hin. apply in_map_iff in Hin as (c0 & <- & _).
  apply clean_name_idem.
Qed.

Lemma main_returns_value df :
  wf df -> ((exists R, Val.main list_of_set df = Ok R) <-> no_clash df).
Proof.
  intros Hwf.
  destruct (Val.clean_column_names df) as [df1|e] eqn:H1.
  2:{ now rewrite clean_column_names_value in H1. }
  pose proof (data_clean_column_names df df1 H1) as Hd1.
  pose proof (clean_column_names_columns df df1 H1) as (_ & _ & Hc1).
  pose proof (wf_clean_column_names df df1 Hwf H1) as Hwf1.
  split.
  - intros [R H]. apply main_stages in H as (df1' & df2 & df3 & H1' & H2 & H3 & H4).
    rewrite H1 in H1'. injection H1' as <-.
    destruct (main_frames df df1 df2 df3 R Hwf H1 H2 H3 H4)
      as (_ & _ & (Ho1 & Hm1) & _).
    intros c s Hcs Hor. rewrite <- Hc1.
    assert (Hin : In (clean_name c, s) (data df1)).
    { rewrite Hd1. apply in_map_iff. now exists (c, s). }
    rewrite List.Forall_forall in Ho1, Hm1. destruct Hor as [Ho|Hm].
    + apply Ho1. apply dtypes_object_In. now exists s.
    + apply Hm1. apply matched_cols. split; [|exact Hm]. apply columns_In. now exists s.
  - intros Hfree.
    assert (Hone : forall c s, In (c, s) (data df1) ->
              is_object s = true \/ is_matched c = true -> names_one df1 c).
    { intros c s Hcs Hor. rewrite Hd1 in Hcs.
      apply in_map_iff in Hcs as ([c0 s0] & E & Hcs0). cbn in E. injection E as <- <-.
      unfold names_one. rewrite Hc1. now apply (Hfree c0 s0). }
    destruct (Val.strip_text_columns None df1) as [df2|e] eqn:H2.
    2:{ exfalso. assert (Hex : exists df2, Val.strip_text_columns None df1 = Ok df2).
        { eexists. apply strip_text_columns_value. split; [|reflexivity].
          apply List.Forall_forall. intros c Hc. cbn [Val.selected] in Hc.
          apply dtypes_object_In in Hc as (s & Hcs & Ho). apply (Hone c s Hcs). now left. }
        destruct Hex as [df2 Hex]. congruence. }
    pose proof (wf_strip_text_columns None df1 df2 Hwf1 H2) as Hwf2.
    assert (Hc2 : columns df2 = columns df1).
    { apply strip_text_columns_value in H2 as [_ ->]. apply columns_update_frame. }
    assert (H3 : exists df3, Val.handle_missing_values list_of_set df2 = Ok df3).
    { eexists. apply (handle_missing_values_value list_of_set list_of_set_spec df2 _ Hwf2).
      split; [|reflexivity]. apply List.Forall_forall. intros c Hc.
      apply matched_cols in Hc as [Hin Hm]. rewrite Hc2 in Hin.
      apply (names_one_columns df1 df2 c Hc2).
      apply columns_In in Hin as [s Hcs]. apply (Hone c s Hcs). now right. }
    destruct H3 as [df3 H3].
    destruct (sanitized_numeric_input list_of_set list_of_set_spec df2 df3 Hwf2 H3)
      as [Hwf3 Hin3].
    destruct (remove_invalid_rows_total df3 Hwf3 Hin3) as [R H4].
    exists R. apply main_stages. now exists df1, df2, df3.
Qed.

Lemma no_clash_NoDup df : NoDup (map clean_name (columns df)) -> no_clash df.
Proof.
  intros Hnd c s Hcs _. apply occurrences_NoDup; [exact Hnd|].
  apply in_map. apply columns_In. now exists s.
Qed.

End Pipeline.

(** ** Integers written as text and read back *)

Section ReadBack.
Import Pandas Numeral.

Lemma digits_step c acc count s :
  isdigit_ascii c = true ->
  digits acc count (String c s) = digits (acc * 10 + digit_val c) (S count) s.
Proof. intros H. cbn [digits]. now rewrite H. Qed.

(** The digit reader on a printed numeral, from an accumulator that is
    positive and from zero (where leading zeros do not count). *)
Lemma digits_of_uint d : forall count,
  (forall acc, digits (N.pos acc) count (NilEmpty.string_of_uint d)
               = (N.pos (Pos.of_uint_acc d acc), (count + Decimal.nb_digits d)%nat, "")) /\
  digits 0 count (NilEmpty.string_of_uint d)
  = (Pos.of_uint d, (count + Decimal.nb_digits d)%nat, "").
Proof.
  induction d as [|d IH|d IH|d IH|d IH|d IH|d IH|d IH|d IH|d IH|d IH]; intros count;
    (split; [intros acc|]);
    cbn [NilEmpty.string_of_uint Decimal.nb_digits Pos.of_uint Pos.of_uint_acc];
    try (cbn [digits]; now rewrite Nat.add_0_r);
    rewrite digits_step by reflexivity;
    destruct (IH (S count)) as [IH1 IH2];
    rewrite <- Nat.add_succ_comm;
    match goal with
    | |- context [digit_val ?c] =>
        let k := eval vm_compute in (digit_val c) in change (digit_val c) with k
    end;
    match goal with
    | |- _ = (N.pos (Pos.of_uint_acc _ ?q), _, _) => rewrite <- (IH1 q); f_equal; lia
    | |- _ = (Pos.of_uint _, _, _) => rewrite <- IH2; reflexivity
    end.
Qed.

Lemma string_of_uint_head d :
  d <> Decimal.Nil ->
  skip_ws (NilEmpty.string_of_uint d) = NilEmpty.string_of_uint d /\
  sign (NilEmpty.string_of_uint d) = (false, NilEmpty.string_of_uint d) /\
  Text.is_empty (NilEmpty.string_of_uint d) = false /\
  Decimal.nb_digits d <> 0%nat.
Proof. destruct d; [congruence | now repeat split ..]. Qed.

Lemma string_of_uint_nonspace d :
  Text.all_chars (fun c => negb (Text.isspace c)) (NilEmpty.string_of_uint d) = true.
Proof. induction d; cbn; [reflexivity | exact IHd ..]. Qed.

Lemma strip_nonspace s :
  Text.all_chars (fun c => negb (Text.isspace c)) s = true -> Text.strip s = s.
Proof.
  intros H. unfold Text.strip.
  assert (Hl : Text.lstrip s = s).
  { destruct s as [|c s]; [reflexivity|]. cbn in *.
    apply andb_true_iff in H as [Hc _]. apply negb_true_iff in Hc. now rewrite Hc. }
  assert (Happ : (s ++ "")%string = s).
  { clear. induction s as [|c s IH]; cbn; [reflexivity | now rewrite IH]. }
  rewrite Hl. rewrite <- Happ at 1. rewrite (rstrip_nonspace s "" H). exact Happ.
Qed.

Lemma string_of_uint_digits d :
  Text.all_chars isdigit_ascii (NilEmpty.string_of_uint d) = true.
Proof. induction d; cbn; [reflexivity | exact IHd ..]. Qed.

Lemma string_of_uint_length d :
  String.length (NilEmpty.string_of_uint d) = Decimal.nb_digits d.
Proof. induction d; cbn; [reflexivity | now rewrite IHd ..]. Qed.

Lemma digit_not_space c : isdigit_ascii c = true -> isspace_ascii c = false.
Proof.
  unfold isdigit_ascii, isspace_ascii, Text.between. intros H.
  apply andb_true_iff in H as [H1 H2]. apply N.leb_le in H1, H2.
  apply orb_false_iff. split; [|apply N.eqb_neq; lia].
  apply andb_false_iff. right. apply N.leb_gt. lia.
Qed.

Lemma digit_not_nul c : isdigit_ascii c = true -> (Text.code c =? 0)%N = false.
Proof.
  unfold isdigit_ascii, Text.between. intros H.
  apply andb_true_iff in H as [H1 _]. apply N.leb_le in H1. apply N.eqb_neq. lia.
Qed.

Lemma sign_digit c s : isdigit_ascii c = true -> sign (String c s) = (false, String c s).
Proof.
  destruct c as [[] [] [] [] [] [] [] []]; intros H; vm_compute in H;
    try discriminate; reflexivity.
Qed.

Lemma c_string_digits s : Text.all_chars isdigit_ascii s = true -> c_string s = s.
Proof.
  induction s as [|c s IH]; cbn; [reflexivity|]. intros H.
  apply andb_true_iff in H as [Hc Hs]. now rewrite (digit_not_nul c Hc), IH.
Qed.

(** The reader on a run of digits that ends the text: seventeen
    digits are accumulated, the others are counted. *)
Lemma int_part_digits s : forall number nd exponent,
  Text.all_chars isdigit_ascii s = true -> (nd <= 17)%nat ->
  finite_below (54 + 7 * Z.of_nat nd) number ->
  exists number',
    int_part number nd exponent s
    = (number', Nat.min (nd + String.length s) 17,
       (exponent + Z.of_nat (nd + String.length s - 17))%Z, "")
    /\ finite_below 173 number'.
Proof.
  induction s as [|c s IH]; intros number nd exponent Hs Hnd Hn.
  - exists number. cbn [int_part String.length]. split.
    + rewrite !pair_equal_spec. repeat split; lia.
    + apply (finite_below_mono (54 + 7 * Z.of_nat nd)); [lia | exact Hn].
  - cbn [Text.all_chars] in Hs. apply andb_true_iff in Hs as [Hc Hs].
    cbn [int_part String.length]. rewrite Hc. unfold max_digits.
    destruct (nd <? 17)%nat eqn:E.
    + apply Nat.ltb_lt in E.
      destruct (IH (push number c) (S nd) exponent Hs ltac:(lia)) as (n' & Hi & Hb).
      { replace (54 + 7 * Z.of_nat (S nd))%Z with (54 + 7 * Z.of_nat nd + 7)%Z by lia.
        apply push_below; [exact Hc | exact Hn | lia]. }
      exists n'. split; [|exact Hb]. rewrite Hi.
      rewrite !pair_equal_spec. repeat split; lia.
    + apply Nat.ltb_ge in E.
      destruct (IH number nd (exponent + 1)%Z Hs Hnd Hn) as (n' & Hi & Hb).
      exists n'. split; [|exact Hb]. rewrite Hi.
      rewrite !pair_equal_spec. repeat split; lia.
Qed.

(** A numeral of one to nineteen digits, with or without a minus
    sign, is read, and read as a possible integer. *)
Lemma precise_xstrtod_digits (neg : bool) ds :
  Text.all_chars isdigit_ascii ds = true ->
  (1 <= String.length ds <= 19)%nat ->
  exists f, precise_xstrtod ((if neg then "-" else "") ++ ds) = Some (f, true).
Proof.
  intros Hds Hlen.
  destruct (int_part_digits ds (Zero false) 0 0 Hds ltac:(lia) I) as (number & Hi & Hb).
  assert (Hhead : sign (skip_ws ((if neg then "-" else "") ++ ds)) = (neg, ds)).
  { destruct neg; [reflexivity|]. cbn [append].
    destruct ds as [|c s]; [cbn in Hlen; lia|]. cbn [Text.all_chars] in Hds.
    apply andb_true_iff in Hds as [Hc _]. cbn [skip_ws].
    rewrite (digit_not_space c Hc). now apply sign_digit. }
  unfold precise_xstrtod. rewrite Hhead, Hi. cbv beta iota zeta.
  cbn [Nat.add].
  destruct (Nat.min (String.length ds) 17) as [|k] eqn:Ek; [lia|].
  set (exponent := (0 + Z.of_nat (String.length ds - 17))%Z).
  assert (Hexp : (0 <= exponent <= 2)%Z) by (unfold exponent; lia).
  set (number1 := if neg then B64.opp number else number).
  assert (Hb1 : finite_below 173 number1).
  { unfold number1. destruct neg; [now apply finite_below_opp | exact Hb]. }
  replace (308 <? exponent)%Z with false by (symmetry; apply Z.ltb_ge; lia).
  set (number2 := if (0 <? exponent)%Z then B64.mul number1 (e10 exponent)
                  else if (exponent <? -308)%Z
                       then if (exponent <? -616)%Z then Zero false
                            else B64.div (B64.div number1 (e10 (-308 - exponent))) (e10 308)
                       else B64.div number1 (e10 (- exponent))).
  assert (Hb2 : finite_below 181 number2).
  { unfold number2. destruct (0 <? exponent)%Z eqn:E0.
    - apply Z.ltb_lt in E0.
      assert (He : finite_below 7 (e10 exponent)).
      { assert (exponent = 1 \/ exponent = 2)%Z as [-> | ->] by lia;
          vm_compute; split; [reflexivity | discriminate | reflexivity | discriminate]. }
      apply (mul_below 173 7 _ _ Hb1 He). lia.
    - apply Z.ltb_ge in E0. assert (exponent = 0)%Z as -> by lia.
      cbn [Z.ltb Z.compare Z.opp].
      apply (finite_below_mono 174); [lia|]. apply (div_one_below 173 _ Hb1). lia. }
  rewrite (finite_below_not_inf 181 number2 Hb2). cbn [skip_ws Text.is_empty].
  now exists number2.
Qed.

Lemma of_uint_acc_lower d : forall acc,
  (N.pos acc * 10 ^ N.of_nat (Decimal.nb_digits d) <= N.pos (Pos.of_uint_acc d acc))%N.
Proof.
  induction d as [|d IH|d IH|d IH|d IH|d IH|d IH|d IH|d IH|d IH|d IH]; intros acc;
    cbn [Decimal.nb_digits Pos.of_uint_acc];
    [cbn; lia | ..];
    rewrite Nat2N.inj_succ, N.pow_succ_r';
    (eapply N.le_trans; [|apply IH]);
    assert (0 < 10 ^ N.of_nat (Decimal.nb_digits d))%N
      by (apply N.neq_0_lt_0, N.pow_nonzero; discriminate);
    nia.
Qed.

(** A printed positive integer has no more digits than its size
    allows. *)
Lemma to_uint_length p :
  (Z.pos p < 10 ^ 19)%Z -> (1 <= Decimal.nb_digits (Pos.to_uint p) <= 19)%nat.
Proof.
  intros Hp. pose proof (DecimalPos.Unsigned.of_to p) as Hof.
  pose proof (DecimalPos.Unsigned.to_of (Pos.to_uint p)) as Hto.
  rewrite Hof in Hto. cbn [N.to_uint] in Hto.
  pose proof (DecimalPos.Unsigned.to_uint_nonnil p) as Hnn.
  destruct (Pos.to_uint p) as [|d|d|d|d|d|d|d|d|d|d] eqn:Ed; [congruence| | ..].
  { exfalso. unfold Decimal.unorm in Hto.
    destruct (Decimal.nzhead (Decimal.D0 d)) eqn:En; try discriminate.
    - injection Hto as ->. discriminate Hof.
    - now apply DecimalFacts.nzhead_nonzero in En. }
  all: cbn [Decimal.nb_digits]; split; [lia|];
    cbn [Pos.of_uint] in Hof; injection Hof as Hof;
    match type of Hof with
    | Pos.of_uint_acc _ ?a = _ => pose proof (of_uint_acc_lower d a) as Hl
    end;
    rewrite Hof in Hl;
    assert (Hlt : (10 ^ N.of_nat (Decimal.nb_digits d) < 10 ^ 19)%N) by lia;
    apply N.pow_lt_mono_r_iff in Hlt; lia.
Qed.

Lemma nil_zero_empty p :
  NilZero.string_of_uint (Pos.to_uint p) = NilEmpty.string_of_uint (Pos.to_uint p).
Proof.
  pose proof (DecimalPos.Unsigned.to_uint_nonnil p) as Hnn.
  now destruct (Pos.to_uint p).
Qed.

(** The text of an int64 integer is read as that integer. *)
Lemma str_to_num_int z :
  in_int64 z = true -> exists f, str_to_num (int_str z) = NInt z f.
Proof.
  unfold in_int64, int64_min, int64_max. intros Hz.
  apply andb_true_iff in Hz as [H1 H2]. apply Z.leb_le in H1, H2.
  unfold int_str. destruct z as [|p|p]; cbn [Z.to_int NilZero.string_of_int].
  - eexists. vm_compute. reflexivity.
  - rewrite nil_zero_empty.
    set (d := Pos.to_uint p).
    pose proof (string_of_uint_digits d) as Hds.
    pose proof (to_uint_length p ltac:(lia)) as Hlen. fold d in Hlen.
    rewrite <- string_of_uint_length in Hlen.
    destruct (precise_xstrtod_digits false _ Hds Hlen) as [f Hf]. cbn [append] in Hf.
    exists f. unfold str_to_num, floatify.
    rewrite (c_string_digits _ Hds), Hf.
    assert (Hne : Text.is_empty (NilEmpty.string_of_uint d) = false).
    { destruct (NilEmpty.string_of_uint d); [cbn in Hlen; lia | reflexivity]. }
    rewrite Hne.
    assert (Hint : py_int (NilEmpty.string_of_uint d) = Some (Z.pos p)).
    { unfold py_int. rewrite (strip_nonspace _ (string_of_uint_nonspace d)).
      destruct (string_of_uint_head d (DecimalPos.Unsigned.to_uint_nonnil p))
        as (_ & Hsg & _ & Hnd).
      rewrite Hsg. destruct (digits_of_uint d 0) as [_ Hd]. rewrite Hd.
      unfold d. rewrite DecimalPos.Unsigned.of_to. cbn [Nat.add].
      fold d. destruct (Decimal.nb_digits d); [congruence | reflexivity]. }
    now rewrite Hint.
  - rewrite nil_zero_empty.
    set (d := Pos.to_uint p).
    pose proof (string_of_uint_digits d) as Hds.
    pose proof (to_uint_length p ltac:(lia)) as Hlen. fold d in Hlen.
    rewrite <- string_of_uint_length in Hlen.
    destruct (precise_xstrtod_digits true _ Hds Hlen) as [f Hf]. cbn [append] in Hf.
    exists f. unfold str_to_num, floatify. cbn [c_string Text.is_empty].
    change (Text.code "-" =? 0)%N with false. cbv iota.
    rewrite (c_string_digits _ Hds), Hf.
    assert (Hint : py_int (String "-" (NilEmpty.string_of_uint d)) = Some (Z.neg p)).
    { unfold py_int.
      assert (Hstrip : Text.strip (String "-" (NilEmpty.string_of_uint d))
                       = String "-" (NilEmpty.string_of_uint d)).
      { apply strip_nonspace. cbn [Text.all_chars].
        now rewrite string_of_uint_nonspace. }
      rewrite Hstrip. cbn [sign].
      destruct (digits_of_uint d 0) as [_ Hd]. rewrite Hd.
      unfold d. rewrite DecimalPos.Unsigned.of_to. cbn [Nat.add].
      fold d. destruct (Decimal.nb_digits d) eqn:En; [|reflexivity].
      rewrite string_of_uint_length in Hlen. lia. }
    now rewrite Hint.
Qed.

Lemma strip_int_str z : Text.strip (int_str z) = int_str z.
Proof.
  apply strip_nonspace. unfold int_str.
  destruct z as [|p|p]; cbn [Z.to_int NilZero.string_of_int]; [reflexivity| |].
  - pose proof (DecimalPos.Unsigned.to_uint_nonnil p) as Hnn.
    replace (NilZero.string_of_uint (Pos.to_uint p))
      with (NilEmpty.string_of_uint (Pos.to_uint p))
      by (now destruct (Pos.to_uint p)).
    apply string_of_uint_nonspace.
  - pose proof (DecimalPos.Unsigned.to_uint_nonnil p) as Hnn.
    replace (NilZero.string_of_uint (Pos.to_uint p))
      with (NilEmpty.string_of_uint (Pos.to_uint p))
      by (now destruct (Pos.to_uint p)).
    cbn [Text.all_chars]. now rewrite string_of_uint_nonspace.
Qed.

(** An int64 column that has been made text by the trimmer is read
    back as it was. *)
Lemma to_numeric_trimmed_int l :
  all_int64 l -> series_to_numeric (trimmed_text (SInt64 l)) = SInt64 l.
Proof.
  intros Hl. unfold trimmed_text. cbn [cells]. rewrite map_map.
  set (texts := map (fun z => VStr (Text.strip (py_str (VInt z)))) l).
  assert (Hfast : int_fastpath texts = None).
  { unfold texts. now destruct l. }
  assert (Hns : exists fs, length fs = length l /\
                  map cell_to_num texts = map (fun zf => NInt (fst zf) (snd zf)) (combine l fs)).
  { unfold texts. clear Hfast texts. induction Hl as [|z l Hz Hl IH].
    - now exists [].
    - destruct IH as (fs & Hlen & IH).
      destruct (str_to_num_int z Hz) as [f Hf]. exists (f :: fs). split; [cbn; lia|].
      cbn [map combine fst snd py_str cell_to_num]. rewrite strip_int_str, Hf. now rewrite <- IH. }
  destruct Hns as (fs & Hlen & Hns).
  unfold series_to_numeric. rewrite Hfast. cbv zeta. rewrite Hns.
  assert (Hkinds : forall (zs : list Z) (gs : list pyfloat),
            all_int64 zs -> length gs = length zs ->
            let ns := map (fun zf => NInt (fst zf) (snd zf)) (combine zs gs) in
            existsb is_float ns = false /\ existsb out_of_range ns = false /\
            existsb is_uint ns = false /\ map to_int ns = zs /\
            existsb is_int ns = negb (Nat.eqb (length zs) 0)).
  { clear. intros zs gs Hzs. revert gs.
    induction Hzs as [|z zs Hz Hzs IH]; intros [|g gs] Hlen; cbn in Hlen; try lia.
    - now repeat split.
    - destruct (IH gs ltac:(lia)) as (A & B & C & D & _).
      cbn [combine map existsb fst snd is_float out_of_range is_uint to_int is_int length
           Nat.eqb negb orb].
      rewrite A, B, C, D.
      unfold in_int64, int64_min, int64_max, uint64_max in *.
      apply andb_true_iff in Hz as [H1 H2]. apply Z.leb_le in H1, H2.
      repeat split.
      + apply orb_false_iff. split; [|reflexivity].
        apply orb_false_iff. split; apply Z.ltb_ge; lia.
      + apply orb_false_iff. split; [|reflexivity].
        apply andb_false_iff. left. apply Z.ltb_ge. lia. }
  destruct (Hkinds l fs Hl Hlen) as (A & B & C & D & E).
  unfold seen_float. rewrite A, B, C, D, E. cbn [orb andb].
  destruct l; reflexivity.
Qed.

Variable list_of_set : list string -> list string.
Hypothesis list_of_set_spec : lists_the_set list_of_set.

(** The sanitizer sees a table through its labels and its columns read
    as numbers. *)
Lemma handle_missing_values_same df df' :
  wf df -> wf df' -> columns df' = columns df ->
  with_numeric_columns df' = with_numeric_columns df ->
  Val.handle_missing_values list_of_set df' = Val.handle_missing_values list_of_set df.
Proof.
  intros Hwf Hwf' Hc Hn.
  assert (Hrows : rows_ok notna (with_numeric_columns df') = rows_ok notna (with_numeric_columns df)).
  { now rewrite Hn. }
  assert (Hone : Forall (names_one df') (Val.price_cols df' ++ Val.qty_cols df') <->
                 Forall (names_one df) (Val.price_cols df ++ Val.qty_cols df)).
  { rewrite (cols_of_columns df df' Hc). unfold names_one. now rewrite Hc. }
  destruct (Val.handle_missing_values list_of_set df') as [a|e1] eqn:H1;
    destruct (Val.handle_missing_values list_of_set df) as [b|e2] eqn:H2.
  - apply (handle_missing_values_value list_of_set list_of_set_spec df' a Hwf') in H1
      as [_ ->].
    apply (handle_missing_values_value list_of_set list_of_set_spec df b Hwf) in H2
      as [_ ->].
    now rewrite Hrows, Hn.
  - apply (handle_missing_values_value list_of_set list_of_set_spec df' a Hwf') in H1
      as [H1 _].
    apply Hone in H1.
    assert (H : Val.handle_missing_values list_of_set df
                = Ok (frame_take (rows_ok notna (with_numeric_columns df)) (with_numeric_columns df))).
    { apply (handle_missing_values_value list_of_set list_of_set_spec df _ Hwf).
      now split. }
    congruence.
  - apply (handle_missing_values_value list_of_set list_of_set_spec df b Hwf) in H2
      as [H2 _].
    apply Hone in H2.
    assert (H : Val.handle_missing_values list_of_set df'
                = Ok (frame_take (rows_ok notna (with_numeric_columns df')) (with_numeric_columns df'))).
    { apply (handle_missing_values_value list_of_set list_of_set_spec df' _ Hwf').
      now split. }
    congruence.
  - apply (handle_missing_values_raised list_of_set df' e1 list_of_set_spec) in H1
      as [-> _].
    apply (handle_missing_values_raised list_of_set df e2 list_of_set_spec) in H2
      as [-> _].
    reflexivity.
Qed.

Lemma with_numeric_trimmed_int cols df :
  (forall c s, In (c, s) (data df) -> In c cols ->
     is_matched c = true /\ exists l, s = SInt64 l /\ all_int64 l) ->
  with_numeric_columns (update_frame trimmed_text cols df) = with_numeric_columns df.
Proof.
  intros H. unfold with_numeric_columns, update_frame. cbn [index data]. f_equal.
  rewrite map_map. apply map_ext_in. intros [c s] Hcs.
  unfold on_labels. cbn [fst snd]. destruct (mem c cols) eqn:Hm; [|reflexivity].
  apply mem_In in Hm. destruct (H c s Hcs Hm) as (Hc & l & -> & Hl).
  unfold numeric_column. cbn [fst snd]. rewrite Hc. now rewrite to_numeric_trimmed_int.
Qed.

End ReadBack.

(** ** Cells in which there is no number *)

Section Unread.
Import Numeral.









End Unread.

(** * The properties of the specification *)

(** C3. [clean_column_names] always returns; it renames each column to
    its label trimmed of surrounding whitespace, lower-cased, with every
    maximal run of non-word characters replaced by one underscore, and
    leaves the row labels and all cell data as they were.  The header
    ["Product Name", " Unit-Price ", "QTY!"] becomes
    ["product_name", "unit_price", "qty_"]. *)
Theorem clean_column_names_normalizes (df : DataFrame) :
  (exists df',
     eval clean_column_names df = Ok df' /\
     index df' = index df /\
     map snd (data df') = map snd (data df) /\
     columns df' = map clean_name (columns df)) /\
  (forall c r, Normalized c r <-> r = clean_name c) /\
  map clean_name raw_header = ["product_name"; "unit_price"; "qty_"].
Proof.
  split; [|split; [apply normalized_iff | reflexivity]].
  rewrite eval_clean_column_names.
  destruct (Val.clean_column_names df) as [df'|e] eqn:E.
  - exists df'. split; [reflexivity|]. now apply clean_column_names_columns.
  - now rewrite clean_column_names_value in E.
Qed.

(** C6. Normalizing the column names twice gives the same names as
    normalizing them once. *)
Theorem clean_column_names_idempotent (df : DataFrame) :
  exists df1 df2,
    eval clean_column_names df = Ok df1 /\
    eval clean_column_names df1 = Ok df2 /\
    columns df2 = columns df1.
Proof.
  rewrite eval_clean_column_names, clean_column_names_value.
  eexists. rewrite eval_clean_column_names, clean_column_names_value.
  eexists. split; [reflexivity|]. split; [reflexivity|].
  unfold columns. cbn [data].
  rewrite !combine_fst by now rewrite !length_map.
  rewrite map_map. apply map_ext. intros cs. apply clean_name_idem.
Qed.

(** C4. Each of the four stages leaves every object that was in the
    store as it was (its argument among them), and, when it returns,
    returns a reference to an object that did not exist before. *)
Theorem stages_leave_input_unchanged
    (list_of_set : list string -> list string) (text_columns : option (list string))
    (h : store) (df : loc) :
  fresh_result (clean_column_names df) h /\
  fresh_result (strip_text_columns df text_columns) h /\
  fresh_result (handle_missing_values list_of_set df) h /\
  fresh_result (remove_invalid_rows df) h.
Proof.
  repeat split.
  - apply (fresh_stage clean_column_names Val.clean_column_names).
    + intros v. apply runs_clean_column_names.
    + apply bind_copy_bad.
  - apply (fresh_stage (fun l => strip_text_columns l text_columns)
                       (Val.strip_text_columns text_columns)).
    + intros v. apply runs_strip_text_columns.
    + apply bind_copy_bad.
  - apply (fresh_stage (handle_missing_values list_of_set)
                       (Val.handle_missing_values list_of_set)).
    + intros v. apply runs_handle_missing_values.
    + apply bind_copy_bad.
  - apply (fresh_stage remove_invalid_rows Val.remove_invalid_rows).
    + intros v. apply runs_remove_invalid_rows.
    + apply bind_copy_bad.
Qed.




(** C2, for tables in which every price or quantity label names one
    column.  On such a table, with columns as long as its index, a
    result of [remove_invalid_rows] is the table restricted to the rows
    whose cell in every price column and every quantity column is
    [>= 0]: a row is kept if and only if all these cells are.  There is
    a result whenever these columns hold no text, which is what
    [handle_missing_values] hands over.  A negative number, NaN and
    minus infinity are not [>= 0]; zero, [-0.0] and infinity are.  Of
    the rows (price -5, qty 3), (price 10, qty -1), (price 10, qty 3)
    only the third is kept; of the prices -0.5, NaN, -0.0, inf, 2.5,
    -inf the third, fourth and fifth are kept. *)
Theorem remove_invalid_rows_keeps_nonnegative (df : DataFrame) :
  wf df -> Forall (names_one df) (Val.price_cols df ++ Val.qty_cols df) ->
  (forall df', eval remove_invalid_rows df = Ok df' ->
     df' = Pandas.frame_take (rows_ok nonneg df) df) /\
  (forall i, (i < length (index df))%nat ->
     (rows_ok nonneg df !! i = Some true <->
      forall c s, In (c, s) (data df) -> is_matched c = true ->
        exists v, cells s !! i = Some v /\ nonneg v = true)) /\
  (numeric_input df -> exists df', eval remove_invalid_rows df = Ok df') /\
  (forall list_of_set df0,
     lists_the_set list_of_set -> wf df0 ->
     eval (handle_missing_values list_of_set) df0 = Ok df -> numeric_input df) /\
  map nonneg [VInt (-5); VInt 0; VInt 10; VFloat (ratio (-1) 2); VFloat NaN;
              VFloat (Zero true); VFloat (Zero false); VFloat (Inf false);
              VFloat (Inf true); VFloat (ratio 5 2); VBool false; VStr "3"]
  = [false; true; true; false; false; true; true; true; false; true; true; false] /\
  (rows_ok nonneg three_rows = [false; false; true] /\
   eval remove_invalid_rows three_rows
   = Ok {| index := [2]%Z; data := [("price", SInt64 [10]%Z); ("qty", SInt64 [3]%Z)] |}) /\
  eval remove_invalid_rows float_rows
  = Ok {| index := [2; 3; 4]%Z;
          data := [("price", SFloat64 [Zero true; Inf false; ratio 5 2]);
                   ("note", SObject [VStr "c"; VStr "d"; VStr "e"])] |}.
Proof.
  intros Hwf Hone. rewrite !eval_remove_invalid_rows.
  split; [|split; [|split; [|split; [|split; [|split; [split|]]]]]].
  - intros df'. now apply remove_invalid_rows_value.
  - intros i. apply rows_ok_at.
  - now apply remove_invalid_rows_total.
  - intros list_of_set df0 Hset Hwf0. rewrite eval_handle_missing_values. intros H.
    now apply (sanitized_numeric_input list_of_set Hset df0 df Hwf0) in H.
  - vm_compute. reflexivity.
  - reflexivity.
  - reflexivity.
  - vm_compute. reflexivity.
Qed.

Lemma remove_invalid_rows_keeps_nonnegative_witness :
  wf float_rows /\
  Forall (names_one float_rows) (Val.price_cols float_rows ++ Val.qty_cols float_rows) /\
  rows_ok nonneg float_rows = [false; false; true; true; true; false] /\
  exists df',
    eval remove_invalid_rows float_rows = Ok df' /\
    df' = Pandas.frame_take (rows_ok nonneg float_rows) float_rows /\
    index df' = [2; 3; 4]%Z.
Proof.
  assert (Hwf : wf float_rows) by (repeat constructor).
  assert (Hone : Forall (names_one float_rows)
                   (Val.price_cols float_rows ++ Val.qty_cols float_rows))
    by (vm_compute; repeat constructor).
  split; [exact Hwf|]. split; [exact Hone|]. split; [vm_compute; reflexivity|].
  destruct (remove_invalid_rows_keeps_nonnegative float_rows Hwf Hone)
    as (Hkeep & _ & _ & _ & _ & _ & Hrun).
  eexists. split; [exact Hrun|]. split; [now apply (Hkeep _ Hrun) | reflexivity].
Defined.

(** C2 does not hold for every table.  In a table whose columns all
    carry the label "price", [df["price"]] is the table itself, the
    comparison is a boolean table, and [df[...]] masks cells instead of
    selecting rows: the row whose second price is -2 is kept, with NaN in
    place of the -2. *)
Lemma repeated_price_label_keeps_rows :
  wf masked_prices /\
  rows_ok nonneg masked_prices = [false; true] /\
  eval remove_invalid_rows masked_prices
  = Ok {| index := [0; 1]%Z;
          data := [("price", SInt64 [1; 3]%Z);
                   ("price", SFloat64 [NaN; B64.of_Z 4])] |} /\
  eval remove_invalid_rows masked_prices
  <> Ok (Pandas.frame_take (rows_ok nonneg masked_prices) masked_prices).
Proof.
  split; [repeat constructor|]. split; [reflexivity|].
  split; [vm_compute; reflexivity|]. vm_compute. discriminate.
Qed.

(** C5. The rows that [handle_missing_values] returns are rows of its
    input (with the price and quantity columns converted to numbers), in
    the order they had there.  The row labels that [remove_invalid_rows]
    returns are row labels of its input, in the order they had there;
    when every price or quantity label names one column its rows are
    rows of its input, in order, and otherwise no row is removed.  The
    two other stages keep every row in place.  Of the rows labelled 5,
    3, 9, 1 with prices "1", "-1", "2", "x" the sanitizer keeps 5, 3, 9
    and the range filter then keeps 5, 9. *)
Theorem filtering_keeps_row_order
    (list_of_set : list string -> list string) (text_columns : option (list string))
    (df : DataFrame) :
  (forall df', eval (handle_missing_values list_of_set) df = Ok df' ->
     rows df' `sublist_of` rows (with_numeric_columns df) /\
     index df' `sublist_of` index df) /\
  (forall df', eval remove_invalid_rows df = Ok df' ->
     index df' `sublist_of` index df /\
     (Forall (names_one df) (Val.price_cols df ++ Val.qty_cols df) ->
        rows df' `sublist_of` rows df) /\
     (~ Forall (names_one df) (Val.price_cols df ++ Val.qty_cols df) ->
        index df' = index df)) /\
  (forall df', eval clean_column_names df = Ok df' -> rows df' = rows df) /\
  (forall df', eval (fun l => strip_text_columns l text_columns) df = Ok df' ->
     index df' = index df) /\
  (exists df1 df2,
     eval (handle_missing_values dedup) shuffled = Ok df1 /\
     eval remove_invalid_rows df1 = Ok df2 /\
     rows df1 = [(5, [Some (VFloat (B64.of_Z 1))]); (3, [Some (VFloat (B64.of_Z (-1)))]);
                 (9, [Some (VFloat (B64.of_Z 2))])]%Z /\
     rows df2 = [(5, [Some (VFloat (B64.of_Z 1))]); (9, [Some (VFloat (B64.of_Z 2))])]%Z).
Proof.
  rewrite eval_handle_missing_values, eval_remove_invalid_rows,
    eval_clean_column_names, eval_strip_text_columns.
  split; [|split; [|split; [|split]]].
  - intros df' H. apply handle_missing_values_rows in H. split; [exact H|].
    now apply sublist_index in H.
  - intros df' H. split; [now apply remove_invalid_rows_index|]. split.
    + intros Hone. now apply remove_invalid_rows_rows.
    + intros Hnot. now apply (remove_invalid_rows_repeated df df' H) in Hnot as [-> _].
  - intros df'. apply clean_column_names_rows.
  - intros df' H. apply strip_text_columns_value in H as [_ ->]. reflexivity.
  - eexists. eexists. split; [vm_compute; reflexivity|].
    split; [vm_compute; reflexivity|]. split; vm_compute; reflexivity.
Qed.

(** C7. On a table whose columns are as long as its index, the result
    of [handle_missing_values] does not depend on the order in which the
    set of required columns is listed, and applying the stage to its own
    result returns that result again.  A label that contains both
    "price" and "qty" or "quantity" is in both lists of columns, so its
    column is visited under both rules. *)
Theorem handle_missing_values_idempotent
    (list_of_set list_of_set' : list string -> list string) (df : DataFrame) :
  lists_the_set list_of_set -> lists_the_set list_of_set' -> wf df ->
  eval (handle_missing_values list_of_set) df
  = eval (handle_missing_values list_of_set') df /\
  (forall df1, eval (handle_missing_values list_of_set) df = Ok df1 ->
     eval (handle_missing_values list_of_set) df1 = Ok df1) /\
  (forall c, In c (columns df) -> is_price c = true -> is_qty c = true ->
     In c (Val.price_cols df) /\ In c (Val.qty_cols df)).
Proof.
  intros Hset Hset' Hwf. split; [|split].
  - rewrite !eval_handle_missing_values. now apply handle_missing_values_any_order.
  - intros df1. rewrite !eval_handle_missing_values.
    now apply handle_missing_values_again.
  - intros c Hc Hp Hq. split; apply filter_In; now split.
Qed.

Lemma handle_missing_values_idempotent_witness :
  lists_the_set dedup /\ lists_the_set (fun l => rev (dedup l)) /\ wf sales /\
  eval (handle_missing_values dedup) sales
  = eval (handle_missing_values (fun l => rev (dedup l))) sales /\
  exists df1,
    eval (handle_missing_values dedup) sales = Ok df1 /\
    eval (handle_missing_values dedup) df1 = Ok df1.
Proof.
  assert (Hset : lists_the_set dedup) by (intros l c; apply nodup_In).
  assert (Hset' : lists_the_set (fun l => rev (dedup l))).
  { intros l c. rewrite <- in_rev. apply nodup_In. }
  assert (Hwf : wf sales) by (repeat constructor).
  destruct (handle_missing_values_idempotent dedup (fun l => rev (dedup l)) sales
              Hset Hset' Hwf) as (Horder & Hagain & _).
  split; [exact Hset|]. split; [exact Hset'|]. split; [exact Hwf|]. split; [exact Horder|].
  eexists. split; [reflexivity|]. apply Hagain. reflexivity.
Defined.


(** C10. When [strip_text_columns] is called without a list of columns
    and returns, every object column has become trimmed text and every
    other column is as it was.  In an object column a missing value has
    become the text "nan", as the text "nan" itself has: no cell of the
    column is a missing value afterwards. *)
Theorem missing_text_becomes_nan (df df' : DataFrame) :
  eval (fun l => strip_text_columns l None) df = Ok df' ->
  data df' = map (fun cs => if is_object (snd cs) then (fst cs, trimmed_text (snd cs)) else cs)
                 (data df) /\
  (forall v, isna v = true -> VStr (Text.strip (py_str v)) = VStr "nan") /\
  VStr (Text.strip (py_str (VStr "nan"))) = VStr "nan" /\
  isna (VStr "nan") = false /\
  (forall s v, In v (cells (trimmed_text s)) -> isna v = false).
Proof.
  rewrite eval_strip_text_columns. intros H.
  apply strip_text_columns_value in H as [Hone ->]. cbn [Val.selected] in *.
  split; [|split; [|split; [|split]]].
  - cbn [update_frame data]. apply map_ext_in. intros [c s] Hcs.
    unfold on_labels. cbn [fst snd].
    destruct (is_object s) eqn:Hs.
    + replace (mem c (Pandas.select_dtypes_object df)) with true; [reflexivity|].
      symmetry. apply mem_In. unfold Pandas.select_dtypes_object.
      apply in_map_iff. exists (c, s). split; [reflexivity|]. apply filter_In. now split.
    + replace (mem c (Pandas.select_dtypes_object df)) with false; [reflexivity|].
      symmetry. apply mem_false. intros Hin.
      rewrite List.Forall_forall in Hone. specialize (Hone c Hin).
      apply names_one_select in Hone as [s0 Hs0].
      unfold Pandas.select_dtypes_object in Hin.
      apply in_map_iff in Hin as ([c' s'] & E & Hin'). cbn in E. subst c'.
      apply filter_In in Hin' as [Hin' Hobj]. cbn in Hobj.
      apply select_In in Hin'. apply select_In in Hcs. rewrite Hs0 in Hin', Hcs.
      destruct Hin' as [<-|[]]. destruct Hcs as [<-|[]]. congruence.
  - intros v Hv. destruct v as [t|z|[]|b]; try discriminate. reflexivity.
  - reflexivity.
  - reflexivity.
  - intros s v Hv. cbn in Hv. apply in_map_iff in Hv as (w & <- & _). reflexivity.
Qed.

Lemma missing_text_becomes_nan_witness :
  exists df',
    eval (fun l => strip_text_columns l None) notes = Ok df' /\
    data df' = [("note", SObject [VStr "ok"; VStr "nan"; VStr "nan"]);
                ("qty", SInt64 [1; 2; 3]%Z)].
Proof.
  eexists. split; [reflexivity|].
  destruct (missing_text_becomes_nan notes _ eq_refl) as [E _]. rewrite E. reflexivity.
Defined.

(** C9, for headers whose normalized names are pairwise distinct.  For
    an input that has a header row and no data row, every stage returns
    a table without rows, and the main block returns the table that has
    the normalized header and no row: what is written is the normalized
    header alone. *)
Theorem empty_input_pipeline
    (list_of_set : list string -> list string) (header : list string) :
  lists_the_set list_of_set -> NoDup (map clean_name header) ->
  exists df1 df2 df3 df4,
    eval clean_column_names (header_only header) = Ok df1 /\
    eval (fun l => strip_text_columns l None) df1 = Ok df2 /\
    eval (handle_missing_values list_of_set) df2 = Ok df3 /\
    eval remove_invalid_rows df3 = Ok df4 /\
    eval (main list_of_set) (header_only header) = Ok df4 /\
    index df1 = [] /\ index df2 = [] /\ index df3 = [] /\ index df4 = [] /\
    columns df4 = map clean_name header /\
    Forall (fun cs => cells (snd cs) = []) (data df4) /\
    to_csv df4 = [map clean_name header].
Proof.
  intros Hset Hnd.
  exists (header_only (map clean_name header)), (header_only (map clean_name header)),
    (empty_sanitized (map clean_name header)), (empty_sanitized (map clean_name header)).
  rewrite eval_clean_column_names, eval_strip_text_columns, eval_handle_missing_values,
    eval_remove_invalid_rows, eval_main.
  repeat match goal with |- _ /\ _ => split end; try reflexivity.
  - apply clean_header_only.
  - now apply strip_header_only.
  - now apply sanitize_header_only.
  - now apply range_header_only.
  - now apply main_header_only.
  - apply columns_empty_sanitized.
  - unfold empty_sanitized. cbn. apply Forall_map, Forall_true.
    intros c. cbn. now destruct (is_matched c).
  - apply to_csv_empty_sanitized.
Qed.

Lemma empty_input_pipeline_witness :
  lists_the_set dedup /\ NoDup (map clean_name raw_header) /\
  exists df', eval (main dedup) (header_only raw_header) = Ok df' /\
              to_csv df' = [["product_name"; "unit_price"; "qty_"]].
Proof.
  assert (Hset : lists_the_set dedup) by (intros l c; apply nodup_In).
  assert (Hnd : NoDup (map clean_name raw_header)).
  { vm_compute. repeat constructor; rewrite ?list_elem_of_In; cbn; intuition discriminate. }
  split; [exact Hset|]. split; [exact Hnd|].
  destruct (empty_input_pipeline dedup raw_header Hset Hnd)
    as (df1 & df2 & df3 & df4 & _ & _ & _ & _ & Hmain & _ & _ & _ & _ & _ & _ & Hcsv).
  exists df4. split; [exact Hmain | exact Hcsv].
Defined.

(** C9 does not hold for every header.  The header "Price,price" is
    loaded as two columns; their normalized names collide, [df[col]] is
    then a frame, which has no [.str], and the text trimmer raises
    although the table has no row. *)
Lemma empty_input_colliding_header :
  NoDup colliding_header /\
  eval (main dedup) (header_only colliding_header) = Raised AttributeError /\
  ~ (exists df', eval (main dedup) (header_only colliding_header) = Ok df').
Proof.
  split; [|split].
  - repeat constructor; rewrite ?list_elem_of_In; cbn; intuition discriminate.
  - reflexivity.
  - intros [df' H]. discriminate H.
Qed.

(** * Further properties of the program *)

(** X1. When [strip_text_columns] raises, a selected label is at fault:
    the error is [KeyError] for a label that is no column and
    [AttributeError] for a label carried by two columns or more ([df[col]]
    is then a frame, which has no [.str]).  Without a list of columns
    only [AttributeError] is possible.  With a list whose labels are
    carried by one column at most, a label that is no column gives
    [KeyError]. *)
Theorem strip_text_columns_failures (text_columns : option (list string)) (df : DataFrame) :
  (forall e, eval (fun l => strip_text_columns l text_columns) df = Raised e ->
     exists c, In c (Val.selected text_columns df) /\
       ((e = KeyError /\ ~ In c (columns df)) \/
        (e = AttributeError /\ 2 <= occurrences c (columns df)))) /\
  (forall e, text_columns = None ->
     eval (fun l => strip_text_columns l text_columns) df = Raised e ->
     e = AttributeError) /\
  (forall c, In c (Val.selected text_columns df) -> ~ In c (columns df) ->
     Forall (fun c' => occurrences c' (columns df) <= 1) (Val.selected text_columns df) ->
     eval (fun l => strip_text_columns l text_columns) df = Raised KeyError).
Proof.
  rewrite eval_strip_text_columns. split; [|split].
  - intros e. apply strip_text_columns_raised.
  - intros e -> H. apply strip_text_columns_raised in H as (c & Hin & [[_ H]|[-> _]]).
    + cbn in Hin. now apply dtypes_object_columns in Hin.
    + reflexivity.
  - intros c Hin Habs Hmost.
    destruct (Val.strip_text_columns text_columns df) as [df'|e] eqn:H.
    + apply strip_text_columns_value in H as [Hone _].
      rewrite List.Forall_forall in Hone. specialize (Hone c Hin).
      apply occurrences_absent in Habs. unfold names_one in Hone. lia.
    + apply strip_text_columns_raised in H as (c' & Hin' & [[-> _]|[_ H]]); [reflexivity|].
      rewrite List.Forall_forall in Hmost. specialize (Hmost c' Hin'). cbn in Hmost. lia.
Qed.



(** X3. On a table whose columns are as long as its index and whose
    price and quantity labels each name one column,
    [remove_invalid_rows] raises nothing but [TypeError], and only when
    a price or quantity column holds a text cell: the comparison with
    [0] is not defined on text, so the stage cannot be run before these
    columns are made numeric. *)
Theorem remove_invalid_rows_failures (df : DataFrame) (e : exn) :
  wf df -> Forall (names_one df) (Val.price_cols df ++ Val.qty_cols df) ->
  eval remove_invalid_rows df = Raised e ->
  e = TypeError /\
  exists c s v, In (c, s) (data df) /\ is_matched c = true /\
                In v (cells s) /\ is_text v = true.
Proof.
  intros Hwf Hone. rewrite eval_remove_invalid_rows.
  now apply remove_invalid_rows_raised.
Qed.

Lemma remove_invalid_rows_failures_witness :
  wf sales /\ Forall (names_one sales) (Val.price_cols sales ++ Val.qty_cols sales) /\
  eval remove_invalid_rows sales = Raised TypeError /\
  exists c s v, In (c, s) (data sales) /\ is_matched c = true /\
                In v (cells s) /\ is_text v = true.
Proof.
  assert (Hwf : wf sales) by (repeat constructor).
  assert (Hone : Forall (names_one sales) (Val.price_cols sales ++ Val.qty_cols sales))
    by (vm_compute; repeat constructor).
  assert (H : eval remove_invalid_rows sales = Raised TypeError) by (vm_compute; reflexivity).
  split; [exact Hwf|]. split; [exact Hone|]. split; [exact H|].
  apply (remove_invalid_rows_failures sales TypeError Hwf Hone H).
Defined.

(** X4. On a table without a price or quantity column the sanitizer and
    the range filter return the table as it is: no column is converted
    and no row is dropped ([dropna] is not called with an empty
    subset). *)
Theorem stages_without_matched_column
    (list_of_set : list string -> list string) (df : DataFrame) :
  lists_the_set list_of_set ->
  (forall c, In c (columns df) -> is_matched c = false) ->
  eval (handle_missing_values list_of_set) df = Ok df /\
  eval remove_invalid_rows df = Ok df.
Proof.
  intros Hset Hno.
  assert (Hcols : Val.price_cols df ++ Val.qty_cols df = []).
  { destruct (Val.price_cols df ++ Val.qty_cols df) as [|c l] eqn:E; [reflexivity|].
    assert (Hc : In c (Val.price_cols df ++ Val.qty_cols df)) by (rewrite E; now left).
    apply matched_cols in Hc as [Hin Hm]. rewrite (Hno c Hin) in Hm. discriminate. }
  apply app_eq_nil in Hcols as [Hp Hq].
  rewrite eval_handle_missing_values, eval_remove_invalid_rows. split.
  - unfold Val.handle_missing_values. rewrite Hp, Hq. cbn.
    destruct (list_of_set []) as [|c l] eqn:E; [reflexivity|].
    exfalso. apply (proj1 (Hset [] c)). rewrite E. now left.
  - unfold Val.remove_invalid_rows. now rewrite Hp, Hq.
Qed.

Lemma stages_without_matched_column_witness :
  lists_the_set dedup /\
  eval (handle_missing_values dedup) fruit = Ok fruit /\
  eval remove_invalid_rows fruit = Ok fruit.
Proof.
  split; [exact dedup_lists_the_set|].
  apply (stages_without_matched_column dedup fruit dedup_lists_the_set).
  intros c [<-|[]]. reflexivity.
Defined.

(** X5. On a table whose price and quantity labels each name one
    column, whatever [remove_invalid_rows] returns holds, in its price
    and quantity columns, only numbers that are not missing and not
    negative: a missing value does not pass the comparison with [0], so
    its row goes with the negative ones.  NaN, -0.5, minus infinity and
    -1 are not [>= 0]. *)
Theorem remove_invalid_rows_result (df df' : DataFrame) :
  wf df -> Forall (names_one df) (Val.price_cols df ++ Val.qty_cols df) ->
  eval remove_invalid_rows df = Ok df' ->
  (forall c s v, In (c, s) (data df') -> is_matched c = true -> In v (cells s) ->
     nonneg v = true /\ is_number v = true /\ isna v = false) /\
  map nonneg [VFloat NaN; VFloat (ratio (-1) 2); VFloat (Inf true); VInt (-1)]
  = [false; false; false; false].
Proof.
  intros Hwf Hone. rewrite eval_remove_invalid_rows. intros H.
  split; [|vm_compute; reflexivity]. intros c s v Hcs Hc Hv.
  apply remove_invalid_rows_value in H as ->; [|exact Hwf|exact Hone].
  pose proof (taken_rows_hold nonneg df c s v Hcs Hc Hv) as Hn.
  destruct (nonneg_number v Hn) as (Hnum & _ & Hna). now repeat split.
Qed.

Lemma remove_invalid_rows_result_witness :
  wf float_rows /\
  Forall (names_one float_rows) (Val.price_cols float_rows ++ Val.qty_cols float_rows) /\
  exists df', eval remove_invalid_rows float_rows = Ok df' /\
    data df' = [("price", SFloat64 [Zero true; Inf false; ratio 5 2]);
                ("note", SObject [VStr "c"; VStr "d"; VStr "e"])] /\
    forall c s v, In (c, s) (data df') -> is_matched c = true -> In v (cells s) ->
      nonneg v = true /\ is_number v = true /\ isna v = false.
Proof.
  assert (Hwf : wf float_rows) by (repeat constructor).
  assert (Hone : Forall (names_one float_rows)
                   (Val.price_cols float_rows ++ Val.qty_cols float_rows))
    by (vm_compute; repeat constructor).
  split; [exact Hwf|]. split; [exact Hone|].
  eexists. split; [vm_compute; reflexivity|]. split; [vm_compute; reflexivity|].
  apply (remove_invalid_rows_result float_rows _ Hwf Hone). vm_compute. reflexivity.
Defined.

(** X6. Filtering twice is filtering once: [remove_invalid_rows] returns
    its own result unchanged. *)
Theorem remove_invalid_rows_idempotent (df df1 : DataFrame) :
  wf df -> eval remove_invalid_rows df = Ok df1 ->
  eval remove_invalid_rows df1 = Ok df1.
Proof.
  intros Hwf. rewrite !eval_remove_invalid_rows. intros H.
  destruct (uniform df) eqn:Hu; [now apply (remove_invalid_rows_uniform_again df)|].
  pose proof (wf_remove_invalid_rows df df1 Hwf H) as Hwf1.
  pose proof (remove_invalid_rows_one df df1 Hu H) as Hone.
  apply remove_invalid_rows_value in H as ->; [|exact Hwf|exact Hone].
  apply remove_invalid_rows_fixed; [exact Hwf1| |].
  - rewrite (cols_of_columns df _ (columns_frame_take _ df)).
    eapply Forall_impl; [exact Hone|]. intros c. apply names_one_columns.
    apply columns_frame_take.
  - intros c s v. apply taken_rows_hold.
Qed.

Lemma remove_invalid_rows_idempotent_witness :
  wf three_rows /\
  exists df1, eval remove_invalid_rows three_rows = Ok df1 /\
              eval remove_invalid_rows df1 = Ok df1.
Proof.
  assert (Hwf : wf three_rows) by (repeat constructor).
  split; [exact Hwf|]. eexists. split; [vm_compute; reflexivity|].
  apply (remove_invalid_rows_idempotent three_rows _ Hwf). vm_compute. reflexivity.
Defined.

(** X7. Trimming twice is trimming once: [strip_text_columns], called
    with the same list of columns (or with none) on its own result,
    returns that result. *)
Theorem strip_text_columns_idempotent
    (text_columns : option (list string)) (df df1 : DataFrame) :
  eval (fun l => strip_text_columns l text_columns) df = Ok df1 ->
  eval (fun l => strip_text_columns l text_columns) df1 = Ok df1.
Proof.
  rewrite !eval_strip_text_columns. intros H.
  apply strip_text_columns_value in H as [Hone ->].
  assert (Hsel : Val.selected text_columns
                   (update_frame trimmed_text (Val.selected text_columns df) df)
                 = Val.selected text_columns df).
  { destruct text_columns as [cols|]; [reflexivity|].
    now apply (dtypes_object_trimmed None df). }
  apply strip_text_columns_value. rewrite Hsel. split.
  - eapply Forall_impl; [exact Hone|]. intros c. apply names_one_update_frame.
  - symmetry. apply update_frame_twice, trimmed_text_idem.
Qed.

Lemma strip_text_columns_idempotent_witness :
  exists df1, eval (fun l => strip_text_columns l None) notes = Ok df1 /\
              eval (fun l => strip_text_columns l None) df1 = Ok df1.
Proof.
  eexists. split; [vm_compute; reflexivity|].
  apply (strip_text_columns_idempotent None notes). vm_compute. reflexivity.
Defined.

(** X8. No stage adds, drops or reorders columns, and each one returns
    a table whose columns are as long as its index when it was given
    one: [clean_column_names] keeps the number of columns, the three
    other stages keep the labels. *)
Theorem stages_keep_columns
    (list_of_set : list string -> list string) (text_columns : option (list string))
    (df : DataFrame) :
  lists_the_set list_of_set -> wf df ->
  (forall df', eval clean_column_names df = Ok df' ->
     wf df' /\ length (columns df') = length (columns df)) /\
  (forall df', eval (fun l => strip_text_columns l text_columns) df = Ok df' ->
     wf df' /\ columns df' = columns df) /\
  (forall df', eval (handle_missing_values list_of_set) df = Ok df' ->
     wf df' /\ columns df' = columns df) /\
  (forall df', eval remove_invalid_rows df = Ok df' ->
     wf df' /\ columns df' = columns df).
Proof.
  intros Hset Hwf.
  rewrite eval_clean_column_names, eval_strip_text_columns,
    eval_handle_missing_values, eval_remove_invalid_rows.
  split; [|split; [|split]]; intros df' H.
  - split; [now apply (wf_clean_column_names df)|].
    apply clean_column_names_columns in H as (_ & _ & ->). apply length_map.
  - split; [now apply (wf_strip_text_columns text_columns df)|].
    apply strip_text_columns_value in H as [_ ->]. apply columns_update_frame.
  - split; [now apply (sanitized_numeric_input list_of_set Hset df)|].
    apply (handle_missing_values_value list_of_set Hset df df' Hwf) in H as [_ ->].
    now rewrite columns_frame_take, columns_with_numeric.
  - split; [now apply (wf_remove_invalid_rows df)|].
    now apply remove_invalid_rows_columns.
Qed.

Lemma stages_keep_columns_witness :
  lists_the_set dedup /\ wf sales /\
  exists df', eval (handle_missing_values dedup) sales = Ok df' /\
              wf df' /\ columns df' = ["name"; "price"; "qty"].
Proof.
  assert (Hwf : wf sales) by (repeat constructor).
  split; [exact dedup_lists_the_set|]. split; [exact Hwf|].
  destruct (stages_keep_columns dedup None sales dedup_lists_the_set Hwf)
    as (_ & _ & H & _).
  eexists. split; [vm_compute; reflexivity|]. apply H. vm_compute. reflexivity.
Defined.

(** X9. When the main block returns on a loaded table whose columns are
    as long as its index, the table it writes has the normalized
    labels, in the order of the input; its rows are rows of the input,
    in their order; every cell of a price or quantity column is a
    number that is not missing and not negative; every cell of a text
    column is text with no whitespace around it; and what is written is
    the normalized header followed by one record per row. *)
Theorem main_result
    (list_of_set : list string -> list string) (df R : DataFrame) :
  lists_the_set list_of_set -> wf df ->
  eval (main list_of_set) df = Ok R ->
  wf R /\
  columns R = map clean_name (columns df) /\
  index R `sublist_of` index df /\
  (forall c s v, In (c, s) (data R) -> is_matched c = true -> In v (cells s) ->
     nonneg v = true /\ is_number v = true) /\
  (forall c s v, In (c, s) (data R) -> is_object s = true -> In v (cells s) ->
     stripped_text v) /\
  (exists records,
     to_csv R = map clean_name (columns df) :: records /\
     length records = length (index R)).
Proof.
  intros Hset Hwf. rewrite eval_main. intros H.
  destruct (main_value list_of_set Hset df R Hwf H)
    as (HwfR & Hc & Hi & Hnum & _ & Htxt & _).
  split; [exact HwfR|]. split; [exact Hc|]. split; [exact Hi|].
  split; [exact Hnum|]. split; [exact Htxt|].
  eexists. unfold to_csv. rewrite Hc. split; [reflexivity|].
  unfold rows. now rewrite length_map, rows_of_length.
Qed.

Lemma main_result_witness :
  lists_the_set dedup /\ wf raw_sales /\
  exists R, eval (main dedup) raw_sales = Ok R /\
    columns R = ["product_name"; "unit_price"; "qty_"] /\
    index R = [0; 3]%Z /\
    forall c s v, In (c, s) (data R) -> is_matched c = true -> In v (cells s) ->
      nonneg v = true /\ is_number v = true.
Proof.
  assert (Hwf : wf raw_sales) by (repeat constructor).
  split; [exact dedup_lists_the_set|]. split; [exact Hwf|].
  eexists. split; [vm_compute; reflexivity|].
  split; [reflexivity|]. split; [reflexivity|].
  eapply (main_result dedup raw_sales _ dedup_lists_the_set Hwf). vm_compute. reflexivity.
Defined.

(** X10. On a loaded table whose columns are as long as its index, the
    main block returns exactly when the normalized name of every text
    column, and of every column that is a price or quantity column
    under its normalized name, is the normalized name of no other
    column.  In particular it returns whenever the normalized names are
    pairwise distinct. *)
Theorem main_returns (list_of_set : list string -> list string) (df : DataFrame) :
  lists_the_set list_of_set -> wf df ->
  ((exists R, eval (main list_of_set) df = Ok R) <-> no_clash df) /\
  (NoDup (map clean_name (columns df)) -> exists R, eval (main list_of_set) df = Ok R).
Proof.
  intros Hset Hwf. rewrite eval_main.
  pose proof (main_returns_value list_of_set Hset df Hwf) as H.
  split; [exact H|]. intros Hnd. apply H. now apply no_clash_NoDup.
Qed.

Lemma main_returns_witness :
  lists_the_set dedup /\ wf raw_sales /\ NoDup (map clean_name (columns raw_sales)) /\
  exists R, eval (main dedup) raw_sales = Ok R.
Proof.
  assert (Hwf : wf raw_sales) by (repeat constructor).
  assert (Hnd : NoDup (map clean_name (columns raw_sales))).
  { vm_compute. repeat constructor; rewrite ?list_elem_of_In; cbn; intuition discriminate. }
  split; [exact dedup_lists_the_set|]. split; [exact Hwf|]. split; [exact Hnd|].
  now apply (main_returns dedup raw_sales dedup_lists_the_set Hwf).
Defined.

(** X11. Cleaning a cleaned table changes nothing: on the table it has
    returned, the main block returns that table again. *)
Theorem main_idempotent
    (list_of_set : list string -> list string) (df R : DataFrame) :
  lists_the_set list_of_set -> wf df ->
  eval (main list_of_set) df = Ok R ->
  eval (main list_of_set) R = Ok R.
Proof.
  intros Hset Hwf. rewrite !eval_main. now apply main_again.
Qed.

Lemma main_idempotent_witness :
  lists_the_set dedup /\ wf raw_sales /\
  exists R, eval (main dedup) raw_sales = Ok R /\ eval (main dedup) R = Ok R.
Proof.
  assert (Hwf : wf raw_sales) by (repeat constructor).
  split; [exact dedup_lists_the_set|]. split; [exact Hwf|].
  eexists. split; [vm_compute; reflexivity|].
  apply (main_idempotent dedup raw_sales _ dedup_lists_the_set Hwf). vm_compute. reflexivity.
Defined.

(** X12. The main block leaves the loaded table, and every other object
    that was in the store, as it was; the table it returns is an object
    that did not exist before. *)
Theorem main_leaves_store
    (list_of_set : list string -> list string) (h : store) (df_raw : loc) :
  fresh_result (main list_of_set df_raw) h.
Proof.
  apply (fresh_stage (main list_of_set) (Val.main list_of_set)).
  - intros v. apply runs_main.
  - intros Hbad. unfold main. apply bind_raised.
    unfold clean_column_names. now apply bind_copy_bad.
Qed.

(** X13. Every label that [clean_column_names] gives consists of word
    characters only (letters, digits, the underscore); lower-casing it
    or stripping it changes nothing. *)
Theorem clean_column_names_word_labels (df : DataFrame) :
  exists df',
    eval clean_column_names df = Ok df' /\
    Forall (fun c => Text.all_chars Text.isword c = true /\
                     Text.lower c = c /\ Text.strip c = c) (columns df').
Proof.
  rewrite eval_clean_column_names, clean_column_names_value. eexists.
  split; [reflexivity|]. unfold columns at 1. cbn [data].
  rewrite combine_fst by (unfold columns; now rewrite !length_map).
  apply List.Forall_forall. intros c Hc. apply in_map_iff in Hc as (c0 & <- & _).
  assert (Hw : Text.all_chars Text.isword (clean_name c0) = true)
    by apply sub_nonword_words.
  split; [exact Hw|]. split; [apply lower_sub_nonword | now apply strip_words].
Qed.

(** X14. After the renaming, a column is a price column exactly when
    its loaded header contains "price" in any letter case, and a
    quantity column exactly when its loaded header contains "qty" or
    "quantity" in any letter case: the surrounding whitespace and the
    punctuation of the header play no part. *)
Theorem matching_after_renaming (df : DataFrame) :
  (forall c, is_price (clean_name c) = Text.contains "price" (Text.lower c)) /\
  (forall c, is_qty (clean_name c)
             = Text.contains "qty" (Text.lower c) || Text.contains "quantity" (Text.lower c)) /\
  exists df',
    eval clean_column_names df = Ok df' /\
    Val.price_cols df'
    = map clean_name
        (List.filter (fun c => Text.contains "price" (Text.lower c)) (columns df)) /\
    Val.qty_cols df'
    = map clean_name
        (List.filter (fun c => Text.contains "qty" (Text.lower c)
                               || Text.contains "quantity" (Text.lower c)) (columns df)).
Proof.
  assert (Hp : forall c, is_price (clean_name c) = Text.contains "price" (Text.lower c)).
  { intros c. apply contains_clean_name; [discriminate | reflexivity | reflexivity]. }
  assert (Hq : forall c, is_qty (clean_name c)
             = Text.contains "qty" (Text.lower c) || Text.contains "quantity" (Text.lower c)).
  { intros c. unfold is_qty.
    now rewrite !contains_clean_name by (discriminate || reflexivity). }
  split; [exact Hp|]. split; [exact Hq|].
  rewrite eval_clean_column_names, clean_column_names_value. eexists.
  split; [reflexivity|].
  assert (Hc : columns {| index := index df;
                          data := combine (map clean_name (columns df)) (map snd (data df)) |}
               = map clean_name (columns df)).
  { unfold columns at 1. cbn [data]. apply combine_fst. unfold columns.
    now rewrite !length_map. }
  unfold Val.price_cols, Val.qty_cols. rewrite Hc, !filter_map_swap. split; f_equal; apply filter_ext; intros c; [apply Hp | apply Hq].
Qed.



(** X16. An int64 column survives the trimmer: [astype(str)] writes
    each integer as its decimal numeral, [strip] leaves the numeral as
    it is, and [to_numeric] reads the same integer back (an int64
    integer has nineteen digits at most, which the reader takes in
    without overflow).  So trimming int64 price or quantity columns by
    name, which turns them into text columns, does not change what
    [handle_missing_values] makes of the table. *)
Theorem trimmed_integers_read_back
    (list_of_set : list string -> list string) (cols : list string) (df df1 : DataFrame) :
  lists_the_set list_of_set -> wf df ->
  (forall c s, In (c, s) (data df) -> In c cols ->
     is_matched c = true /\ exists l, s = SInt64 l /\ all_int64 l) ->
  eval (fun l => strip_text_columns l (Some cols)) df = Ok df1 ->
  (forall l, all_int64 l -> Pandas.series_to_numeric (trimmed_text (SInt64 l)) = SInt64 l) /\
  eval (handle_missing_values list_of_set) df1
  = eval (handle_missing_values list_of_set) df.
Proof.
  intros Hset Hwf Hint. rewrite eval_strip_text_columns, !eval_handle_missing_values.
  intros H. split; [apply to_numeric_trimmed_int|].
  pose proof (wf_strip_text_columns (Some cols) df df1 Hwf H) as Hwf1.
  apply strip_text_columns_value in H as [_ ->]. cbn [Val.selected] in *.
  apply (handle_missing_values_same list_of_set Hset); trivial.
  - apply columns_update_frame.
  - now apply with_numeric_trimmed_int.
Qed.

Lemma trimmed_integers_read_back_witness :
  lists_the_set dedup /\ wf wide_rows /\
  exists df1,
    eval (fun l => strip_text_columns l (Some ["price"; "qty"])) wide_rows = Ok df1 /\
    data df1 = [("price", SObject [VStr "-5"; VStr "9223372036854775807"; VStr "10"]);
                ("qty", SObject [VStr "3"; VStr "-9223372036854775808"; VStr "0"])] /\
    eval (handle_missing_values dedup) df1 = eval (handle_missing_values dedup) wide_rows /\
    eval (handle_missing_values dedup) df1 = Ok wide_rows.
Proof.
  assert (Hwf : wf wide_rows) by (repeat constructor).
  split; [exact dedup_lists_the_set|]. split; [exact Hwf|].
  eexists. split; [vm_compute; reflexivity|]. split; [reflexivity|].
  split; [|vm_compute; reflexivity].
  apply (trimmed_integers_read_back dedup ["price"; "qty"] wide_rows _
           dedup_lists_the_set Hwf).
  - intros c s [E|[E|[]]] _; injection E as <- <-;
      (split; [reflexivity | eexists; split; [reflexivity|]; repeat constructor]).
  - vm_compute. reflexivity.
Defined.
